(** * Live-update engine of cordova-plugin-ionic (www/common.ts)

    A shallow embedding of [IonicDeployImpl]: the manifest diff, the batched
    download scheduler, the state machine on [availableUpdate], the
    eviction of installed versions, [sync] and the start-up.

    The asynchronous methods are sequential between their [await]s, so each
    is a computation in a state-and-exception monad over a [World]: the
    in-memory preferences ([this._savedPreferences]), the base path the
    webview serves, and the chronological trace of every call that leaves
    the JavaScript heap (native [cordova.exec] calls, [fetch], webview and
    channel calls, progress callbacks).  What those calls answer is not
    decided by the plugin: it is read from an [Env], whose answers may depend
    on everything that happened before.

    What the embedding leaves out or fixes:
    - numbers are integers ([Z]); a progress callback is recorded with the
      two numbers its percentage is computed from, and never throws;
    - the transfers of a batch run side by side: the native side reports
      on them one at a time while [Promise.all] is awaited, in the order
      it chooses, and the first failure it reports rejects the batch; what
      the transfers still in flight do after that is not followed;
    - a manifest entry keeps the JSON text it was parsed from, which is
      what [JSON.stringify] gives back for it;
    - [k in o] and [o[k]] look at the own properties and then at the
      members of [Object.prototype]; [o[k] = v] defines an own property
      (the setter of [__proto__] is not followed), and [Object.keys]
      enumerates in insertion order;
    - the directory walk of [_recursiveFilesInPath] is followed to a given
      depth; a walk that needs more is [Unfinished], neither fulfilled nor
      rejected;
    - a call that is not awaited (the start-up has three) runs at the place
      of the call up to its first [await]; the rest of it is handed back
      as a computation of its own, which runs after the caller has gone
      on and whose outcome is dropped;
    - of the console output only the error of [reloadApp] for a missing
      version is traced; timers only log. *)

From Stdlib Require Import String Ascii List ZArith Lia Bool Arith.
From Stdlib Require Import Permutation DecimalString OrderedTypeEx.
From Stdlib Require DecimalPos DecimalZ.
Import ListNotations.
Local Open Scope list_scope.
Local Open Scope string_scope.

(* ================================================================= *)
(** ** JavaScript strings and arrays *)

Module JS.

(** [if (s)] on a string: the empty string is falsy. *)
Definition truthy (s : string) : bool :=
  match s with EmptyString => false | String _ _ => true end.

(** [if (o)] on a [string | undefined]. *)
Definition truthy_opt (o : option string) : bool :=
  match o with Some s => truthy s | None => false end.

(** [s.slice(0, 1)] *)
Definition slice_0_1 (s : string) : string :=
  match s with EmptyString => "" | String c _ => String c "" end.

(** [s.slice(1)], also [s.substring(1)] *)
Definition slice_1 (s : string) : string :=
  match s with EmptyString => "" | String _ r => r end.

(** [s.slice(-1)] *)
Fixpoint slice_last (s : string) : string :=
  match s with
  | EmptyString => ""
  | String c EmptyString => String c ""
  | String _ r => slice_last r
  end.

(** [s.includes(sub)] *)
Fixpoint includes (s sub : string) : bool :=
  if prefix sub s then true
  else match s with
       | EmptyString => false
       | String _ r => includes r sub
       end.

(** [s.replace(pat, rep)] with a string pattern: the first occurrence only.
    The [$]-patterns of the replacement string are not interpreted. *)
Fixpoint replace (s pat rep : string) : string :=
  if prefix pat s
  then rep ++ substring (String.length pat) (String.length s - String.length pat) s
  else match s with
       | EmptyString => ""
       | String c r => String c (replace r pat rep)
       end.

(** [s.split('/')[s.split('/').length - 1]]: what follows the last slash. *)
Fixpoint last_segment_from (acc s : string) : string :=
  match s with
  | EmptyString => acc
  | String c r =>
      if Ascii.eqb c "/"%char then last_segment_from "" r
      else last_segment_from (acc ++ String c "") r
  end.

Definition last_segment (s : string) : string := last_segment_from "" s.

(** [arr.indexOf(x)] on an array of strings: the first index, or -1. *)
Fixpoint indexOf_from (i : Z) (arr : list string) (x : string) : Z :=
  match arr with
  | [] => (-1)%Z
  | y :: r => if String.eqb y x then i else indexOf_from (i + 1)%Z r x
  end.

Definition indexOf (arr : list string) (x : string) : Z := indexOf_from 0 arr x.

(** [arr.slice(n)]: a negative [n] counts from the end. *)
Definition slice_from {A} (n : Z) (arr : list A) : list A :=
  if (n <? 0)%Z
  then skipn (Z.to_nat (Z.max 0 (Z.of_nat (List.length arr) + n))) arr
  else skipn (Z.to_nat n) arr.

(** [arr.sort(cmp)]: the sort is stable; a negative or zero [cmp a b]
    keeps [a] before [b]. *)
Section Sort.

Context {A : Type} (cmp : A -> A -> comparison).

Fixpoint insert (x : A) (l : list A) : list A :=
  match l with
  | [] => [x]
  | y :: r => match cmp x y with
              | Gt => y :: insert x r
              | _ => x :: l
              end
  end.

Definition sort (l : list A) : list A := fold_right insert [] l.

End Sort.

(** [a.localeCompare(b)].  The strings compared are the ISO-8601 instants of
    [Date.prototype.toISOString], fixed-width ASCII, on which the collation
    order is the order of the code units. *)
Definition localeCompare (a b : string) : comparison := String.compare a b.

(** The names of the members a plain object inherits from
    [Object.prototype]: those of the standard, with its annex for browsers. *)
Definition Object_prototype : list string :=
  ["constructor"; "__defineGetter__"; "__defineSetter__"; "hasOwnProperty";
   "__lookupGetter__"; "__lookupSetter__"; "isPrototypeOf";
   "propertyIsEnumerable"; "toString"; "valueOf"; "__proto__";
   "toLocaleString"].

(** [k] names a member of [Object.prototype]. *)
Definition inherited (k : string) : bool :=
  existsb (String.eqb k) Object_prototype.

End JS.

(** [Path.join(...paths)] *)
Module Path.

Definition join_step (fullPath path : string) : string :=
  let fullPath :=
    if JS.truthy fullPath && negb (String.eqb (JS.slice_last fullPath) "/")
    then fullPath ++ "/" else fullPath in
  if negb (String.eqb (JS.slice_0_1 path) "/")
  then fullPath ++ path
  else fullPath ++ JS.slice_1 path.

Definition join (paths : list string) : string :=
  match paths with
  | [] => ""
  | p :: rest => fold_left join_step rest p
  end.

End Path.

(* ================================================================= *)
(** ** Data model *)

Inductive UpdateState := Available | Pending | Ready.

Definition UpdateState_eqb (a b : UpdateState) : bool :=
  match a, b with
  | Available, Available | Pending, Pending | Ready, Ready => true
  | _, _ => false
  end.

Inductive UpdateMethod := BACKGROUND | AUTO | NONE.

(** [IAvailableUpdate] *)
Record IAvailableUpdate := {
  binaryVersionCode : string;
  binaryVersionName : string;
  channel : string;
  state : UpdateState;
  lastUsed : string;
  url : string;
  versionId : string;
  buildId : string
}.

(** A manifest entry as the code meets it: an object parsed from a
    manifest, of which it reads [href] and [size] and which it prints with
    [JSON.stringify].  The declaration of [ManifestFileEntry] lives in
    ./definitions, which is not part of the sources; the spec gives an entry
    the fields [href] and [size] (an integer number of bytes).  What
    [JSON.stringify] prints has every own property of the object, in the
    order the manifest gives them, which [href] and [size] do not determine:
    [json] is that text. *)
Record ManifestFileEntry := {
  href : string;
  size : Z;
  json : string
}.

(** The [updates] object of the preferences: a JavaScript object used as a
    map from version id to record.  Its own properties are kept in insertion
    order, as [Object.keys] enumerates them (version ids are not array
    indices); behind them stand the members of [Object.prototype], which
    [in] and a property read see and which [Object.keys] and [delete] do
    not. *)
Module Obj.

Section Obj.

Context {V : Type}.

Definition t := list (string * V).

(** The own property [k] of [o]: what [o[k]] gives for a key that
    [Object.keys(o)] has enumerated. *)
Fixpoint get (o : t) (k : string) : option V :=
  match o with
  | [] => None
  | (k', v) :: r => if String.eqb k' k then Some v else get r k
  end.

(** What [o[k]] evaluates to for any key: the own property if there is
    one, else the member of [Object.prototype] of that name (a function, or
    the prototype itself for [__proto__]), else [undefined]. *)
Inductive value :=
| Own (v : V)
| Inherited
| Undefined.

Definition read (o : t) (k : string) : value :=
  match get o k with
  | Some v => Own v
  | None => if JS.inherited k then Inherited else Undefined
  end.

(** [k in o] *)
Definition has (o : t) (k : string) : bool :=
  match get o k with Some _ => true | None => JS.inherited k end.

(** [delete o[k]] *)
Definition delete (o : t) (k : string) : t :=
  filter (fun kv => negb (String.eqb (fst kv) k)) o.

(** [o[k] = v]: an own property is defined, and an existing one keeps its
    place. *)
Fixpoint set (o : t) (k : string) (v : V) : t :=
  match o with
  | [] => [(k, v)]
  | (k', v') :: r =>
      if String.eqb k' k then (k, v) :: delete r k else (k', v') :: set r k v
  end.

(** [Object.keys(o)] *)
Definition keys (o : t) : list string := map fst o.

End Obj.

Arguments t : clear implicits.

End Obj.

(** [ISavedPreferences] *)
Record ISavedPreferences := {
  appId : string;
  prefs_channel : string;
  host : string;
  prefs_binaryVersionName : string;
  prefs_binaryVersionCode : string;
  currentVersionId : option string;
  currentBuildId : option string;
  updateMethod : UpdateMethod;
  maxVersions : Z;
  minBackgroundDuration : Z;
  disabled : bool;
  updates : Obj.t IAvailableUpdate;
  availableUpdate : option IAvailableUpdate
}.

Definition with_state (u : IAvailableUpdate) (s : UpdateState) : IAvailableUpdate :=
  {| binaryVersionCode := binaryVersionCode u;
     binaryVersionName := binaryVersionName u;
     channel := channel u;
     state := s;
     lastUsed := lastUsed u;
     url := url u;
     versionId := versionId u;
     buildId := buildId u |}.

Definition with_availableUpdate (p : ISavedPreferences) (a : option IAvailableUpdate) :=
  {| appId := appId p; prefs_channel := prefs_channel p; host := host p;
     prefs_binaryVersionName := prefs_binaryVersionName p;
     prefs_binaryVersionCode := prefs_binaryVersionCode p;
     currentVersionId := currentVersionId p;
     currentBuildId := currentBuildId p;
     updateMethod := updateMethod p; maxVersions := maxVersions p;
     minBackgroundDuration := minBackgroundDuration p; disabled := disabled p;
     updates := updates p;
     availableUpdate := a |}.

Definition with_updates (p : ISavedPreferences) (u : Obj.t IAvailableUpdate) :=
  {| appId := appId p; prefs_channel := prefs_channel p; host := host p;
     prefs_binaryVersionName := prefs_binaryVersionName p;
     prefs_binaryVersionCode := prefs_binaryVersionCode p;
     currentVersionId := currentVersionId p;
     currentBuildId := currentBuildId p;
     updateMethod := updateMethod p; maxVersions := maxVersions p;
     minBackgroundDuration := minBackgroundDuration p; disabled := disabled p;
     updates := u;
     availableUpdate := availableUpdate p |}.

Definition with_current (p : ISavedPreferences) (v b : option string) :=
  {| appId := appId p; prefs_channel := prefs_channel p; host := host p;
     prefs_binaryVersionName := prefs_binaryVersionName p;
     prefs_binaryVersionCode := prefs_binaryVersionCode p;
     currentVersionId := v;
     currentBuildId := b;
     updateMethod := updateMethod p; maxVersions := maxVersions p;
     minBackgroundDuration := minBackgroundDuration p; disabled := disabled p;
     updates := updates p;
     availableUpdate := availableUpdate p |}.

(** [CheckForUpdateResponse], the [data] of the check-device answer. *)
Record CheckForUpdateResponse := {
  available : bool;
  compatible : bool;
  partial : bool;
  resp_url : option string;
  snapshot : option string;
  build : option string
}.

(** What [fetch] resolves to for the check-device request: the status and
    the parsed body, [None] when [resp.json()] rejects. *)
Record Response := {
  status : Z;
  json_data : option CheckForUpdateResponse
}.

(** [resp.ok] *)
Definition ok (r : Response) : bool :=
  (200 <=? status r)%Z && (status r <=? 299)%Z.

(** [FetchManifestResp] *)
Record FetchManifestResp := {
  fileBaseUrl : string;
  manifestJson : list ManifestFileEntry
}.

(* ================================================================= *)
(** ** The world outside the JavaScript heap *)

(** Every call that leaves the heap, in the order it is made, and, for the
    transfers of a download, which run side by side, every callback by which
    the native side reports on one of them, when it comes. *)
Inductive Event :=
| Exec_setPreferences (prefs : ISavedPreferences)
| Exec_copyTo (source_path source_directory target : string)
| Exec_remove (target : string)
| Exec_downloadFile (file_url target : string)
| Callback_downloadFile (file_url target : string) (success : bool)
| Exec_copyFiles (source target : string)
| Exec_getDirectoryFiles (path : string)
| Fetch_check (endpoint : string) (device_snapshot device_build : option string)
| Fetch_manifest (manifest_url : string)
| Fetch_bundledManifest
| Await_all (promises : nat)
| Sleep
| Progress (downloaded total : Z)
| Progress_100
| OnIonicProReady_fire
| WebView_persistServerBasePath
| WebView_setServerBasePath (path : string)
| Console_error_missing (version : string).

(** How the collaborators answer.  Each answer may depend on the trace so
    far, so the same call can succeed once and fail later.  A [bool] tells
    whether the native success callback ([true]) or the error callback
    ([false]) is invoked; [None] is a rejected promise or a thrown
    [TypeError].  [native_downloadFile] is asked while transfers are in
    flight, and given their URLs and targets in the order they were
    started: it tells on which of them, by its place in that list, the
    native side reports next, and through which callback; [None] when it
    reports on none of them. *)
Record Env := {
  dataDirectory : string;
  Capacitor_defined : bool;
  URL_pathname : string -> string;
  URL_resolve : string -> string -> option string;
  navigator_onLine : list Event -> bool;
  Date_toISOString : list Event -> string;
  native_setPreferences : list Event -> ISavedPreferences -> bool;
  native_copyTo : list Event -> string -> string -> bool;
  native_remove : list Event -> string -> bool;
  native_downloadFile : list Event -> list (string * string) -> option (nat * bool);
  native_copyFiles : list Event -> string -> string -> bool;
  native_getDirectoryFiles : list Event -> string -> option (list string);
  fetch_check : list Event -> string -> option (Z * option (option CheckForUpdateResponse));
  fetch_manifest : list Event -> string -> option FetchManifestResp;
  fetch_bundledManifest : list Event -> option (list ManifestFileEntry)
}.

Record World := {
  prefs : ISavedPreferences;
  serverBasePath : string;
  trace : list Event
}.

(** The outcome of an asynchronous method: the promise is fulfilled, it is
    rejected, or it is not settled within what is followed of the run: the
    directory walk did not come to an end within the depth explored, or the
    native side reports on none of the transfers that are awaited. *)
Inductive Res (A : Type) :=
| Returned (a : A)
| Thrown (e : string)
| Unfinished.
Arguments Returned {A} a.
Arguments Thrown {A} e.
Arguments Unfinished {A}.

Definition M (A : Type) : Type := World -> Res A * World.

Definition ret {A} (a : A) : M A := fun w => (Returned a, w).

Definition bind {A B} (m : M A) (k : A -> M B) : M B :=
  fun w => match m w with
           | (Returned a, w') => k a w'
           | (Thrown e, w') => (Thrown e, w')
           | (Unfinished, w') => (Unfinished, w')
           end.

Definition throw {A} (e : string) : M A := fun w => (Thrown e, w).

Definition unfinished {A} : M A := fun w => (Unfinished, w).

(** [try { m } catch (e) { h e }] *)
Definition try_catch {A} (m : M A) (h : string -> M A) : M A :=
  fun w => match m w with
           | (Thrown e, w') => h e w'
           | r => r
           end.

Declare Scope js_scope.
Delimit Scope js_scope with js.
Notation "x <- m ;; k" := (bind m (fun x => k))
  (at level 61, m at next level, right associativity) : js_scope.
Notation "m ;; k" := (bind m (fun _ => k))
  (at level 61, right associativity) : js_scope.
Notation "' pat <- m ;; k" := (bind m (fun x => match x with pat => k end))
  (at level 61, pat pattern, m at next level, right associativity) : js_scope.
Local Open Scope js_scope.

Definition get_prefs : M ISavedPreferences := fun w => (Returned (prefs w), w).

Definition modify_prefs (f : ISavedPreferences -> ISavedPreferences) : M unit :=
  fun w => (Returned tt,
            {| prefs := f (prefs w); serverBasePath := serverBasePath w; trace := trace w |}).

(** The world after some more calls have been made. *)
Definition logged (w : World) (evs : list Event) : World :=
  {| prefs := prefs w; serverBasePath := serverBasePath w;
     trace := (trace w ++ evs)%list |}.

Definition emit (e : Event) : M unit :=
  fun w => (Returned tt, logged w [e]).

(** [Ionic.WebView.setServerBasePath(path)]: the webview is sent to [path]. *)
Definition WebView_setServerBasePath_call (path : string) : M unit :=
  fun w => (Returned tt,
            {| prefs := prefs w; serverBasePath := path;
               trace := (trace w ++ [WebView_setServerBasePath path])%list |}).

(** The collaborator's answer at this point of the trace. *)
Definition ask {X} (answer : list Event -> X) : M X :=
  fun w => (Returned (answer (trace w)), w).

(** A call to a collaborator: its answer is decided by what came before it. *)
Definition call {X} (e : Event) (answer : list Event -> X) : M X :=
  x <- ask answer ;; emit e ;; ret x.

Fixpoint forM_ {A} (l : list A) (f : A -> M unit) : M unit :=
  match l with
  | [] => ret tt
  | x :: r => f x ;; forM_ r f
  end.

(** [if (progress) progress(Number(((downloaded / size) * 100).toFixed(2)))]:
    the trace keeps the two numbers the percentage is computed from. *)
Definition report (progress : bool) (downloaded total : Z) : M unit :=
  if progress then emit (Progress downloaded total) else ret tt.

(* ================================================================= *)
(** ** JSON.stringify and manifest entries *)

Module JSON.

Definition dquote : string := String (ascii_of_nat 34) "".

Definition backslash : string := String (ascii_of_nat 92) "".

Definition hex_digit (n : nat) : string :=
  String (ascii_of_nat (if n <? 10 then 48 + n else 87 + n)%nat) "".

Definition escape_char (c : ascii) : string :=
  let n := nat_of_ascii c in
  if (n =? 34)%nat then backslash ++ dquote
  else if (n =? 92)%nat then backslash ++ backslash
  else if (n =? 8)%nat then backslash ++ "b"
  else if (n =? 12)%nat then backslash ++ "f"
  else if (n =? 10)%nat then backslash ++ "n"
  else if (n =? 13)%nat then backslash ++ "r"
  else if (n =? 9)%nat then backslash ++ "t"
  else if (n <? 32)%nat
       then backslash ++ "u00" ++ hex_digit (n / 16) ++ hex_digit (n mod 16)
  else String c "".

Fixpoint escape (s : string) : string :=
  match s with
  | EmptyString => ""
  | String c r => escape_char c ++ escape r
  end.

Definition quote (s : string) : string := dquote ++ escape s ++ dquote.

Definition number (z : Z) : string := NilZero.string_of_int (Z.to_int z).

(** [JSON.stringify(entry)] for an entry parsed from a manifest. *)
Definition stringify (entry : ManifestFileEntry) : string := json entry.

(** The entry parsed from an object of the documented form, [href] first
    and [size] second, with no other property. *)
Definition entry (h : string) (n : Z) : ManifestFileEntry :=
  {| href := h;
     size := n;
     json := "{" ++ quote "href" ++ ":" ++ quote h ++ ","
                 ++ quote "size" ++ ":" ++ number n ++ "}" |}.

End JSON.

(* ================================================================= *)
(** ** IonicDeployImpl *)

Definition SNAPSHOT_CACHE : string := "ionic_built_snapshots".
Definition maxBatch : nat := 20.

(** A promise pushed on [downloads]: [downloadFile(entry)] runs up to its
    first [await], so either the URL could not be built and the promise is
    already rejected, or the native transfer has been started. *)
Inductive Download :=
| Rejected (e : string)
| In_flight (file : ManifestFileEntry) (file_url target : string).

(** The first promise of [downloads] that is already rejected. *)
Fixpoint first_rejected (downloads : list Download) : option string :=
  match downloads with
  | [] => None
  | Rejected e :: _ => Some e
  | In_flight _ _ _ :: rest => first_rejected rest
  end.

(** The transfers in flight among [downloads]: the entry, and the URL and
    the target handed to the native side. *)
Fixpoint in_flight (downloads : list Download)
  : list (ManifestFileEntry * (string * string)) :=
  match downloads with
  | [] => []
  | Rejected _ :: rest => in_flight rest
  | In_flight file file_url target :: rest => (file, (file_url, target)) :: in_flight rest
  end.

(** A list without its element of index [i]. *)
Fixpoint remove_nth {A} (i : nat) (l : list A) : list A :=
  match l, i with
  | [], _ => []
  | _ :: rest, O => rest
  | x :: rest, S i => x :: remove_nth i rest
  end.

(** The object [_diffManifests] returns. *)
Record DiffResult := {
  diffManifest : list ManifestFileEntry;
  sameManifest : list ManifestFileEntry;
  downloaded : Z
}.

Section IonicDeployImpl.

Variable env : Env.

(** [getSnapshotCacheDir] *)
Definition getSnapshotCacheDir (versionId : string) : string :=
  URL_pathname env (Path.join [dataDirectory env; SNAPSHOT_CACHE; versionId]).

(** [getBundledAppDir] *)
Definition getBundledAppDir : string :=
  if Capacitor_defined env then "public" else "www".

(** [_savePrefs]: hands the preferences to the native store. *)
Definition _savePrefs : M unit :=
  p <- get_prefs ;;
  saved <- call (Exec_setPreferences p) (fun h => native_setPreferences env h p) ;;
  if saved then ret tt else throw "setPreferences".

(** *** FileManager *)

Definition FileManager_remove (path : string) : M unit :=
  done <- call (Exec_remove path) (fun h => native_remove env h path) ;;
  if done then ret tt else throw "remove".

Definition FileManager_copyTo (source_path source_directory target : string) : M unit :=
  done <- call (Exec_copyTo source_path source_directory target)
               (fun h => native_copyTo env h source_path target) ;;
  if done then ret tt else throw "copyTo".

Definition FileManager_copyFiles (source target : string) : M unit :=
  done <- call (Exec_copyFiles source target)
               (fun h => native_copyFiles env h source target) ;;
  if done then ret tt else throw "copyFiles".

Definition FileManager_getDirectoryFiles (path : string) : M (list string) :=
  r <- call (Exec_getDirectoryFiles path)
            (fun h => native_getDirectoryFiles env h path) ;;
  match r with
  | Some names => ret names
  | None => throw "getDirectoryFiles"
  end.

(** *** checkForUpdate *)

(** [checkForUpdate] from the answer to its request on: [raced] is what
    [await Promise.race([timeout, request])] gives. *)
Definition checkForUpdate_answered
           (raced : option (Z * option (option CheckForUpdateResponse)))
  : M CheckForUpdateResponse :=
  match raced with
  | None => throw "Request timed out. The device maybe offline."
  | Some (status, body) =>
      jsonResp <- (if (status <? 500)%Z
                   then match body with
                        | Some j => ret (Some j)
                        | None => throw "SyntaxError"
                        end
                   else ret None) ;;
      if ((200 <=? status) && (status <=? 299))%Z then
        match jsonResp with
        | Some (Some checkForUpdateResp) =>
            match available checkForUpdateResp,
                  resp_url checkForUpdateResp,
                  snapshot checkForUpdateResp,
                  build checkForUpdateResp with
            | true, Some u, Some s, Some b =>
                if JS.truthy u && JS.truthy s && JS.truthy b then
                  now <- ask (Date_toISOString env) ;;
                  modify_prefs (fun p =>
                    with_availableUpdate p
                      (Some {| binaryVersionCode := prefs_binaryVersionCode p;
                               binaryVersionName := prefs_binaryVersionName p;
                               channel := prefs_channel p;
                               state := Available;
                               lastUsed := now;
                               url := u;
                               versionId := s;
                               buildId := b |})) ;;
                  _savePrefs ;;
                  ret checkForUpdateResp
                else ret checkForUpdateResp
            | _, _, _, _ => ret checkForUpdateResp
            end
        | _ => throw "TypeError"
        end
      else throw "Error Status"
  end.

Definition checkForUpdate : M CheckForUpdateResponse :=
  isOnline <- ask (navigator_onLine env) ;;
  if negb isOnline then throw "The device is offline." else
  p <- get_prefs ;;
  let endpoint := host p ++ "/apps/" ++ appId p ++ "/channels/check-device" in
  raced <- call (Fetch_check endpoint (currentVersionId p) (currentBuildId p))
                (fun h => fetch_check env h endpoint) ;;
  checkForUpdate_answered raced.

(** *** _fetchManifest *)

Definition _fetchManifest (manifest_url : string) : M FetchManifestResp :=
  r <- call (Fetch_manifest manifest_url) (fun h => fetch_manifest env h manifest_url) ;;
  match r with
  | Some resp => ret resp
  | None => throw "fetch"
  end.

(** *** _recursiveFilesInPath

    The walk follows every name without a dot into a directory of its own;
    [depth] bounds how deep it is followed. *)

Fixpoint _recursiveFilesInPath (depth : nat) (filePath suffix folderName : string)
  : M (list string) :=
  match depth with
  | O => unfinished
  | S depth =>
      let fullPath := if JS.truthy suffix then filePath ++ suffix else filePath in
      let filePrefix := if JS.truthy suffix then JS.slice_1 suffix else "" in
      let fullPath := if JS.truthy folderName then fullPath ++ "/" ++ folderName
                      else fullPath in
      let filePrefix :=
        if JS.truthy folderName
        then (if JS.truthy filePrefix then filePrefix ++ "/" ++ folderName
              else filePrefix ++ folderName)
        else filePrefix in
      filesNames <- FileManager_getDirectoryFiles fullPath ;;
      let files :=
        map (fun fileName => if JS.truthy filePrefix
                             then filePrefix ++ "/" ++ fileName
                             else fileName) filesNames in
      let folders := filter (fun fileName => negb (JS.includes fileName ".")) files in
      (fix each_folder (folders files : list string) : M (list string) :=
         match folders with
         | [] => ret files
         | folder :: rest =>
             filesInFolder <-
               _recursiveFilesInPath depth filePath
                 (if JS.truthy filePrefix then "/" ++ filePrefix else filePrefix)
                 (JS.last_segment folder) ;;
             each_folder rest (files ++ filesInFolder)%list
         end) folders files
  end.

(** *** _diffManifests *)

(** One of the two reconciling [filter]s: a row whose [href] is on disk is
    dropped and counted as downloaded. *)
Fixpoint reconcile (progress : bool) (total : Z) (files : list string)
         (rows : list ManifestFileEntry) (downloaded : Z)
  : M (list ManifestFileEntry * Z) :=
  match rows with
  | [] => ret ([], downloaded)
  | currentRow :: rest =>
      downloaded <-
        (if (JS.indexOf files (href currentRow) >? -1)%Z
         then let downloaded := (downloaded + size currentRow)%Z in
              report progress downloaded total ;; ret downloaded
         else ret downloaded) ;;
      '(kept, downloaded) <- reconcile progress total files rest downloaded ;;
      if (JS.indexOf files (href currentRow) =? -1)%Z
      then ret (currentRow :: kept, downloaded)
      else ret (kept, downloaded)
  end.

(** The body of the [try]. *)
Definition _diffManifests_try (depth : nat) (newManifest : list ManifestFileEntry)
           (oldManifest : option (list ManifestFileEntry))
           (filePath : string) (total : Z) (progress : bool) : M DiffResult :=
  fetched <- call Fetch_bundledManifest (fetch_bundledManifest env) ;;
  bundledManifest <- match fetched with
                     | Some m => ret m
                     | None => throw "fetch"
                     end ;;
  let bundledManifest := match oldManifest with
                         | Some old => old
                         | None => bundledManifest
                         end in
  let bundleManifestStrings := map JSON.stringify bundledManifest in
  let diffManifest :=
    filter (fun entry =>
              (JS.indexOf bundleManifestStrings (JSON.stringify entry) =? -1)%Z)
           newManifest in
  files <- _recursiveFilesInPath depth filePath "" "" ;;
  let sameManifest :=
    filter (fun entry =>
              (JS.indexOf bundleManifestStrings (JSON.stringify entry) >? -1)%Z)
           newManifest in
  '(sameManifest, downloaded) <- reconcile progress total files sameManifest 0%Z ;;
  '(diffManifest, downloaded) <- reconcile progress total files diffManifest downloaded ;;
  ret {| diffManifest := diffManifest;
         sameManifest := sameManifest;
         downloaded := downloaded |}.

Definition _diffManifests (depth : nat) (newManifest : list ManifestFileEntry)
           (oldManifest : option (list ManifestFileEntry))
           (filePath : string) (total : Z) (progress : bool) : M DiffResult :=
  try_catch
    (_diffManifests_try depth newManifest oldManifest filePath total progress)
    (fun _ => ret {| diffManifest := newManifest;
                     sameManifest := filter (fun _ => false) newManifest;
                     downloaded := 0%Z |}).

(** *** _downloadFilesFromManifest *)

(** [downloadFile(entry)] up to its [await]: the transfer is handed to the
    native side when the promise is created. *)
Definition downloadFile (baseUrl versionId : string) (file : ManifestFileEntry)
  : M Download :=
  match URL_resolve env baseUrl (href file) with
  | None => ret (Rejected "TypeError")
  | Some newUrl =>
      let target := Path.join [getSnapshotCacheDir versionId; href file] in
      emit (Exec_downloadFile newUrl target) ;;
      ret (In_flight file newUrl target)
  end.

(** While [Promise.all] is awaited the native side reports on the
    transfers in flight, one at a time and in the order it chooses.  A
    success runs the rest of that [downloadFile]: the size of its file is
    added to the count and progress is reported.  The first failure rejects
    [Promise.all] there and then, whatever is still in flight.  [pending]
    is the number of transfers in flight. *)
Fixpoint settle (progress : bool) (total : Z) (pending : nat)
         (flying : list (ManifestFileEntry * (string * string)))
         (downloaded : Z) : M Z :=
  match pending with
  | O => ret downloaded
  | S pending =>
      next <- ask (fun h => native_downloadFile env h (map snd flying)) ;;
      match next with
      | None => unfinished
      | Some (i, success) =>
          match nth_error flying i with
          | None => unfinished
          | Some (file, (file_url, target)) =>
              emit (Callback_downloadFile file_url target success) ;;
              if success then
                let downloaded := (downloaded + size file)%Z in
                report progress downloaded total ;;
                settle progress total pending (remove_nth i flying) downloaded
              else throw "downloadFile"
          end
      end
  end.

(** [await Promise.all(downloads)]: a promise that is already rejected
    rejects it before the native side can report on anything. *)
Definition Promise_all (progress : bool) (total : Z) (downloads : list Download)
           (downloaded : Z) : M Z :=
  emit (Await_all (List.length downloads)) ;;
  match first_rejected downloads with
  | Some e => throw e
  | None =>
      settle progress total (List.length (in_flight downloads)) (in_flight downloads)
             downloaded
  end.

(** [for (const entry of manifest) { ... }], on the variables [downloads],
    [count] and [downloaded]. *)
Fixpoint download_loop (baseUrl versionId : string) (progress : bool) (total : Z)
         (manifest : list ManifestFileEntry)
         (downloads : list Download) (count : nat) (downloaded : Z)
  : M (list Download * nat * Z) :=
  match manifest with
  | [] => ret (downloads, count, downloaded)
  | entry :: rest =>
      '(downloads, count, downloaded) <-
        (if (maxBatch <=? List.length downloads)%nat
         then downloaded <- Promise_all progress total downloads downloaded ;;
              emit Sleep ;;
              ret ([], S count, downloaded)
         else ret (downloads, count, downloaded)) ;;
      promise <- downloadFile baseUrl versionId entry ;;
      download_loop baseUrl versionId progress total rest
                    (downloads ++ [promise])%list count downloaded
  end.

Definition _downloadFilesFromManifest (baseUrl : string)
           (manifest : list ManifestFileEntry) (versionId : string)
           (downloaded total : Z) (progress : bool) : M unit :=
  '(downloads, count, downloaded) <-
    download_loop baseUrl versionId progress total manifest [] 0%nat downloaded ;;
  match downloads with
  | [] => ret tt
  | _ :: _ => Promise_all progress total downloads downloaded ;; ret tt
  end.

(** *** prepareUpdateDirectory *)

Definition _copyBaseAppDir : M unit :=
  FileManager_copyTo getBundledAppDir "APPLICATION" (getSnapshotCacheDir "base").

Fixpoint _copyCurrentAppDir (folderToCopyFrom versionId : string)
         (manifest : list ManifestFileEntry) (downloaded total : Z)
         (progress : bool) : M Z :=
  match manifest with
  | [] => ret downloaded
  | entry :: rest =>
      FileManager_copyFiles
        (URL_pathname env (Path.join [dataDirectory env; SNAPSHOT_CACHE; folderToCopyFrom])
           ++ "/" ++ href entry)
        (getSnapshotCacheDir versionId ++ "/" ++ href entry) ;;
      let downloaded := (downloaded + size entry)%Z in
      report progress downloaded total ;;
      _copyCurrentAppDir folderToCopyFrom versionId rest downloaded total progress
  end.

Definition prepareUpdateDirectory (versionId : string)
           (currentVersionId : option string)
           (manifest : list ManifestFileEntry) (downloaded total : Z)
           (progress : bool) : M Z :=
  _copyBaseAppDir ;;
  let passedInFolder := match currentVersionId with
                        | Some c => if JS.truthy c then c else "base"
                        | None => "base"
                        end in
  FileManager_copyFiles
    (URL_pathname env (Path.join [dataDirectory env; SNAPSHOT_CACHE; "base"]) ++ "/plugins")
    (getSnapshotCacheDir versionId ++ "/plugins") ;;
  _copyCurrentAppDir passedInFolder versionId manifest downloaded total progress.

(** *** downloadUpdate *)

(** The manifest of the running version, when there is one to ask for;
    any failure is swallowed. *)
Definition fetch_currentManifest (update : IAvailableUpdate) (current : string)
  : M (option (list ManifestFileEntry)) :=
  try_catch
    (let newUrl := JS.replace (url update) (versionId update) current in
     if negb (String.eqb newUrl (url update))
     then currentManifestObject <- _fetchManifest newUrl ;;
          ret (Some (manifestJson currentManifestObject))
     else ret None)
    (fun _ => ret None).

Definition downloadUpdate (depth : nat) (progress : bool) : M bool :=
  p <- get_prefs ;;
  match availableUpdate p with
  | Some update =>
      if UpdateState_eqb (state update) Available then
        fetched <- _fetchManifest (url update) ;;
        currentManifestJson <-
          (match currentVersionId p with
           | Some current =>
               if JS.truthy current then fetch_currentManifest update current
               else ret None
           | None => ret None
           end) ;;
        let filePath :=
          URL_pathname env
            (Path.join [dataDirectory env; SNAPSHOT_CACHE; versionId update]) in
        let total := fold_left (fun acc i => (acc + size i)%Z) (manifestJson fetched) 0%Z in
        d <- _diffManifests depth (manifestJson fetched) currentManifestJson
                            filePath total progress ;;
        report progress (downloaded d) total ;;
        downloaded <- prepareUpdateDirectory (versionId update) (currentVersionId p)
                        (sameManifest d) (downloaded d) total progress ;;
        _downloadFilesFromManifest (fileBaseUrl fetched) (diffManifest d)
                                   (versionId update) downloaded total progress ;;
        modify_prefs (fun p =>
          match availableUpdate p with
          | Some u => with_availableUpdate p (Some (with_state u Pending))
          | None => p
          end) ;;
        _savePrefs ;;
        ret true
      else ret false
  | None => ret false
  end.

(** *** extractUpdate *)

Definition extractUpdate (progress : bool) : M bool :=
  p <- get_prefs ;;
  match availableUpdate p with
  | Some update =>
      if negb (UpdateState_eqb (state update) Pending) then ret false
      else
        (if progress then emit Progress_100 else ret tt) ;;
        modify_prefs (fun p =>
          let ready := with_state update Ready in
          with_updates (with_availableUpdate p (Some ready))
                       (Obj.set (updates p) (versionId ready) ready)) ;;
        _savePrefs ;;
        ret true
  | None => ret false
  end.

(** *** Versions *)

(** [isUpdateForCurrentBinary] *)
Definition isUpdateForCurrentBinary (p : ISavedPreferences) (update : IAvailableUpdate)
  : bool :=
  String.eqb (binaryVersionName update) (prefs_binaryVersionName p)
  && String.eqb (binaryVersionCode update) (prefs_binaryVersionCode p).

(** [isUpdateCurrentlyInstalled] *)
Definition isUpdateCurrentlyInstalled (p : ISavedPreferences) (update : IAvailableUpdate)
  : bool :=
  match currentVersionId p with
  | Some c => String.eqb c (versionId update)
  | None => false
  end.

(** [_isRunningVersion]: the base path the webview serves contains the
    version id. *)
Definition _isRunningVersion (versionId : string) : M bool :=
  fun w => (Returned (JS.includes (serverBasePath w) versionId), w).

(** [_cleanSnapshotDir] *)
Definition _cleanSnapshotDir (versionId : string) : M unit :=
  let snapshotDir := getSnapshotCacheDir versionId in
  try_catch (FileManager_remove snapshotDir) (fun _ => ret tt).

(** [deleteVersionById] *)
Definition deleteVersionById (versionId : string) : M bool :=
  modify_prefs (fun p => with_updates p (Obj.delete (updates p) versionId)) ;;
  _savePrefs ;;
  _cleanSnapshotDir versionId ;;
  ret true.

(** [getStoredUpdates] *)
Definition getStoredUpdates (p : ISavedPreferences) : list IAvailableUpdate :=
  flat_map (fun versionId => match Obj.get (updates p) versionId with
                             | Some update => [update]
                             | None => []
                             end)
           (Obj.keys (updates p)).

(** [cleanupStaleVersions] *)
Definition cleanupStaleVersions : M unit :=
  p <- get_prefs ;;
  forM_ (getStoredUpdates p) (fun update =>
    p <- get_prefs ;;
    if negb (isUpdateForCurrentBinary p update) then
      running <- _isRunningVersion (versionId update) ;;
      if negb running then
        (if isUpdateCurrentlyInstalled p update
         then modify_prefs (fun p => with_current p None (currentBuildId p))
         else ret tt) ;;
        deleteVersionById (versionId update) ;;
        ret tt
      else ret tt
    else ret tt).

(** [cleanupVersions] *)
Definition cleanupVersions : M unit :=
  cleanupStaleVersions ;;
  p <- get_prefs ;;
  let updatesToDelete :=
    JS.slice_from (maxVersions p)
      (rev (JS.sort (fun a b => JS.localeCompare (lastUsed a) (lastUsed b))
                    (filter (fun a => negb (isUpdateCurrentlyInstalled p a))
                            (getStoredUpdates p)))) in
  forM_ updatesToDelete (fun update =>
    deleteVersionById (versionId update) ;; ret tt).

(** *** reloadApp *)

Definition reloadApp : M bool :=
  p <- get_prefs ;;
  (match availableUpdate p with
   | Some update =>
       if UpdateState_eqb (state update) Ready then
         modify_prefs (fun p =>
           with_availableUpdate
             (with_current p (Some (versionId update)) (Some (buildId update)))
             None) ;;
         _savePrefs
       else ret tt
   | None => ret tt
   end) ;;
  p <- get_prefs ;;
  match currentVersionId p with
  | Some current =>
      if JS.truthy current then
        running <- _isRunningVersion current ;;
        if running then
          _savePrefs ;;
          emit OnIonicProReady_fire ;;
          emit WebView_persistServerBasePath ;;
          cleanupVersions ;;
          ret false
        else if negb (Obj.has (updates p) current) then
          emit (Console_error_missing current) ;;
          emit OnIonicProReady_fire ;;
          ret false
        else
          let newLocation := getSnapshotCacheDir current in
          WebView_setServerBasePath_call newLocation ;;
          ret true
      else
        emit OnIonicProReady_fire ;; ret false
  | None =>
      emit OnIonicProReady_fire ;; ret false
  end.

End IonicDeployImpl.

(* ================================================================= *)
(** ** IonicDeployImpl: version queries, sync and start-up *)

(** [ISnapshotInfo], with the fields [_convertToSnapshotInfo] gives it. *)
Record ISnapshotInfo := {
  deploy_uuid : string;
  info_versionId : string;
  info_buildId : string;
  info_channel : string;
  binary_version : string;
  binaryVersion : string;
  info_binaryVersionCode : string;
  info_binaryVersionName : string
}.

(** [_convertToSnapshotInfo] *)
Definition _convertToSnapshotInfo (update : IAvailableUpdate) : ISnapshotInfo :=
  {| deploy_uuid := versionId update;
     info_versionId := versionId update;
     info_buildId := buildId update;
     info_channel := channel update;
     binary_version := binaryVersionName update;
     binaryVersion := binaryVersionName update;
     info_binaryVersionCode := binaryVersionCode update;
     info_binaryVersionName := binaryVersionName update |}.

(** What [getVersionById] resolves to when [updates[versionId]] is not
    falsy: the descriptor of the update found there, or, when the value
    found is a member of [Object.prototype], which has none of the
    properties [_convertToSnapshotInfo] reads, a descriptor whose eight
    fields are all [undefined]. *)
Inductive Descriptor :=
| Descriptor_of (info : ISnapshotInfo)
| Descriptor_undefined.

(** [getVersionById] *)
Definition getVersionById (versionId : string) : M (option Descriptor) :=
  p <- get_prefs ;;
  match Obj.read (updates p) versionId with
  | Obj.Undefined => ret None
  | Obj.Own update => ret (Some (Descriptor_of (_convertToSnapshotInfo update)))
  | Obj.Inherited => ret (Some Descriptor_undefined)
  end.

(** [getCurrentVersion] *)
Definition getCurrentVersion : M (option Descriptor) :=
  p <- get_prefs ;;
  match currentVersionId p with
  | Some versionId => getVersionById versionId
  | None => ret None
  end.

(** [getAvailableVersions] *)
Definition getAvailableVersions : M (list ISnapshotInfo) :=
  p <- get_prefs ;;
  ret (map _convertToSnapshotInfo (getStoredUpdates p)).

Section Sync.

Variable env : Env.

(** [prefs.availableUpdate.state === s], read after a step of [sync]. *)
Definition availableUpdate_state_is (s : UpdateState) : M bool :=
  p <- get_prefs ;;
  match availableUpdate p with
  | Some update => ret (UpdateState_eqb (state update) s)
  | None => throw "TypeError"
  end.

(** [sync] once [checkForUpdate] has returned. *)
Definition sync_checked (depth : nat) (updateMethod : UpdateMethod) (progress : bool)
  : M (option ISnapshotInfo) :=
  p <- get_prefs ;;
  (match availableUpdate p with
   | Some _ =>
       available <- availableUpdate_state_is Available ;;
       (if available then downloadUpdate env depth progress ;; ret tt else ret tt) ;;
       pending <- availableUpdate_state_is Pending ;;
       (if pending then extractUpdate env false ;; ret tt else ret tt) ;;
       ready <- availableUpdate_state_is Ready ;;
       (if ready && match updateMethod with AUTO => true | _ => false end
        then reloadApp env ;; ret tt
        else ret tt)
   | None => ret tt
   end) ;;
  p <- get_prefs ;;
  match currentVersionId p, currentBuildId p with
  | Some v, Some b =>
      if JS.truthy v && JS.truthy b then
        ret (Some {| deploy_uuid := v;
                     info_versionId := v;
                     info_buildId := b;
                     info_channel := prefs_channel p;
                     binary_version := prefs_binaryVersionName p;
                     binaryVersion := prefs_binaryVersionName p;
                     info_binaryVersionCode := prefs_binaryVersionCode p;
                     info_binaryVersionName := prefs_binaryVersionName p |})
      else ret None
  | _, _ => ret None
  end.

(** [sync]; [syncOptions_updateMethod] is [syncOptions.updateMethod]. *)
Definition sync (depth : nat) (syncOptions_updateMethod : option UpdateMethod)
           (progress : bool) : M (option ISnapshotInfo) :=
  p <- get_prefs ;;
  let updateMethod := match syncOptions_updateMethod with
                      | Some m => m
                      | None => updateMethod p
                      end in
  checkForUpdate env ;;
  sync_checked depth updateMethod progress.

(** *** Calls that are not awaited

    [this.reloadApp()] and [this.sync(...)], called without [await], run at
    once up to their first [await]; what is left of them runs after the
    caller has gone on, and no one sees how it ends.  For such a method [m],
    [m_begin] is the part that runs at once; it returns the part that is
    left. *)

(** [_savePrefs]: the preferences are handed to the native store; what is
    left is to hear from it. *)
Definition _savePrefs_begin : M (M unit) :=
  p <- get_prefs ;;
  saved <- call (Exec_setPreferences p) (fun h => native_setPreferences env h p) ;;
  ret (if saved then ret tt else throw "setPreferences").

(** [reloadApp] from the answer of [_isRunningVersion(current)] on.  The
    preferences are read again where the source reads them; a
    [currentVersionId] deleted in the meantime is the key [undefined]. *)
Definition reloadApp_answered (current : string) : M bool :=
  running <- _isRunningVersion current ;;
  if running then
    _savePrefs env ;;
    emit OnIonicProReady_fire ;;
    emit WebView_persistServerBasePath ;;
    cleanupVersions env ;;
    ret false
  else
    p <- get_prefs ;;
    match currentVersionId p with
    | Some current =>
        if negb (Obj.has (updates p) current) then
          emit (Console_error_missing current) ;;
          emit OnIonicProReady_fire ;;
          ret false
        else
          let newLocation := getSnapshotCacheDir env current in
          WebView_setServerBasePath_call newLocation ;;
          ret true
    | None =>
        if negb (Obj.has (updates p) "undefined") then
          emit (Console_error_missing "undefined") ;;
          emit OnIonicProReady_fire ;;
          ret false
        else throw "TypeError"
    end.

(** [reloadApp] from [if (prefs.currentVersionId)] to its first [await]. *)
Definition reloadApp_deployed_begin : M (M bool) :=
  p <- get_prefs ;;
  match currentVersionId p with
  | Some current =>
      if JS.truthy current then ret (reloadApp_answered current)
      else emit OnIonicProReady_fire ;; ret (ret false)
  | None =>
      emit OnIonicProReady_fire ;; ret (ret false)
  end.

(** [reloadApp] to its first [await]. *)
Definition reloadApp_begin : M (M bool) :=
  p <- get_prefs ;;
  match availableUpdate p with
  | Some update =>
      if UpdateState_eqb (state update) Ready then
        modify_prefs (fun p =>
          with_availableUpdate
            (with_current p (Some (versionId update)) (Some (buildId update)))
            None) ;;
        saved <- _savePrefs_begin ;;
        ret (saved ;; rest <- reloadApp_deployed_begin ;; rest)
      else reloadApp_deployed_begin
  | None => reloadApp_deployed_begin
  end.

(** [checkForUpdate] to its first [await]: offline, the promise it returns
    is already rejected; online, the request has been sent. *)
Definition checkForUpdate_begin : M (M CheckForUpdateResponse) :=
  isOnline <- ask (navigator_onLine env) ;;
  if negb isOnline then ret (throw "The device is offline.") else
  p <- get_prefs ;;
  let endpoint := host p ++ "/apps/" ++ appId p ++ "/channels/check-device" in
  raced <- call (Fetch_check endpoint (currentVersionId p) (currentBuildId p))
                (fun h => fetch_check env h endpoint) ;;
  ret (checkForUpdate_answered env raced).

(** [sync] to its first [await], which is the one of [checkForUpdate]. *)
Definition sync_begin (depth : nat) (syncOptions_updateMethod : option UpdateMethod)
           (progress : bool) : M (M (option ISnapshotInfo)) :=
  p <- get_prefs ;;
  let updateMethod := match syncOptions_updateMethod with
                      | Some m => m
                      | None => updateMethod p
                      end in
  answered <- checkForUpdate_begin ;;
  ret (answered ;; sync_checked depth updateMethod progress).

(** [_handleInitialPreferenceState]: what it resolves to is [undefined];
    the computation returned is the call it has left running, if any. *)
Definition _handleInitialPreferenceState (depth : nat) : M (M unit) :=
  cleanupStaleVersions env ;;
  isOnline <- ask (navigator_onLine env) ;;
  if negb isOnline then
    rest <- reloadApp_begin ;;
    ret (rest ;; ret tt)
  else
    p <- get_prefs ;;
    match updateMethod p with
    | AUTO =>
        try_catch (sync depth (Some BACKGROUND) false ;; ret tt) (fun _ => ret tt) ;;
        reloadApp env ;;
        ret (ret tt)
    | NONE =>
        rest <- reloadApp_begin ;;
        ret (rest ;; ret tt)
    | BACKGROUND =>
        reloadApp env ;;
        rest <- sync_begin depth (Some BACKGROUND) false ;;
        ret (rest ;; ret tt)
    end.

End Sync.

(* ================================================================= *)
(** ** Notions the properties are stated with *)

(** Whatever a computation does, the world it leaves is related by [R] to the
    world it started in. *)
Definition preserves {A} (R : World -> World -> Prop) (m : M A) : Prop :=
  forall w, R w (snd (m w)).

(** The world once the call that a method has left running has come to
    its end, with nothing in between. *)
Definition left_to_itself (r : Res (M unit) * World) : World :=
  match fst r with
  | Returned rest => snd (rest (snd r))
  | _ => snd r
  end.

(** A method split at its first [await] keeps [R] in the part that runs at
    once, and in the part it leaves, whenever that one runs. *)
Definition leaves {A} (R : World -> World -> Prop) (m : M (M A)) : Prop :=
  forall w, R w (snd (m w))
            /\ forall rest, fst (m w) = Returned rest -> preserves R rest.

(** Only the trace has grown: preferences and webview are as they were. *)
Definition same_heap (w w' : World) : Prop :=
  prefs w' = prefs w /\ serverBasePath w' = serverBasePath w.

(** [Σ size] over a manifest. *)
Definition total_size (m : list ManifestFileEntry) : Z :=
  fold_right (fun e acc => (size e + acc)%Z) 0%Z m.

(** What [_diffManifests] returns from its [catch]. *)
Definition full_download (newManifest : list ManifestFileEntry) : DiffResult :=
  {| diffManifest := newManifest; sameManifest := []; downloaded := 0%Z |}.

(** The sizes of the batches awaited with [Promise.all], in order. *)
Fixpoint batches_awaited (evs : list Event) : list nat :=
  match evs with
  | [] => []
  | Await_all n :: r => n :: batches_awaited r
  | _ :: r => batches_awaited r
  end.

(** There are transfers in flight. *)
Definition busy (flying : list (string * string)) : bool :=
  match flying with [] => false | _ :: _ => true end.

(** [flying] without the first occurrence of the transfer [x]; [None] when
    [x] is not in flight. *)
Fixpoint land (x : string * string) (flying : list (string * string))
  : option (list (string * string)) :=
  match flying with
  | [] => None
  | y :: rest =>
      if String.eqb (fst x) (fst y) && String.eqb (snd x) (snd y) then Some rest
      else option_map (cons y) (land x rest)
  end.

(** Reading a trace as the scheduler's discipline.  [flying] are the
    transfers started and not yet reported on, [awaiting] tells that a
    [Promise.all] is awaited and has transfers still in flight.  A transfer
    may start only while no batch is awaited and fewer than [width] are in
    flight; a [Promise.all] awaits all the transfers in flight; the native
    side reports only on a transfer that is in flight and awaited, and the
    await ends with the last of them.  [None] when the trace breaks this
    discipline. *)
Fixpoint scan (width : nat) (awaiting : bool) (flying : list (string * string))
         (evs : list Event) : option (bool * list (string * string)) :=
  match evs with
  | [] => Some (awaiting, flying)
  | Exec_downloadFile file_url target :: r =>
      if awaiting then None
      else if (List.length flying <? width)%nat
           then scan width false (flying ++ [(file_url, target)])%list r
           else None
  | Await_all n :: r =>
      if awaiting then None
      else if (List.length flying <=? n)%nat
           then scan width (busy flying) flying r
           else None
  | Callback_downloadFile file_url target _ :: r =>
      if awaiting then
        match land (file_url, target) flying with
        | Some rest => scan width (busy rest) rest r
        | None => None
        end
      else None
  | _ :: r => scan width awaiting flying r
  end.

(** The transfers the native side has reported on, in the order of its
    reports, each with its outcome. *)
Fixpoint reported (evs : list Event) : list (string * string * bool) :=
  match evs with
  | [] => []
  | Callback_downloadFile file_url target success :: r =>
      (file_url, target, success) :: reported r
  | _ :: r => reported r
  end.

(** The report the native side makes on a transfer that has succeeded. *)
Definition done (x : ManifestFileEntry * (string * string)) : string * string * bool :=
  (fst (snd x), snd (snd x), true).

(** An event the scheduler's discipline does not look at. *)
Definition bystander (e : Event) : Prop :=
  match e with
  | Exec_downloadFile _ _ | Callback_downloadFile _ _ _ | Await_all _ => False
  | _ => True
  end.

(** The public operations that act on [availableUpdate]. *)
Inductive Operation :=
| CheckForUpdate
| DownloadUpdate (depth : nat) (progress : bool)
| ExtractUpdate (progress : bool)
| ReloadApp.

(** The world an operation leaves, whether its promise is fulfilled or not. *)
Definition perform (env : Env) (op : Operation) (w : World) : World :=
  match op with
  | CheckForUpdate => snd (checkForUpdate env w)
  | DownloadUpdate depth progress => snd (downloadUpdate env depth progress w)
  | ExtractUpdate progress => snd (extractUpdate env progress w)
  | ReloadApp => snd (reloadApp env w)
  end.

(** How far the pending update has come: Available, Pending, Ready, cleared. *)
Definition stage (a : option IAvailableUpdate) : nat :=
  match a with
  | Some u => match state u with Available => 0 | Pending => 1 | Ready => 2 end
  | None => 3
  end.

(** The pending update stays as it is or moves one stage forward. *)
Inductive advances : option IAvailableUpdate -> option IAvailableUpdate -> Prop :=
| advances_stay a : advances a a
| advances_download u :
    state u = Available -> advances (Some u) (Some (with_state u Pending))
| advances_extract u :
    state u = Pending -> advances (Some u) (Some (with_state u Ready))
| advances_commit u :
    state u = Ready -> advances (Some u) None.

(** What the update service reports to a device in the world [w]: the
    record of the update on offer, when the device is online and the
    request is answered in time, with a status from 200 to 299 and a body
    whose [data] reports an available update with a url, a snapshot and a
    build; nothing otherwise.  The record is stamped with the binary
    version and the channel of the preferences and with the time at which
    the answer is handled; its state is Available. *)
Definition offer (env : Env) (w : World) : option IAvailableUpdate :=
  let p := prefs w in
  let endpoint := host p ++ "/apps/" ++ appId p ++ "/channels/check-device" in
  let request := Fetch_check endpoint (currentVersionId p) (currentBuildId p) in
  if navigator_onLine env (trace w) then
    match fetch_check env (trace w) endpoint with
    | Some (status, Some (Some checkForUpdateResp)) =>
        if ((200 <=? status) && (status <=? 299))%Z then
          match available checkForUpdateResp,
                resp_url checkForUpdateResp,
                snapshot checkForUpdateResp,
                build checkForUpdateResp with
          | true, Some u, Some s, Some b =>
              if JS.truthy u && JS.truthy s && JS.truthy b then
                Some {| binaryVersionCode := prefs_binaryVersionCode p;
                        binaryVersionName := prefs_binaryVersionName p;
                        channel := prefs_channel p;
                        state := Available;
                        lastUsed := Date_toISOString env (trace w ++ [request]);
                        url := u;
                        versionId := s;
                        buildId := b |}
              else None
          | _, _, _, _ => None
          end
        else None
    | _ => None
    end
  else None.

(** What one operation does to [availableUpdate], from the world [w] to the
    world [w']: [checkForUpdate] puts the update the service offers in its
    place, whatever was there, and leaves it as it is when there is no
    offer; the other operations leave it or move it one stage forward. *)
Definition lifecycle_step (env : Env) (op : Operation) (w w' : World) : Prop :=
  match op with
  | CheckForUpdate =>
      availableUpdate (prefs w')
      = match offer env w with
        | Some update => Some update
        | None => availableUpdate (prefs w)
        end
  | _ => advances (availableUpdate (prefs w)) (availableUpdate (prefs w'))
  end.

Fixpoint lifecycle (env : Env) (ops : list Operation) (w : World) : Prop :=
  match ops with
  | [] => True
  | op :: rest =>
      lifecycle_step env op w (perform env op w)
      /\ lifecycle env rest (perform env op w)
  end.

(** The calls version cleanup makes: saving preferences and removing
    snapshot directories. *)
Definition housekeeping_event (e : Event) : Prop :=
  match e with
  | Exec_setPreferences _ | Exec_remove _ => True
  | _ => False
  end.

(** What version cleanup leaves alone. *)
Definition housekeeping (w w' : World) : Prop :=
  serverBasePath w' = serverBasePath w
  /\ availableUpdate (prefs w') = availableUpdate (prefs w)
  /\ currentBuildId (prefs w') = currentBuildId (prefs w)
  /\ prefs_binaryVersionName (prefs w') = prefs_binaryVersionName (prefs w)
  /\ prefs_binaryVersionCode (prefs w') = prefs_binaryVersionCode (prefs w)
  /\ maxVersions (prefs w') = maxVersions (prefs w)
  /\ exists evs, trace w' = (trace w ++ evs)%list /\ Forall housekeeping_event evs.

(** The heap once [delete prefs.updates[v]] is done. *)
Definition removed (w : World) (v : string) : World :=
  {| prefs := with_updates (prefs w) (Obj.delete (updates (prefs w)) v);
     serverBasePath := serverBasePath w;
     trace := trace w |}.

(** The webview serves the installed version [c]. *)
Definition serving (c : string) (w : World) : Prop :=
  currentVersionId (prefs w) = Some c /\ JS.includes (serverBasePath w) c = true.

(** The current version [c] is out of the reach of the cleanup: the
    webview serves it, or those of the updates [stored] that have this id
    are built for the running binary. *)
Definition guarded (c : string) (stored : list IAvailableUpdate) (w : World) : Prop :=
  currentVersionId (prefs w) = Some c
  /\ (JS.includes (serverBasePath w) c = true
      \/ forall update, In update stored -> versionId update = c ->
                        isUpdateForCurrentBinary (prefs w) update = true).

(** A removal is that of the snapshot directory of one of the updates
    [stored], with an id other than [c]. *)
Definition spares (env : Env) (c : string) (stored : list IAvailableUpdate)
           (e : Event) : Prop :=
  match e with
  | Exec_remove path =>
      exists update, In update stored /\ versionId update <> c
                     /\ path = getSnapshotCacheDir env (versionId update)
  | _ => True
  end.

(** A guarded current version [c] stays current and registered, no update
    is added, and the directories removed are those of other ids. *)
Definition keeps_version (env : Env) (c : string) (stored : list IAvailableUpdate)
           (w w' : World) : Prop :=
  guarded c stored w ->
  guarded c stored w'
  /\ Obj.get (updates (prefs w')) c = Obj.get (updates (prefs w)) c
  /\ incl (getStoredUpdates (prefs w')) (getStoredUpdates (prefs w))
  /\ exists evs, trace w' = (trace w ++ evs)%list /\ Forall (spares env c stored) evs.

(** [reloadApp]'s first step on the preferences: a Ready update becomes the
    current version. *)
Definition commit_ready (p : ISavedPreferences) : ISavedPreferences :=
  match availableUpdate p with
  | Some update =>
      if UpdateState_eqb (state update) Ready
      then with_availableUpdate
             (with_current p (Some (versionId update)) (Some (buildId update))) None
      else p
  | None => p
  end.

(** Whether the native store accepts the preferences [reloadApp] saves when
    it commits a Ready update; there is nothing to accept when there is
    nothing to commit. *)
Definition commit_accepted (env : Env) (w : World) : bool :=
  match availableUpdate (prefs w) with
  | Some update =>
      if UpdateState_eqb (state update) Ready
      then native_setPreferences env (trace w) (commit_ready (prefs w))
      else true
  | None => true
  end.

(** The world once [reloadApp] has committed a Ready update and handed the
    preferences to the native store. *)
Definition committed (w : World) : World :=
  match availableUpdate (prefs w) with
  | Some update =>
      if UpdateState_eqb (state update) Ready
      then logged {| prefs := commit_ready (prefs w);
                     serverBasePath := serverBasePath w;
                     trace := trace w |}
                  [Exec_setPreferences (commit_ready (prefs w))]
      else w
  | None => w
  end.

(** The current version is set, it is not the one the webview serves, and
    it is in [updates]. *)
Definition must_redirect (p : ISavedPreferences) (basePath : string) : bool :=
  match currentVersionId p with
  | Some c => JS.truthy c && negb (JS.includes basePath c) && Obj.has (updates p) c
  | None => false
  end.

Definition is_redirect (e : Event) : Prop :=
  match e with WebView_setServerBasePath _ => True | _ => False end.

(** The webview has not been sent anywhere. *)
Definition no_redirect (w w' : World) : Prop :=
  serverBasePath w' = serverBasePath w
  /\ exists evs, trace w' = (trace w ++ evs)%list
                 /\ Forall (fun e => ~ is_redirect e) evs.

(** [availableUpdate] is as it was. *)
Definition same_pending (w w' : World) : Prop :=
  availableUpdate (prefs w') = availableUpdate (prefs w).

(** Either a computation returns true, or it has not redirected the
    webview. *)
Definition true_or_quiet (m : M bool) : Prop :=
  forall w, fst (m w) = Returned true \/ no_redirect w (snd (m w)).

(** [updates] is keyed by version id. *)
Definition keyed_by_versionId (o : Obj.t IAvailableUpdate) : Prop :=
  forallb (fun kv => String.eqb (fst kv) (versionId (snd kv))) o = true.

(* ================================================================= *)
(** ** Further notions *)

(** A path segment with no slash at either end. *)
Definition bare_segment (s : string) : bool :=
  JS.truthy s
  && negb (String.eqb (JS.slice_0_1 s) "/")
  && negb (String.eqb (JS.slice_last s) "/").

(** The value of a lower-case hexadecimal digit. *)
Definition hex_value (c : ascii) : option nat :=
  let n := nat_of_ascii c in
  if (48 <=? n)%nat && (n <=? 57)%nat then Some (n - 48)%nat
  else if (97 <=? n)%nat && (n <=? 102)%nat then Some (n - 87)%nat
  else None.

(** Reading one character back from the body of a JSON string. *)
Definition unescape_char (s : string) : option (ascii * string) :=
  match s with
  | EmptyString => None
  | String c r =>
      if (nat_of_ascii c =? 92)%nat then
        match r with
        | EmptyString => None
        | String e r' =>
            let n := nat_of_ascii e in
            if (n =? 34)%nat then Some (ascii_of_nat 34, r')
            else if (n =? 92)%nat then Some (ascii_of_nat 92, r')
            else if (n =? 98)%nat then Some (ascii_of_nat 8, r')
            else if (n =? 102)%nat then Some (ascii_of_nat 12, r')
            else if (n =? 110)%nat then Some (ascii_of_nat 10, r')
            else if (n =? 114)%nat then Some (ascii_of_nat 13, r')
            else if (n =? 116)%nat then Some (ascii_of_nat 9, r')
            else if (n =? 117)%nat then
              match r' with
              | String _ (String _ (String h (String l r''))) =>
                  match hex_value h, hex_value l with
                  | Some a, Some b => Some (ascii_of_nat (16 * a + b), r'')
                  | _, _ => None
                  end
              | _ => None
              end
            else None
        end
      else Some (c, r)
  end.

(** The href is among the files found on disk. *)
Definition on_disk (files : list string) (e : ManifestFileEntry) : bool :=
  existsb (String.eqb (href e)) files.

(** A name without a dot is walked as a directory of its own, whether it
    is one or not. *)
Definition walked_as_folder (name : string) : bool := negb (JS.includes name ".").

(** The transfers handed to the native side, in order: URL and target. *)
Fixpoint transfers (evs : list Event) : list (string * string) :=
  match evs with
  | [] => []
  | Exec_downloadFile file_url target :: r => (file_url, target) :: transfers r
  | _ :: r => transfers r
  end.

(** The byte counts handed to the progress callback, in order. *)
Fixpoint progress_reports (evs : list Event) : list Z :=
  match evs with
  | [] => []
  | Progress downloaded _ :: r => downloaded :: progress_reports r
  | _ :: r => progress_reports r
  end.

(** The calls made, progress reports left out. *)
Definition without_progress (evs : list Event) : list Event :=
  filter (fun e => match e with Progress _ _ => false | _ => true end) evs.

(** [d + s1], [d + s1 + s2], ... *)
Fixpoint running_totals (d : Z) (sizes : list Z) : list Z :=
  match sizes with
  | [] => []
  | s :: r => (d + s)%Z :: running_totals (d + s)%Z r
  end.

(** The entry's [href] can be resolved against the base URL. *)
Definition resolved (env : Env) (baseUrl : string) (e : ManifestFileEntry) : Prop :=
  URL_resolve env baseUrl (href e) <> None.

(** A promise of [downloads] stands for the manifest entry it was made
    for: the transfer of that entry to its place in the snapshot directory,
    or no transfer when its URL could not be built. *)
Definition promise_of (env : Env) (baseUrl versionId : string)
           (p : Download) (e : ManifestFileEntry) : Prop :=
  match p with
  | In_flight file file_url target =>
      file = e
      /\ URL_resolve env baseUrl (href e) = Some file_url
      /\ target = Path.join [getSnapshotCacheDir env versionId; href e]
  | Rejected _ => URL_resolve env baseUrl (href e) = None
  end.

(** The transfer [downloadFile] starts for an entry, if any. *)
Definition transfer_of (env : Env) (baseUrl versionId : string) (e : ManifestFileEntry)
  : list (string * string) :=
  match URL_resolve env baseUrl (href e) with
  | Some file_url => [(file_url, Path.join [getSnapshotCacheDir env versionId; href e])]
  | None => []
  end.

(** The calls a download makes: fetching manifests, listing, copying and
    transferring files, awaiting batches, reporting progress. *)
Definition transfer_event (e : Event) : Prop :=
  match e with
  | Exec_copyTo _ _ _ | Exec_downloadFile _ _ | Callback_downloadFile _ _ _
  | Exec_copyFiles _ _ | Exec_getDirectoryFiles _ | Fetch_manifest _
  | Fetch_bundledManifest | Await_all _ | Sleep | Progress _ _ => True
  | _ => False
  end.

(** Nothing has happened but calls of a download: preferences and webview
    are as they were. *)
Definition only_transfers (w w' : World) : Prop :=
  prefs w' = prefs w
  /\ serverBasePath w' = serverBasePath w
  /\ exists evs, trace w' = (trace w ++ evs)%list /\ Forall transfer_event evs.

(** [updates] as a JavaScript object keeps it: one property per key, and
    every version under its own id. *)
Definition registry_ok (o : Obj.t IAvailableUpdate) : Prop :=
  keyed_by_versionId o /\ NoDup (Obj.keys o).

(** A well-formed registry stays well formed. *)
Definition keeps_registry (w w' : World) : Prop :=
  registry_ok (updates (prefs w)) -> registry_ok (updates (prefs w')).

(** The methods of the engine that act on the world. *)
Inductive Method :=
| Method_checkForUpdate
| Method_downloadUpdate (depth : nat) (progress : bool)
| Method_extractUpdate (progress : bool)
| Method_reloadApp
| Method_deleteVersionById (versionId : string)
| Method_sync (depth : nat) (updateMethod : option UpdateMethod) (progress : bool)
| Method_handleInitialPreferenceState (depth : nat).

(** The world a method leaves, whether its promise is fulfilled or not,
    and, for the start-up, once the call it does not await has run. *)
Definition invoke (env : Env) (m : Method) (w : World) : World :=
  match m with
  | Method_checkForUpdate => snd (checkForUpdate env w)
  | Method_downloadUpdate depth progress => snd (downloadUpdate env depth progress w)
  | Method_extractUpdate progress => snd (extractUpdate env progress w)
  | Method_reloadApp => snd (reloadApp env w)
  | Method_deleteVersionById v => snd (deleteVersionById env v w)
  | Method_sync depth updateMethod progress => snd (sync env depth updateMethod progress w)
  | Method_handleInitialPreferenceState depth =>
      left_to_itself (_handleInitialPreferenceState env depth w)
  end.

(** What [cleanupStaleVersions] keeps: an update built for the binary that
    runs, or the update the webview serves. *)
Definition fresh_or_served (p : ISavedPreferences) (basePath : string)
           (u : IAvailableUpdate) : bool :=
  isUpdateForCurrentBinary p u || JS.includes basePath (versionId u).

(** The current version, if there still is one, is the one there was, and
    it is registered as it was. *)
Definition current_intact (w w' : World) : Prop :=
  forall c, currentVersionId (prefs w') = Some c ->
            currentVersionId (prefs w) = Some c
            /\ Obj.get (updates (prefs w')) c = Obj.get (updates (prefs w)) c.

(** The calls of a check, a download and an extraction: nothing is removed,
    no signal is fired and the webview is not touched. *)
Definition background_event (e : Event) : Prop :=
  match e with
  | Exec_remove _ | OnIonicProReady_fire | WebView_persistServerBasePath
  | WebView_setServerBasePath _ | Console_error_missing _ => False
  | _ => True
  end.

(** The work was done in the background: the webview and the current
    version are as they were. *)
Definition in_background (w w' : World) : Prop :=
  serverBasePath w' = serverBasePath w
  /\ currentVersionId (prefs w') = currentVersionId (prefs w)
  /\ currentBuildId (prefs w') = currentBuildId (prefs w)
  /\ prefs_channel (prefs w') = prefs_channel (prefs w)
  /\ prefs_binaryVersionName (prefs w') = prefs_binaryVersionName (prefs w)
  /\ prefs_binaryVersionCode (prefs w') = prefs_binaryVersionCode (prefs w)
  /\ exists evs, trace w' = (trace w ++ evs)%list /\ Forall background_event evs.

(** The descriptor [sync] returns, built from the preferences. *)
Definition describes (p : ISavedPreferences) (info : option ISnapshotInfo) : Prop :=
  match info with
  | Some i =>
      currentVersionId p = Some (info_versionId i)
      /\ currentBuildId p = Some (info_buildId i)
      /\ deploy_uuid i = info_versionId i
      /\ info_channel i = prefs_channel p
      /\ info_binaryVersionName i = prefs_binaryVersionName p
      /\ info_binaryVersionCode i = prefs_binaryVersionCode p
  | None =>
      JS.truthy_opt (currentVersionId p) && JS.truthy_opt (currentBuildId p) = false
  end.

(** A call that does not leave the device. *)
Definition local_event (e : Event) : Prop :=
  match e with
  | Fetch_check _ _ _ | Fetch_manifest _ | Fetch_bundledManifest
  | Exec_downloadFile _ _ | Callback_downloadFile _ _ _ => False
  | _ => True
  end.

(** Nothing was asked of the network. *)
Definition stays_local (w w' : World) : Prop :=
  exists evs, trace w' = (trace w ++ evs)%list /\ Forall local_event evs.

(** The trace has only grown. *)
Definition extends (w w' : World) : Prop :=
  exists evs, trace w' = (trace w ++ evs)%list.

(** [reloadApp] has something to wait for before it can tell the
    application to start: the save of a Ready update it commits, or the
    answer of the webview about the version it is to serve. *)
Definition reloadApp_waits (p : ISavedPreferences) : bool :=
  match availableUpdate p with
  | Some update =>
      if UpdateState_eqb (state update) Ready then true
      else JS.truthy_opt (currentVersionId p)
  | None => JS.truthy_opt (currentVersionId p)
  end.

(** The start-up calls [reloadApp] without awaiting it: when the device is
    offline, and with the update method [none]. *)
Definition reload_not_awaited (env : Env) (w : World) : bool :=
  negb (navigator_onLine env (trace w))
  || match updateMethod (prefs w) with NONE => true | _ => false end.

(** The application is told it may start, or the webview is sent to a
    snapshot. *)
Definition ready_or_redirect (e : Event) : Prop :=
  match e with
  | OnIonicProReady_fire | WebView_setServerBasePath _ => True
  | _ => False
  end.

(* ================================================================= *)
(** ** Concrete collaborators, for running the engine *)

Module Sample.

(** Collaborators for a run: every directory is empty and manifests are
    empty; of the transfers in flight the one started last is the first to
    be reported done; [saves] tells whether the native store accepts the
    preferences, [offer] is the snapshot the update service offers, if
    any. *)
Definition collaborators (saves : bool) (offer : option string) : Env :=
  {| dataDirectory := "file:///data/";
     Capacitor_defined := false;
     URL_pathname := fun s => substring 7 (String.length s - 7) s;
     URL_resolve := fun base h => Some (base ++ h);
     navigator_onLine := fun _ => true;
     Date_toISOString := fun _ => "2020-01-05T00:00:00.000Z";
     native_setPreferences := fun _ _ => saves;
     native_copyTo := fun _ _ _ => true;
     native_remove := fun _ _ => true;
     native_downloadFile := fun _ flying => Some ((List.length flying - 1)%nat, true);
     native_copyFiles := fun _ _ _ => true;
     native_getDirectoryFiles := fun _ _ => Some [];
     fetch_check := fun _ _ =>
       Some (200%Z,
             Some (Some match offer with
                        | Some v =>
                            {| available := true; compatible := true; partial := false;
                               resp_url := Some ("https://api/snapshots/" ++ v ++ "/manifest.json");
                               snapshot := Some v; build := Some ("b-" ++ v) |}
                        | None =>
                            {| available := false; compatible := false; partial := false;
                               resp_url := None; snapshot := None; build := None |}
                        end));
     fetch_manifest := fun _ _ => Some {| fileBaseUrl := "https://cdn/"; manifestJson := [] |};
     fetch_bundledManifest := fun _ => Some [] |}.

(** Collaborators that always succeed, with nothing new on offer. *)
Definition env : Env := collaborators true None.

Definition update (v lastUsed : string) (s : UpdateState) : IAvailableUpdate :=
  {| binaryVersionCode := "1"; binaryVersionName := "1.0"; channel := "Production";
     state := s; lastUsed := lastUsed;
     url := "https://api/snapshots/" ++ v ++ "/manifest.json";
     versionId := v; buildId := "b-" ++ v |}.

(** An installed update built for the binary version [binary]. *)
Definition update_for (binary v : string) : IAvailableUpdate :=
  {| binaryVersionCode := "1"; binaryVersionName := binary; channel := "Production";
     state := Ready; lastUsed := "2019-12-31T00:00:00.000Z";
     url := "https://api/snapshots/" ++ v ++ "/manifest.json";
     versionId := v; buildId := "b-" ++ v |}.

Definition preferences (current : option string)
           (installed : list IAvailableUpdate)
           (pending : option IAvailableUpdate) : ISavedPreferences :=
  {| appId := "app"; prefs_channel := "Production"; host := "https://api";
     prefs_binaryVersionName := "1.0"; prefs_binaryVersionCode := "1";
     currentVersionId := current; currentBuildId := None;
     updateMethod := BACKGROUND; maxVersions := 2%Z;
     minBackgroundDuration := 30%Z; disabled := false;
     updates := map (fun u => (versionId u, u)) installed;
     availableUpdate := pending |}.

Definition world (p : ISavedPreferences) (basePath : string) : World :=
  {| prefs := p; serverBasePath := basePath; trace := [] |}.

Definition index_html : ManifestFileEntry := JSON.entry "index.html" 10.

End Sample.

(* ================================================================= *)
(** ** More concrete collaborators *)

Module Scenario.

(** The collaborators [e] over another file system. *)
Definition with_listing (e : Env)
           (listing : list Event -> string -> option (list string)) : Env :=
  {| dataDirectory := dataDirectory e;
     Capacitor_defined := Capacitor_defined e;
     URL_pathname := URL_pathname e;
     URL_resolve := URL_resolve e;
     navigator_onLine := navigator_onLine e;
     Date_toISOString := Date_toISOString e;
     native_setPreferences := native_setPreferences e;
     native_copyTo := native_copyTo e;
     native_remove := native_remove e;
     native_downloadFile := native_downloadFile e;
     native_copyFiles := native_copyFiles e;
     native_getDirectoryFiles := listing;
     fetch_check := fetch_check e;
     fetch_manifest := fetch_manifest e;
     fetch_bundledManifest := fetch_bundledManifest e |}.

(** The collaborators [e] on a device that is offline. *)
Definition offline (e : Env) : Env :=
  {| dataDirectory := dataDirectory e;
     Capacitor_defined := Capacitor_defined e;
     URL_pathname := URL_pathname e;
     URL_resolve := URL_resolve e;
     navigator_onLine := fun _ => false;
     Date_toISOString := Date_toISOString e;
     native_setPreferences := native_setPreferences e;
     native_copyTo := native_copyTo e;
     native_remove := native_remove e;
     native_downloadFile := native_downloadFile e;
     native_copyFiles := native_copyFiles e;
     native_getDirectoryFiles := native_getDirectoryFiles e;
     fetch_check := fetch_check e;
     fetch_manifest := fetch_manifest e;
     fetch_bundledManifest := fetch_bundledManifest e |}.

(** The entry parsed from an object with the same two properties, [size]
    first. *)
Definition size_first (h : string) (n : Z) : ManifestFileEntry :=
  {| href := h;
     size := n;
     json := "{" ++ JSON.quote "size" ++ ":" ++ JSON.number n ++ ","
                 ++ JSON.quote "href" ++ ":" ++ JSON.quote h ++ "}" |}.

(** A snapshot directory that holds a file and a folder with one file. *)
Definition tree : Env :=
  with_listing Sample.env
    (fun _ path =>
       if String.eqb path "/snap" then Some ["index.html"; "assets"]
       else if String.eqb path "/snap/assets" then Some ["app.js"]
       else None).

End Scenario.

(* ================================================================= *)
(** ** Reasoning about computations *)

Local Open Scope js_scope.

Arguments bind {A B} m k w : simpl never.
Arguments try_catch {A} m h w : simpl never.
Arguments ret {A} a w : simpl never.
Arguments throw {A} e w : simpl never.
Arguments call {X} e answer w : simpl never.
Arguments ask {X} answer w : simpl never.
Arguments emit e w : simpl never.
Arguments get_prefs w : simpl never.
Arguments modify_prefs f w : simpl never.
Arguments logged w evs : simpl never.

(** *** Running a computation one construct at a time *)

Lemma bind_returned {A B} (m : M A) (k : A -> M B) w a w' :
  m w = (Returned a, w') -> bind m k w = k a w'.
Proof. intros H. unfold bind. now rewrite H. Qed.

Lemma bind_thrown {A B} (m : M A) (k : A -> M B) w e w' :
  m w = (Thrown e, w') -> bind m k w = (Thrown e, w').
Proof. intros H. unfold bind. now rewrite H. Qed.

Lemma bind_unfinished {A B} (m : M A) (k : A -> M B) w w' :
  m w = (Unfinished, w') -> bind m k w = (Unfinished, w').
Proof. intros H. unfold bind. now rewrite H. Qed.

Lemma bind_bind {A B C} (m : M A) (k : A -> M B) (k' : B -> M C) w :
  bind (bind m k) k' w = bind m (fun a => bind (k a) k') w.
Proof. unfold bind. destruct (m w) as [[a | e |] w1]; reflexivity. Qed.

Lemma bind_ret {A B} (a : A) (k : A -> M B) w : bind (ret a) k w = k a w.
Proof. reflexivity. Qed.

Lemma bind_throw {A B} e (k : A -> M B) w : bind (throw e) k w = (Thrown e, w).
Proof. reflexivity. Qed.

Lemma bind_call {X B} e (f : list Event -> X) (k : X -> M B) w :
  bind (call e f) k w = k (f (trace w)) (logged w [e]).
Proof. reflexivity. Qed.

Lemma bind_ask {X B} (f : list Event -> X) (k : X -> M B) w :
  bind (ask f) k w = k (f (trace w)) w.
Proof. reflexivity. Qed.

Lemma bind_emit {B} e (k : unit -> M B) w : bind (emit e) k w = k tt (logged w [e]).
Proof. reflexivity. Qed.

Lemma bind_get_prefs {B} (k : ISavedPreferences -> M B) w :
  bind get_prefs k w = k (prefs w) w.
Proof. reflexivity. Qed.

Lemma bind_modify_prefs {B} f (k : unit -> M B) w :
  bind (modify_prefs f) k w
  = k tt {| prefs := f (prefs w); serverBasePath := serverBasePath w; trace := trace w |}.
Proof. reflexivity. Qed.

Lemma try_catch_returned {A} (m : M A) h w a w' :
  m w = (Returned a, w') -> try_catch m h w = (Returned a, w').
Proof. intros H. unfold try_catch. now rewrite H. Qed.

Lemma try_catch_thrown {A} (m : M A) h w e w' :
  m w = (Thrown e, w') -> try_catch m h w = h e w'.
Proof. intros H. unfold try_catch. now rewrite H. Qed.

Lemma try_catch_unfinished {A} (m : M A) h w w' :
  m w = (Unfinished, w') -> try_catch m h w = (Unfinished, w').
Proof. intros H. unfold try_catch. now rewrite H. Qed.

Lemma logged_logged w a b : logged (logged w a) b = logged w (a ++ b)%list.
Proof. unfold logged. simpl. now rewrite app_assoc. Qed.

Lemma trace_logged w evs : trace (logged w evs) = (trace w ++ evs)%list.
Proof. reflexivity. Qed.

Lemma prefs_logged w evs : prefs (logged w evs) = prefs w.
Proof. reflexivity. Qed.

Lemma serverBasePath_logged w evs : serverBasePath (logged w evs) = serverBasePath w.
Proof. reflexivity. Qed.

Create Rewrite HintDb run.
#[local] Hint Rewrite @bind_bind @bind_ret @bind_throw @bind_call @bind_ask
  @bind_emit @bind_get_prefs @bind_modify_prefs
  logged_logged trace_logged prefs_logged serverBasePath_logged : run.

Section Preserves.

Variable R : World -> World -> Prop.
Hypothesis R_refl : forall w, R w w.
Hypothesis R_trans : forall a b c, R a b -> R b c -> R a c.

Lemma preserves_ret {A} (a : A) : preserves R (ret a).
Proof. intros w. apply R_refl. Qed.

Lemma preserves_throw {A} e : preserves R (@throw A e).
Proof. intros w. apply R_refl. Qed.

Lemma preserves_unfinished {A} : preserves R (@unfinished A).
Proof. intros w. apply R_refl. Qed.

Lemma preserves_get_prefs : preserves R get_prefs.
Proof. intros w. apply R_refl. Qed.

Lemma preserves_ask {X} (f : list Event -> X) : preserves R (ask f).
Proof. intros w. apply R_refl. Qed.

Lemma preserves_bind {A B} (m : M A) (k : A -> M B) :
  preserves R m -> (forall a, preserves R (k a)) -> preserves R (bind m k).
Proof.
  intros Hm Hk w. unfold bind. specialize (Hm w).
  destruct (m w) as [[a | e |] w1]; simpl in *; auto.
  eapply R_trans; [exact Hm | apply Hk].
Qed.

Lemma preserves_try_catch {A} (m : M A) (h : string -> M A) :
  preserves R m -> (forall e, preserves R (h e)) -> preserves R (try_catch m h).
Proof.
  intros Hm Hh w. unfold try_catch. specialize (Hm w).
  destruct (m w) as [[a | e |] w1]; simpl in *; auto.
  eapply R_trans; [exact Hm | apply Hh].
Qed.

Lemma preserves_forM_ {A} (l : list A) (f : A -> M unit) :
  (forall a, preserves R (f a)) -> preserves R (forM_ l f).
Proof.
  intros Hf. induction l as [| x l IH]; simpl.
  - apply preserves_ret.
  - apply preserves_bind; auto.
Qed.

Lemma leaves_ret {A} (rest : M A) : preserves R rest -> leaves R (ret rest).
Proof.
  intros H w. split; [apply R_refl |]. intros r E. now injection E as <-.
Qed.

Lemma leaves_bind {A B} (m : M A) (k : A -> M (M B)) :
  preserves R m -> (forall a, leaves R (k a)) -> leaves R (bind m k).
Proof.
  intros Hm Hk w. unfold bind. specialize (Hm w).
  destruct (m w) as [[a | e |] w1]; cbn [fst snd] in *.
  - destruct (Hk a w1) as [H1 H2]. split; [eapply R_trans; eauto | exact H2].
  - split; [exact Hm | discriminate].
  - split; [exact Hm | discriminate].
Qed.

Lemma leaves_begun {A B} (m : M (M A)) (k : M A -> M (M B)) :
  leaves R m -> (forall rest, preserves R rest -> leaves R (k rest)) ->
  leaves R (bind m k).
Proof.
  intros Hm Hk w. unfold bind. destruct (Hm w) as [H1 H2].
  destruct (m w) as [[rest | e |] w1]; cbn [fst snd] in *.
  - destruct (Hk rest (H2 rest eq_refl) w1) as [H3 H4].
    split; [eapply R_trans; eauto | exact H4].
  - split; [exact H1 | discriminate].
  - split; [exact H1 | discriminate].
Qed.

Lemma leaves_awaited {A} (m : M (M A)) :
  leaves R m -> preserves R (rest <- m ;; rest).
Proof.
  intros Hm w. unfold bind. destruct (Hm w) as [H1 H2].
  destruct (m w) as [[rest | e |] w1]; cbn [fst snd] in *; auto.
  eapply R_trans; [exact H1 | apply (H2 rest eq_refl)].
Qed.

Lemma leaves_left_to_itself (m : M (M unit)) w :
  leaves R m -> R w (left_to_itself (m w)).
Proof.
  intros Hm. unfold left_to_itself. destruct (Hm w) as [H1 H2].
  destruct (fst (m w)) as [rest | e |]; auto.
  eapply R_trans; [exact H1 | apply (H2 rest eq_refl)].
Qed.

End Preserves.

(** One step of a proof that a computation preserves a relation: split the
    computation at its outermost construct. *)
Ltac preserves_step :=
  lazymatch goal with
  | |- preserves _ (bind _ _) => apply preserves_bind; [solve [eauto] | | intros]
  | |- preserves _ (try_catch _ _) =>
      apply preserves_try_catch; [solve [eauto] | | intros]
  | |- preserves _ (forM_ _ _) =>
      apply preserves_forM_; [solve [eauto] | solve [eauto] | intros]
  | |- preserves _ (ret _) => apply preserves_ret; solve [eauto]
  | |- preserves _ (throw _) => apply preserves_throw; solve [eauto]
  | |- preserves _ unfinished => apply preserves_unfinished; solve [eauto]
  | |- preserves _ get_prefs => apply preserves_get_prefs; solve [eauto]
  | |- preserves _ (ask _) => apply preserves_ask; solve [eauto]
  | |- preserves _ (match ?x with _ => _ end) => destruct x
  | |- preserves _ (let _ := _ in _) => cbv zeta
  end.

(** Split as far as possible, closing the leaves with the hints at hand. *)
Ltac preserves_auto :=
  repeat (first [ solve [eauto] | progress preserves_step ]).

(** The same for a method split at its first [await]. *)
Ltac leaves_step :=
  lazymatch goal with
  | |- leaves _ (bind _ _) =>
      first [ apply leaves_begun; [solve [eauto] | solve [eauto] | intros]
            | apply leaves_bind; [solve [eauto] | | intros] ]
  | |- leaves _ (ret _) => apply leaves_ret; [solve [eauto] |]
  | |- leaves _ (match ?x with _ => _ end) => destruct x
  | |- leaves _ (let _ := _ in _) => cbv zeta
  | |- preserves _ (bind _ (fun rest => rest)) =>
      apply leaves_awaited; [solve [eauto] |]
  end.

Ltac leaves_auto :=
  repeat (first [ solve [eauto] | progress leaves_step | progress preserves_step ]).

Lemma same_heap_refl w : same_heap w w.
Proof. split; reflexivity. Qed.

Lemma same_heap_trans a b c : same_heap a b -> same_heap b c -> same_heap a c.
Proof. unfold same_heap. intros [? ?] [? ?]. split; congruence. Qed.

#[local] Hint Resolve same_heap_refl same_heap_trans : core.

Lemma same_heap_emit e : preserves same_heap (emit e).
Proof. intros w. split; reflexivity. Qed.

Lemma same_heap_call {X} e (f : list Event -> X) : preserves same_heap (call e f).
Proof. intros w. split; reflexivity. Qed.

Lemma same_heap_report b d t : preserves same_heap (report b d t).
Proof. destruct b; simpl; [apply same_heap_emit | apply preserves_ret; auto]. Qed.

#[local] Hint Resolve same_heap_emit same_heap_call same_heap_report : core.

(* ================================================================= *)
(** ** The manifest diff *)

Section Diff.

Variable env : Env.

Lemma indexOf_from_In arr x i :
  In x arr -> (i <= JS.indexOf_from i arr x)%Z.
Proof.
  revert i. induction arr as [| y r IH]; intros i Hin; simpl.
  - destruct Hin.
  - destruct (String.eqb_spec y x) as [-> | Hne].
    + lia.
    + destruct Hin as [-> | Hin]; [congruence |].
      specialize (IH (i + 1)%Z Hin). lia.
Qed.

Lemma filter_all {A} (f : A -> bool) l :
  (forall x, In x l -> f x = true) -> filter f l = l.
Proof.
  induction l as [| a l IH]; intros H; simpl; [reflexivity |].
  rewrite (H a (or_introl eq_refl)). f_equal. apply IH. intros; apply H; now right.
Qed.

Lemma filter_none {A} (f : A -> bool) l :
  (forall x, In x l -> f x = false) -> filter f l = [].
Proof.
  induction l as [| a l IH]; intros H; simpl; [reflexivity |].
  rewrite (H a (or_introl eq_refl)). apply IH. intros; apply H; now right.
Qed.

(** With nothing on disk, reconciling keeps every row and counts nothing. *)
Lemma reconcile_empty_disk progress total rows downloaded w :
  reconcile progress total [] rows downloaded w = (Returned (rows, downloaded), w).
Proof.
  revert downloaded w. induction rows as [| r rows IH]; intros d w; simpl.
  - reflexivity.
  - autorewrite with run. erewrite bind_returned by apply IH. reflexivity.
Qed.

(** The directory walk of an empty directory. *)
Lemma _recursiveFilesInPath_empty depth filePath w :
  native_getDirectoryFiles env (trace w) filePath = Some [] ->
  _recursiveFilesInPath env (S depth) filePath "" "" w
  = (Returned [], logged w [Exec_getDirectoryFiles filePath]).
Proof.
  intros H. simpl. unfold FileManager_getDirectoryFiles.
  autorewrite with run. rewrite H. reflexivity.
Qed.

Lemma diff_of_itself_empty (M : list ManifestFileEntry) :
  filter (fun entry =>
            (JS.indexOf (map JSON.stringify M) (JSON.stringify entry) =? -1)%Z) M = [].
Proof.
  apply filter_none. intros x Hx.
  pose proof (indexOf_from_In (map JSON.stringify M) (JSON.stringify x) 0
                (in_map JSON.stringify M x Hx)) as H.
  unfold JS.indexOf. apply Z.eqb_neq. lia.
Qed.

Lemma same_of_itself_all (M : list ManifestFileEntry) :
  filter (fun entry =>
            (JS.indexOf (map JSON.stringify M) (JSON.stringify entry) >? -1)%Z) M = M.
Proof.
  apply filter_all. intros x Hx.
  pose proof (indexOf_from_In (map JSON.stringify M) (JSON.stringify x) 0
                (in_map JSON.stringify M x Hx)) as H.
  unfold JS.indexOf. apply Z.gtb_lt. lia.
Qed.

(** C1 (as the code has it): diffing a manifest against itself over an
    empty snapshot directory, once the bundled manifest has been fetched
    (it is fetched even though a baseline is supplied), returns nothing to
    download, the whole manifest as satisfied by the baseline, and zero
    bytes already on disk, whatever the size argument and whether or not
    progress is reported. *)
Theorem diff_same_manifest_empty_dir
        depth (M : list ManifestFileEntry) filePath total progress w bundled :
  fetch_bundledManifest env (trace w) = Some bundled ->
  native_getDirectoryFiles env (trace w ++ [Fetch_bundledManifest])%list filePath = Some [] ->
  fst (_diffManifests env (S depth) M (Some M) filePath total progress w)
  = Returned {| diffManifest := []; sameManifest := M; downloaded := 0%Z |}.
Proof.
  intros Hfetch Hdir.
  unfold _diffManifests, _diffManifests_try.
  erewrite try_catch_returned; [reflexivity |].
  autorewrite with run. rewrite Hfetch. autorewrite with run.
  rewrite (bind_returned _ _ _ _ _
             (_recursiveFilesInPath_empty depth filePath (logged w [Fetch_bundledManifest]) Hdir)).
  cbv beta.
  rewrite diff_of_itself_empty, same_of_itself_all.
  erewrite bind_returned by apply reconcile_empty_disk. cbv beta iota.
  erewrite bind_returned by apply reconcile_empty_disk.
  reflexivity.
Qed.


Lemma filter_false {A} (l : list A) : filter (fun _ => false) l = [].
Proof. induction l; simpl; auto. Qed.

(** C5: whatever goes wrong while the baseline is established or the
    manifests are diffed (the fetch of the bundled manifest fails, a
    directory listing is rejected), [_diffManifests] does not reject: it
    returns with the whole new manifest to download, nothing satisfied by
    the baseline and zero bytes counted. *)
Theorem _diffManifests_never_blocks
        depth newManifest oldManifest filePath total progress w :
  (forall e,
      fst (_diffManifests env depth newManifest oldManifest filePath total progress w)
      <> Thrown e)
  /\ (forall e w',
        _diffManifests_try env depth newManifest oldManifest filePath total progress w
        = (Thrown e, w') ->
        _diffManifests env depth newManifest oldManifest filePath total progress w
        = (Returned (full_download newManifest), w'))
  /\ (fetch_bundledManifest env (trace w) = None ->
        fst (_diffManifests env depth newManifest oldManifest filePath total progress w)
        = Returned (full_download newManifest))
  /\ (forall bundled,
        fetch_bundledManifest env (trace w) = Some bundled ->
        native_getDirectoryFiles env (trace w ++ [Fetch_bundledManifest])%list filePath
        = None ->
        depth <> 0 ->
        fst (_diffManifests env depth newManifest oldManifest filePath total progress w)
        = Returned (full_download newManifest)).
Proof.
  assert (Hcatch : forall e w',
    _diffManifests_try env depth newManifest oldManifest filePath total progress w
    = (Thrown e, w') ->
    _diffManifests env depth newManifest oldManifest filePath total progress w
    = (Returned (full_download newManifest), w')).
  { intros e w' H. unfold _diffManifests.
    rewrite (try_catch_thrown _ _ _ _ _ H).
    unfold full_download. now rewrite filter_false. }
  repeat split.
  - intros e. unfold _diffManifests, try_catch.
    destruct (_diffManifests_try env depth newManifest oldManifest filePath total progress w)
      as [[r | e' |] w1]; simpl; discriminate.
  - exact Hcatch.
  - intros Hfetch. erewrite Hcatch; [reflexivity |].
    unfold _diffManifests_try. autorewrite with run. rewrite Hfetch.
    autorewrite with run. reflexivity.
  - intros bundled Hfetch Hdir Hdepth.
    destruct depth as [| depth]; [congruence |].
    erewrite Hcatch; [reflexivity |].
    unfold _diffManifests_try. autorewrite with run. rewrite Hfetch.
    autorewrite with run. simpl. unfold FileManager_getDirectoryFiles.
    autorewrite with run. rewrite Hdir. autorewrite with run. reflexivity.
Qed.

End Diff.

(** A run of C1's theorem on a one-file manifest. *)
Lemma diff_same_manifest_empty_dir_witness :
  fst (_diffManifests Sample.env 1 [Sample.index_html] (Some [Sample.index_html])
         "/data/ionic_built_snapshots/v2" 10 true
         (Sample.world (Sample.preferences None [] None) "/www"))
  = Returned {| diffManifest := []; sameManifest := [Sample.index_html]; downloaded := 0%Z |}.
Proof.
  apply (diff_same_manifest_empty_dir Sample.env 0 [Sample.index_html]
           "/data/ionic_built_snapshots/v2" 10 true
           (Sample.world (Sample.preferences None [] None) "/www") []);
    reflexivity.
Defined.

(** C1 as stated fails: for the manifest of one file of 10 bytes diffed
    against itself over an empty directory, the bytes reported as already
    satisfied are 0, not the 10 bytes of the manifest. *)
Lemma diff_same_manifest_bytes_counterexample :
  let M := [Sample.index_html] in
  let r := fst (_diffManifests Sample.env 1 M (Some M)
                  "/data/ionic_built_snapshots/v2" 10 false
                  (Sample.world (Sample.preferences None [] None) "/www")) in
  total_size M = 10%Z
  /\ r = Returned {| diffManifest := []; sameManifest := M; downloaded := 0%Z |}
  /\ r <> Returned {| diffManifest := []; sameManifest := M; downloaded := total_size M |}.
Proof. vm_compute. repeat split; discriminate. Qed.

(* ================================================================= *)
(** ** downloadUpdate out of sequence *)

(** C8: when there is no [availableUpdate], or it is not in state
    [Available], [downloadUpdate] returns false and leaves the world as it
    was: no call is made to the network or the file manager, and the
    preferences, with the state of [availableUpdate], are unchanged. *)
Theorem downloadUpdate_out_of_sequence env depth progress w :
  match availableUpdate (prefs w) with
  | None => True
  | Some u => state u <> Available
  end ->
  downloadUpdate env depth progress w = (Returned false, w).
Proof.
  intros H. unfold downloadUpdate. autorewrite with run.
  destruct (availableUpdate (prefs w)) as [u |]; [| reflexivity].
  destruct (state u); simpl; try reflexivity. congruence.
Qed.

Lemma downloadUpdate_out_of_sequence_witness :
  let w := Sample.world
             (Sample.preferences None [] (Some (Sample.update "v2" "2020-01-01" Pending)))
             "/www" in
  downloadUpdate Sample.env 1 true w = (Returned false, w).
Proof.
  apply (downloadUpdate_out_of_sequence Sample.env 1 true). simpl. discriminate.
Defined.

(* ================================================================= *)
(** ** The download scheduler *)

Lemma bind_returned_inv {A B} (m : M A) (k : A -> M B) w b w' :
  bind m k w = (Returned b, w') ->
  exists a w1, m w = (Returned a, w1) /\ k a w1 = (Returned b, w').
Proof.
  unfold bind. destruct (m w) as [[a | e |] w1]; intros H; try discriminate.
  now exists a, w1.
Qed.

Lemma returned_inj {A} (a b : A) (w w' : World) :
  (Returned a, w) = (Returned b, w') -> a = b /\ w = w'.
Proof. intros H. injection H as -> ->. now split. Qed.

Lemma logged_nil w : logged w [] = w.
Proof. unfold logged. rewrite app_nil_r. now destruct w. Qed.

Lemma batches_awaited_app a b :
  batches_awaited (a ++ b) = (batches_awaited a ++ batches_awaited b)%list.
Proof.
  induction a as [| e a IH]; simpl; [reflexivity |].
  destruct e; simpl; now rewrite ?IH.
Qed.

Lemma transfers_app a b : transfers (a ++ b) = (transfers a ++ transfers b)%list.
Proof.
  induction a as [| e a IH]; [reflexivity |].
  rewrite <- app_comm_cons. destruct e; cbn [transfers]; rewrite ?IH; reflexivity.
Qed.

Lemma reported_app a b : reported (a ++ b) = (reported a ++ reported b)%list.
Proof.
  induction a as [| e a IH]; [reflexivity |].
  rewrite <- app_comm_cons. destruct e; cbn [reported]; rewrite ?IH; reflexivity.
Qed.

Lemma progress_reports_app a b :
  progress_reports (a ++ b) = (progress_reports a ++ progress_reports b)%list.
Proof.
  induction a as [| e a IH]; [reflexivity |].
  rewrite <- app_comm_cons. destruct e; cbn [progress_reports]; rewrite ?IH; reflexivity.
Qed.

Lemma running_totals_app d a b :
  running_totals d (a ++ b)
  = (running_totals d a ++ running_totals (fold_left Z.add a d) b)%list.
Proof.
  revert d. induction a as [| s a IH]; intros d; [reflexivity |].
  cbn [app running_totals fold_left]. now rewrite IH.
Qed.

Lemma total_size_app (a b : list ManifestFileEntry) :
  total_size (a ++ b)%list = (total_size a + total_size b)%Z.
Proof.
  induction a as [| e a IH]; [reflexivity |].
  change (total_size ((e :: a) ++ b)%list) with (size e + total_size (a ++ b)%list)%Z.
  change (total_size (e :: a)) with (size e + total_size a)%Z. lia.
Qed.

Lemma fold_left_add_sizes (l : list ManifestFileEntry) d :
  fold_left Z.add (map size l) d = (d + total_size l)%Z.
Proof.
  revert d. induction l as [| e l IH]; intros d; cbn [map fold_left].
  - cbn. lia.
  - rewrite IH. change (total_size (e :: l)) with (size e + total_size l)%Z. lia.
Qed.

Lemma scan_app width x y : forall a fl,
  scan width a fl (x ++ y) = match scan width a fl x with
                             | Some (a', fl') => scan width a' fl' y
                             | None => None
                             end.
Proof.
  induction x as [| e x IH]; intros a fl; [reflexivity |].
  rewrite <- app_comm_cons. destruct e; cbn [scan]; auto.
  - destruct a; auto. destruct (List.length fl <? width)%nat; auto.
  - destruct a; auto. destruct (land (file_url, target) fl); auto.
  - destruct a; auto. destruct (List.length fl <=? promises)%nat; auto.
Qed.

Lemma bystanders_awaited evs : Forall bystander evs -> batches_awaited evs = [].
Proof.
  induction 1 as [| e evs He _ IH]; simpl; [reflexivity |].
  destruct e; simpl in *; auto; contradiction.
Qed.

Lemma bystanders_transfers evs : Forall bystander evs -> transfers evs = [].
Proof.
  induction 1 as [| e evs He _ IH]; simpl; [reflexivity |].
  destruct e; simpl in *; auto; contradiction.
Qed.

Lemma bystanders_reported evs : Forall bystander evs -> reported evs = [].
Proof.
  induction 1 as [| e evs He _ IH]; simpl; [reflexivity |].
  destruct e; simpl in *; auto; contradiction.
Qed.

Lemma bystanders_scan width a fl evs :
  Forall bystander evs -> scan width a fl evs = Some (a, fl).
Proof.
  induction 1 as [| e evs He _ IH]; simpl; [reflexivity |].
  destruct e; simpl in *; auto; contradiction.
Qed.

(** Landing a transfer that is in flight. *)
Lemma land_In x fl :
  In x fl -> exists rest, land x fl = Some rest /\ Permutation fl (x :: rest).
Proof.
  induction fl as [| y fl IH]; intros Hin; [destruct Hin |].
  cbn [land].
  destruct (String.eqb (fst x) (fst y) && String.eqb (snd x) (snd y)) eqn:E.
  - apply andb_true_iff in E. destruct E as [E1 E2].
    apply String.eqb_eq in E1, E2.
    assert (x = y) as -> by (destruct x, y; cbn in *; congruence).
    exists fl. split; [reflexivity | apply Permutation_refl].
  - destruct Hin as [-> | Hin].
    + rewrite !String.eqb_refl in E. discriminate.
    + destruct (IH Hin) as (rest & -> & P). exists (y :: rest). split; [reflexivity |].
      eapply perm_trans; [apply perm_skip; exact P | apply perm_swap].
Qed.

Lemma remove_nth_perm {A} (l : list A) : forall i x,
  nth_error l i = Some x ->
  Permutation l (x :: remove_nth i l)
  /\ List.length l = S (List.length (remove_nth i l)).
Proof.
  induction l as [| y l IH]; intros i x H; [destruct i; discriminate |].
  destruct i as [| i]; cbn [nth_error remove_nth] in *.
  - injection H as ->. split; [apply Permutation_refl | reflexivity].
  - destruct (IH i x H) as [P L]. split.
    + eapply perm_trans; [apply perm_skip; exact P | apply perm_swap].
    + cbn [List.length]. now rewrite L.
Qed.

Lemma busy_perm fl fl' : Permutation fl fl' -> busy fl = busy fl'.
Proof.
  intros P. apply Permutation_length in P.
  destruct fl, fl'; try discriminate; reflexivity.
Qed.

Lemma in_flight_app a b : in_flight (a ++ b) = (in_flight a ++ in_flight b)%list.
Proof.
  induction a as [| p a IH]; [reflexivity |].
  rewrite <- app_comm_cons. destruct p; cbn [in_flight app]; now rewrite IH.
Qed.

Lemma in_flight_length downloads :
  (List.length (in_flight downloads) <= List.length downloads)%nat.
Proof. induction downloads as [| p ds IH]; [auto | destruct p; cbn; lia]. Qed.

(** When no promise is rejected, every promise has its transfer in
    flight. *)
Lemma none_rejected_length downloads :
  first_rejected downloads = None ->
  List.length (in_flight downloads) = List.length downloads.
Proof.
  induction downloads as [| p ds IH]; [reflexivity |].
  destruct p; cbn; [discriminate |]. intros H. now rewrite IH.
Qed.

Lemma first_rejected_app a b :
  first_rejected (a ++ b)
  = match first_rejected a with Some e => Some e | None => first_rejected b end.
Proof.
  induction a as [| p a IH]; [reflexivity |].
  rewrite <- app_comm_cons. destruct p; cbn [first_rejected]; [reflexivity | exact IH].
Qed.

Section Scheduler.

Variable env : Env.
Variables (baseUrl versionId : string) (progress : bool) (total : Z).

(** What a progress report leaves in the trace. *)
Lemma report_run d w :
  exists evs, report progress d total w = (Returned tt, logged w evs)
              /\ Forall bystander evs
              /\ progress_reports evs = if progress then [d] else [].
Proof.
  unfold report. destruct progress.
  - exists [Progress d total]. split; [reflexivity |]. split; [| reflexivity].
    repeat constructor.
  - exists []. rewrite logged_nil. split; [reflexivity |]. split; [constructor | reflexivity].
Qed.

(** One report of the native side. *)
Lemma settle_step pending flying d w :
  settle env progress total (S pending) flying d w
  = match native_downloadFile env (trace w) (map snd flying) with
    | None => (Unfinished, w)
    | Some (i, success) =>
        match nth_error flying i with
        | None => (Unfinished, w)
        | Some (file, (file_url, target)) =>
            if success
            then bind (report progress (d + size file) total)
                      (fun _ => settle env progress total pending (remove_nth i flying)
                                       (d + size file)%Z)
                      (logged w [Callback_downloadFile file_url target true])
            else (Thrown "downloadFile",
                  logged w [Callback_downloadFile file_url target false])
        end
    end.
Proof.
  cbn [settle]. rewrite bind_ask.
  destruct (native_downloadFile env (trace w) (map snd flying)) as [[i success] |];
    [| reflexivity].
  destruct (nth_error flying i) as [[file [file_url target]] |]; [| reflexivity].
  rewrite bind_emit. destruct success; reflexivity.
Qed.

(** Awaiting the transfers in flight, whatever the outcome: the native side
    reports only on transfers that are in flight; and when the await ends,
    every transfer has been reported done, once, and the bytes have been
    counted and reported in the order of the reports. *)
Lemma settle_run : forall pending flying fl d w,
  pending = List.length flying ->
  Permutation fl (map snd flying) ->
  exists evs st,
    snd (settle env progress total pending flying d w) = logged w evs
    /\ batches_awaited evs = []
    /\ transfers evs = []
    /\ scan maxBatch (busy fl) fl evs = Some st
    /\ forall d', fst (settle env progress total pending flying d w) = Returned d' ->
         st = (false, [])
         /\ exists order,
              Permutation order flying
              /\ reported evs = map done order
              /\ d' = (d + total_size (map fst order))%Z
              /\ progress_reports evs
                 = if progress then running_totals d (map size (map fst order)) else [].
Proof.
  induction pending as [| pending IH]; intros flying fl d w Hlen Hperm.
  - destruct flying; [| discriminate]. apply Permutation_sym, Permutation_nil in Hperm.
    subst fl. exists [], (false, []). cbn [settle]. unfold ret. cbn [fst snd].
    rewrite logged_nil. repeat split; auto.
    exists []. injection H as <-. repeat split; auto.
    + cbn. lia.
    + now destruct progress.
  - rewrite settle_step.
    destruct (native_downloadFile env (trace w) (map snd flying)) as [[i success] |].
    2:{ exists [], (busy fl, fl). cbn [fst snd]. rewrite logged_nil.
        repeat split; auto; discriminate. }
    destruct (nth_error flying i) as [[file [u t]] |] eqn:N.
    2:{ exists [], (busy fl, fl). cbn [fst snd]. rewrite logged_nil.
        repeat split; auto; discriminate. }
    destruct (remove_nth_perm flying i _ N) as [Pfly Lfly].
    assert (Hin : In (u, t) fl).
    { eapply Permutation_in; [apply Permutation_sym; exact Hperm |].
      apply nth_error_In in N. now apply (in_map snd) in N. }
    destruct (land_In _ _ Hin) as (rest & Hland & Prest).
    assert (Hperm' : Permutation rest (map snd (remove_nth i flying))).
    { apply (Permutation_cons_inv (a := (u, t))).
      eapply perm_trans; [apply Permutation_sym; exact Prest |].
      eapply perm_trans; [exact Hperm |].
      change ((u, t) :: map snd (remove_nth i flying))
        with (map snd ((file, (u, t)) :: remove_nth i flying)).
      now apply Permutation_map. }
    assert (Hbusy : busy fl = true) by (destruct fl; [destruct Hin | reflexivity]).
    destruct success.
    + destruct (report_run (d + size file)%Z (logged w [Callback_downloadFile u t true]))
        as (evs1 & Hrep & B1 & P1).
      rewrite (bind_returned _ _ _ _ _ Hrep).
      destruct (IH (remove_nth i flying) rest (d + size file)%Z
                   (logged (logged w [Callback_downloadFile u t true]) evs1))
        as (evs2 & st & Hsnd & Hb & Ht & Hscan & Hret);
        [lia | exact Hperm' |].
      exists ([Callback_downloadFile u t true] ++ evs1 ++ evs2)%list, st.
      split; [rewrite Hsnd, !logged_logged; reflexivity |].
      split; [cbn; rewrite batches_awaited_app, (bystanders_awaited _ B1); exact Hb |].
      split; [cbn; rewrite transfers_app, (bystanders_transfers _ B1); exact Ht |].
      split.
      { cbn [app scan]. rewrite Hbusy, Hland, scan_app, (bystanders_scan _ _ _ _ B1).
        exact Hscan. }
      intros d' Hd'. destruct (Hret d' Hd') as (-> & order & Po & Ro & -> & Pr).
      split; [reflexivity |]. exists ((file, (u, t)) :: order).
      split; [eapply perm_trans; [apply perm_skip; exact Po | apply Permutation_sym, Pfly] |].
      split.
      { cbn [app reported map]. rewrite reported_app, (bystanders_reported _ B1), Ro.
        reflexivity. }
      split.
      { cbn [map fst]. change (total_size (file :: ?x)) with (size file + total_size x)%Z.
        lia. }
      cbn [app progress_reports]. rewrite progress_reports_app, P1, Pr.
      destruct progress; reflexivity.
    + exists [Callback_downloadFile u t false], (busy rest, rest). cbn [fst snd].
      split; [reflexivity |]. split; [reflexivity |]. split; [reflexivity |].
      split; [cbn [scan]; now rewrite Hbusy, Hland |]. discriminate.
Qed.

(** [Promise.all], whatever the outcome. *)
Lemma Promise_all_run downloads d w :
  exists evs st,
    snd (Promise_all env progress total downloads d w) = logged w evs
    /\ batches_awaited evs = [List.length downloads]
    /\ transfers evs = []
    /\ scan maxBatch false (map snd (in_flight downloads)) evs = Some st
    /\ forall d', fst (Promise_all env progress total downloads d w) = Returned d' ->
         first_rejected downloads = None
         /\ st = (false, [])
         /\ exists order,
              Permutation order (in_flight downloads)
              /\ reported evs = map done order
              /\ d' = (d + total_size (map fst order))%Z
              /\ progress_reports evs
                 = if progress then running_totals d (map size (map fst order)) else [].
Proof.
  unfold Promise_all. rewrite bind_emit.
  set (fl := map snd (in_flight downloads)).
  assert (Hawait : forall rest,
            scan maxBatch false fl (Await_all (List.length downloads) :: rest)
            = scan maxBatch (busy fl) fl rest).
  { intros rest. cbn [scan].
    destruct (Nat.leb_spec (List.length fl) (List.length downloads)) as [_ | H];
      [reflexivity |].
    subst fl. rewrite length_map in H. pose proof (in_flight_length downloads). lia. }
  destruct (first_rejected downloads) as [e |] eqn:R.
  - exists [Await_all (List.length downloads)], (busy fl, fl). cbn [fst snd].
    split; [reflexivity |]. split; [reflexivity |]. split; [reflexivity |].
    split; [now rewrite Hawait |]. discriminate.
  - destruct (settle_run (List.length (in_flight downloads)) (in_flight downloads) fl d
                (logged w [Await_all (List.length downloads)]) eq_refl
                (Permutation_refl _))
      as (evs & st & Hsnd & Hb & Ht & Hscan & Hret).
    exists (Await_all (List.length downloads) :: evs), st.
    split; [rewrite Hsnd, logged_logged; reflexivity |].
    split; [cbn [batches_awaited]; now rewrite Hb |].
    split; [exact Ht |]. split; [now rewrite Hawait |].
    intros d' Hd'. destruct (Hret d' Hd') as (-> & order & Po & Ro & -> & Pr).
    split; [reflexivity |]. split; [reflexivity |]. exists order.
    repeat split; auto.
Qed.

(** A transfer as the trace has its start. *)
Lemma downloadFile_run entry w :
  exists promise,
    downloadFile env baseUrl versionId entry w
    = (Returned promise,
       logged w (map (fun ut => Exec_downloadFile (fst ut) (snd ut))
                     (transfer_of env baseUrl versionId entry)))
    /\ promise_of env baseUrl versionId promise entry
    /\ map snd (in_flight [promise]) = transfer_of env baseUrl versionId entry
    /\ map fst (in_flight [promise])
       = map (fun _ => entry) (transfer_of env baseUrl versionId entry).
Proof.
  unfold downloadFile, transfer_of.
  destruct (URL_resolve env baseUrl (href entry)) as [u |] eqn:E.
  - eexists. rewrite bind_emit. split; [reflexivity |]. cbn. rewrite E. auto.
  - exists (Rejected "TypeError"). rewrite logged_nil. split; [reflexivity |].
    split; [exact E |]. split; reflexivity.
Qed.

Lemma starts_run entry :
  let starts := map (fun ut => Exec_downloadFile (fst ut) (snd ut))
                    (transfer_of env baseUrl versionId entry) in
  batches_awaited starts = []
  /\ reported starts = []
  /\ progress_reports starts = []
  /\ transfers starts = transfer_of env baseUrl versionId entry
  /\ forall fl, (List.length fl < maxBatch)%nat ->
       scan maxBatch false fl starts
       = Some (false, (fl ++ transfer_of env baseUrl versionId entry)%list).
Proof.
  unfold transfer_of. destruct (URL_resolve env baseUrl (href entry)) as [u |];
    cbn [map fst snd batches_awaited reported progress_reports transfers scan].
  - repeat split. intros fl Hfl.
    destruct (Nat.ltb_spec (List.length fl) maxBatch); [reflexivity | lia].
  - repeat split. intros fl _. now rewrite app_nil_r.
Qed.

(** The loop, whatever its outcome: it never breaks the discipline, and it
    awaits full batches only. *)
Lemma download_loop_run manifest : forall downloads count d w,
  (List.length downloads <= maxBatch)%nat ->
  exists evs st,
    snd (download_loop env baseUrl versionId progress total manifest downloads count d w)
    = logged w evs
    /\ Forall (fun n => n <= maxBatch)%nat (batches_awaited evs)
    /\ scan maxBatch false (map snd (in_flight downloads)) evs = Some st
    /\ forall downloads' count' d',
         fst (download_loop env baseUrl versionId progress total manifest downloads count d w)
         = Returned (downloads', count', d') ->
         st = (false, map snd (in_flight downloads'))
         /\ (List.length downloads' <= maxBatch)%nat
         /\ (0 < List.length downloads + List.length manifest -> 0 < List.length downloads')%nat
         /\ exists q,
              batches_awaited evs = repeat maxBatch q
              /\ (q * maxBatch + List.length downloads'
                  = List.length downloads + List.length manifest)%nat.
Proof.
  induction manifest as [| entry rest IH]; intros ds c d w Hlen.
  - exists [], (false, map snd (in_flight ds)). cbn [download_loop]. unfold ret.
    cbn [fst snd]. rewrite logged_nil. split; [reflexivity |]. split; [constructor |].
    split; [reflexivity |]. intros ds' c' d' H. injection H as <- <- <-.
    split; [reflexivity |]. split; [exact Hlen |]. split; [cbn [List.length]; lia |].
    exists 0%nat. split; [reflexivity | cbn [List.length]; lia].
  - cbn [download_loop].
    pose proof (starts_run entry) as Hstarts. cbv zeta in Hstarts.
    destruct Hstarts as (SB & SR & SP & ST & Sscan).
    set (starts := map (fun ut => Exec_downloadFile (fst ut) (snd ut))
                       (transfer_of env baseUrl versionId entry)) in *.
    destruct (Nat.leb_spec maxBatch (List.length ds)) as [Hfull | Hroom].
    + (* a full batch is awaited first *)
      destruct (Promise_all_run ds d w) as (evsA & stA & HsndA & HbA & HtA & HscanA & HretA).
      rewrite !bind_bind.
      destruct (Promise_all env progress total ds d w) as [[dA | e |] wA] eqn:EA;
        cbn [fst snd] in HsndA, HretA; subst wA.
      * rewrite (bind_returned _ _ _ _ _ EA), bind_bind, bind_emit, bind_ret.
        cbv beta iota.
        destruct (HretA dA eq_refl) as (_ & -> & _).
        destruct (downloadFile_run entry (logged (logged w evsA) [Sleep]))
          as (promise & Hpush & _ & Hfl & _).
        rewrite (bind_returned _ _ _ _ _ Hpush). fold starts.
        destruct (IH ([] ++ [promise])%list (S c) dA
                     (logged (logged (logged w evsA) [Sleep]) starts))
          as (evs & st & Hsnd & Hb & Hscan & Hret);
          [cbn [app List.length]; unfold maxBatch; lia |].
        exists (evsA ++ [Sleep] ++ starts ++ evs)%list, st.
        split; [rewrite Hsnd, !logged_logged; reflexivity |].
        split.
        { rewrite !batches_awaited_app, HbA, SB. cbn [batches_awaited app].
          constructor; [exact Hlen | exact Hb]. }
        split.
        { rewrite scan_app, HscanA. cbn [app scan].
          rewrite scan_app, (Sscan []) by (cbn; unfold maxBatch; lia).
          cbn [app] in Hscan |- *. rewrite Hfl in Hscan. exact Hscan. }
        intros ds' c' d' H. destruct (Hret ds' c' d' H) as (-> & Hl & Hne & q & Hq & Hsum).
        split; [reflexivity |]. split; [exact Hl |].
        split; [intros _; apply Hne; cbn [app List.length]; lia |].
        exists (S q). split.
        { rewrite !batches_awaited_app, HbA, SB, Hq. cbn [batches_awaited app repeat].
          f_equal. lia. }
        cbn [app List.length] in Hsum |- *. unfold maxBatch in *. lia.
      * rewrite (bind_thrown _ _ _ _ _ EA). exists evsA, stA. cbn [fst snd].
        split; [reflexivity |]. split; [rewrite HbA; constructor; [exact Hlen | constructor] |].
        split; [exact HscanA | discriminate].
      * rewrite (bind_unfinished _ _ _ _ EA). exists evsA, stA. cbn [fst snd].
        split; [reflexivity |]. split; [rewrite HbA; constructor; [exact Hlen | constructor] |].
        split; [exact HscanA | discriminate].
    + (* there is still room in the batch *)
      rewrite bind_ret. cbv beta iota.
      destruct (downloadFile_run entry w) as (promise & Hpush & _ & Hfl & _).
      rewrite (bind_returned _ _ _ _ _ Hpush). fold starts.
      destruct (IH (ds ++ [promise])%list c d (logged w starts))
        as (evs & st & Hsnd & Hb & Hscan & Hret);
        [rewrite length_app; cbn [List.length]; lia |].
      exists (starts ++ evs)%list, st.
      split; [rewrite Hsnd, logged_logged; reflexivity |].
      split; [rewrite batches_awaited_app, SB; exact Hb |].
      split.
      { rewrite scan_app, Sscan.
        - rewrite in_flight_app, map_app, Hfl in Hscan. exact Hscan.
        - rewrite length_map. pose proof (in_flight_length ds). lia. }
      intros ds' c' d' H. destruct (Hret ds' c' d' H) as (-> & Hl & Hne & q & Hq & Hsum).
      split; [reflexivity |]. split; [exact Hl |].
      split; [intros _; apply Hne; rewrite length_app; cbn [List.length]; lia |].
      exists q. split; [rewrite batches_awaited_app, SB; exact Hq |].
      rewrite length_app in Hsum. cbn [List.length] in Hsum |- *. lia.
Qed.

Lemma list_sum_repeat n q : list_sum (repeat n q) = (q * n)%nat.
Proof. induction q; simpl; lia. Qed.

Lemma Forall_repeat {A} (P : A -> Prop) x q : P x -> Forall P (repeat x q).
Proof. intros H. induction q; simpl; constructor; auto. Qed.

(** The scheduler does return when every URL resolves and the native side
    reports every transfer done. *)
Section Reliable.

Hypothesis transfers_done : forall t flying,
  flying <> [] ->
  exists i, (i < List.length flying)%nat
            /\ native_downloadFile env t flying = Some (i, true).

Lemma settle_returns : forall pending flying d w,
  pending = List.length flying ->
  exists d' w', settle env progress total pending flying d w = (Returned d', w').
Proof.
  induction pending as [| pending IH]; intros flying d w Hlen.
  - now exists d, w.
  - rewrite settle_step.
    destruct (transfers_done (trace w) (map snd flying)) as (i & Hi & ->).
    { destruct flying; [discriminate | discriminate]. }
    rewrite length_map in Hi.
    destruct (nth_error flying i) as [[file [u t]] |] eqn:N;
      [| apply nth_error_None in N; lia].
    destruct (report_run (d + size file)%Z (logged w [Callback_downloadFile u t true]))
      as (evs & Hrep & _).
    rewrite (bind_returned _ _ _ _ _ Hrep). apply IH.
    destruct (remove_nth_perm flying i _ N) as [_ L]. lia.
Qed.

Lemma Promise_all_returns downloads d w :
  first_rejected downloads = None ->
  exists d' w', Promise_all env progress total downloads d w = (Returned d', w').
Proof.
  intros R. unfold Promise_all. rewrite bind_emit, R. now apply settle_returns.
Qed.

Lemma download_loop_returns manifest : forall downloads count d w,
  Forall (resolved env baseUrl) manifest ->
  first_rejected downloads = None ->
  exists downloads' count' d' w',
    download_loop env baseUrl versionId progress total manifest downloads count d w
    = (Returned (downloads', count', d'), w')
    /\ first_rejected downloads' = None.
Proof.
  induction manifest as [| entry rest IH]; intros ds c d w Hres Hall; cbn [download_loop].
  - exists ds, c, d, w. now split.
  - inversion Hres as [| ? ? He Hrest]; subst.
    assert (Hpush : forall ds1 c1 d1 w1, first_rejected ds1 = None ->
              exists downloads' count' d' w',
                (promise <- downloadFile env baseUrl versionId entry ;;
                 download_loop env baseUrl versionId progress total rest
                               (ds1 ++ [promise])%list c1 d1) w1
                = (Returned (downloads', count', d'), w')
                /\ first_rejected downloads' = None).
    { intros ds1 c1 d1 w1 H1. unfold downloadFile. unfold resolved in He.
      destruct (URL_resolve env baseUrl (href entry)) as [u |] eqn:E; [| congruence].
      autorewrite with run. apply IH; [exact Hrest |].
      rewrite first_rejected_app, H1. reflexivity. }
    destruct (maxBatch <=? List.length ds)%nat.
    + destruct (Promise_all_returns ds d w Hall) as (d1 & w1 & Hs).
      rewrite bind_bind, (bind_returned _ _ _ _ _ Hs). autorewrite with run.
      apply Hpush. reflexivity.
    + autorewrite with run. apply Hpush. exact Hall.
Qed.

Lemma _downloadFilesFromManifest_returns manifest downloaded w :
  Forall (resolved env baseUrl) manifest ->
  exists w',
    _downloadFilesFromManifest env baseUrl manifest versionId downloaded total progress w
    = (Returned tt, w').
Proof.
  intros Hres. unfold _downloadFilesFromManifest.
  destruct (download_loop_returns manifest [] 0%nat downloaded w Hres eq_refl)
    as (ds & c & d & w1 & Hloop & Hall).
  rewrite (bind_returned _ _ _ _ _ Hloop). cbv beta iota.
  destruct ds as [| p ds]; [now exists w1 |].
  destruct (Promise_all_returns (p :: ds) d w1 Hall) as (d1 & w2 & Hs).
  rewrite (bind_returned _ _ _ _ _ Hs). now exists w2.
Qed.

End Reliable.


End Scheduler.


(* ================================================================= *)
(** ** Calls that only talk to the collaborators *)

Section IO.

Variable env : Env.

Lemma same_heap__savePrefs : preserves same_heap (_savePrefs env).
Proof. unfold _savePrefs. preserves_auto. Qed.

Lemma same_heap_remove path : preserves same_heap (FileManager_remove env path).
Proof. unfold FileManager_remove. preserves_auto. Qed.

Lemma same_heap_copyTo a b c : preserves same_heap (FileManager_copyTo env a b c).
Proof. unfold FileManager_copyTo. preserves_auto. Qed.

Lemma same_heap_copyFiles a b : preserves same_heap (FileManager_copyFiles env a b).
Proof. unfold FileManager_copyFiles. preserves_auto. Qed.

Lemma same_heap_getDirectoryFiles path :
  preserves same_heap (FileManager_getDirectoryFiles env path).
Proof. unfold FileManager_getDirectoryFiles. preserves_auto. Qed.

Lemma same_heap__fetchManifest u : preserves same_heap (_fetchManifest env u).
Proof. unfold _fetchManifest. preserves_auto. Qed.

Lemma same_heap__cleanSnapshotDir v : preserves same_heap (_cleanSnapshotDir env v).
Proof.
  unfold _cleanSnapshotDir. pose proof same_heap_remove. preserves_auto.
Qed.


#[local] Hint Resolve same_heap__savePrefs same_heap_remove same_heap_copyTo
  same_heap_copyFiles same_heap_getDirectoryFiles same_heap__fetchManifest
  same_heap__cleanSnapshotDir : core.

Lemma same_heap__recursiveFilesInPath depth : forall filePath suffix folderName,
  preserves same_heap (_recursiveFilesInPath env depth filePath suffix folderName).
Proof.
  induction depth as [| depth IH]; intros filePath suffix folderName;
    cbn [_recursiveFilesInPath].
  - preserves_auto.
  - cbv zeta. apply preserves_bind; [eauto | auto |]. intros filesNames.
    match goal with
    | |- preserves _ (?each_folder _ _) =>
        assert (Hwalk : forall folders files,
                   preserves same_heap (each_folder folders files));
          [ induction folders as [| f r IHf]; intros files; preserves_auto
          | apply Hwalk ]
    end.
Qed.

Lemma same_heap_reconcile progress total files rows : forall d,
  preserves same_heap (reconcile progress total files rows d).
Proof.
  induction rows as [| r rows IH]; intros d; cbn [reconcile]; preserves_auto.
Qed.

#[local] Hint Resolve same_heap__recursiveFilesInPath same_heap_reconcile : core.

Lemma same_heap__diffManifests depth newManifest oldManifest filePath total progress :
  preserves same_heap
    (_diffManifests env depth newManifest oldManifest filePath total progress).
Proof. unfold _diffManifests, _diffManifests_try. preserves_auto. Qed.

Lemma same_heap_settle progress total pending : forall flying d,
  preserves same_heap (settle env progress total pending flying d).
Proof.
  induction pending as [| pending IH]; intros flying d; cbn [settle]; preserves_auto.
Qed.

#[local] Hint Resolve same_heap_settle : core.

Lemma same_heap_download_loop baseUrl versionId progress total manifest :
  forall downloads count d,
    preserves same_heap
      (download_loop env baseUrl versionId progress total manifest downloads count d).
Proof.
  induction manifest as [| e rest IH]; intros ds c d; cbn [download_loop];
    unfold Promise_all, downloadFile; preserves_auto.
Qed.

#[local] Hint Resolve same_heap_download_loop : core.

Lemma same_heap__downloadFilesFromManifest baseUrl manifest versionId d total progress :
  preserves same_heap
    (_downloadFilesFromManifest env baseUrl manifest versionId d total progress).
Proof. unfold _downloadFilesFromManifest, Promise_all. preserves_auto. Qed.

Lemma same_heap__copyCurrentAppDir folder versionId manifest total progress : forall d,
  preserves same_heap (_copyCurrentAppDir env folder versionId manifest d total progress).
Proof.
  induction manifest as [| e rest IH]; intros d; cbn [_copyCurrentAppDir];
    preserves_auto.
Qed.

#[local] Hint Resolve same_heap__copyCurrentAppDir : core.

Lemma same_heap_prepareUpdateDirectory versionId current manifest d total progress :
  preserves same_heap
    (prepareUpdateDirectory env versionId current manifest d total progress).
Proof. unfold prepareUpdateDirectory, _copyBaseAppDir. preserves_auto. Qed.

Lemma same_heap_fetch_currentManifest update current :
  preserves same_heap (fetch_currentManifest env update current).
Proof. unfold fetch_currentManifest. preserves_auto. Qed.

End IO.

(* ================================================================= *)
(** ** Version cleanup *)

Lemma rel_bind {A B} (R : World -> World -> Prop)
      (R_trans : forall a b c, R a b -> R b c -> R a c)
      (m : M A) (k : A -> M B) w :
  R w (snd (m w)) ->
  (forall a w1, m w = (Returned a, w1) -> R w1 (snd (k a w1))) ->
  R w (snd (bind m k w)).
Proof.
  intros Hm Hk. unfold bind. destruct (m w) as [[a | e |] w1] eqn:E; simpl in *; auto.
  eapply R_trans; [exact Hm | now apply Hk].
Qed.

Lemma preserves_forM_In {A} (R : World -> World -> Prop)
      (R_refl : forall w, R w w)
      (R_trans : forall a b c, R a b -> R b c -> R a c)
      (l : list A) (f : A -> M unit) :
  (forall a, In a l -> preserves R (f a)) -> preserves R (forM_ l f).
Proof.
  induction l as [| x l IH]; intros Hf; cbn [forM_].
  - now apply preserves_ret.
  - apply preserves_bind; auto.
    + apply Hf. now left.
    + intros _. apply IH. intros a Ha. apply Hf. now right.
Qed.

Lemma bind__isRunningVersion {B} v (k : bool -> M B) w :
  bind (_isRunningVersion v) k w = k (JS.includes (serverBasePath w) v) w.
Proof. reflexivity. Qed.

#[local] Hint Rewrite @bind__isRunningVersion : run.

Module ObjFacts.

Lemma get_delete {V} (o : Obj.t V) k k' :
  Obj.get (Obj.delete o k) k' = if String.eqb k k' then None else Obj.get o k'.
Proof.
  induction o as [| [k0 v] o IH]; simpl.
  - now destruct (String.eqb k k').
  - destruct (String.eqb_spec k0 k) as [-> | Hne]; simpl.
    + rewrite IH. destruct (String.eqb_spec k k') as [-> | Hne']; [reflexivity |].
      destruct (String.eqb_spec k k'); [contradiction | reflexivity].
    + rewrite IH. destruct (String.eqb_spec k0 k') as [-> | Hne'].
      * destruct (String.eqb_spec k k'); [congruence | reflexivity].
      * reflexivity.
Qed.

Lemma get_delete_other {V} (o : Obj.t V) k k' :
  k <> k' -> Obj.get (Obj.delete o k) k' = Obj.get o k'.
Proof.
  intros H. rewrite get_delete. destruct (String.eqb_spec k k'); [contradiction | reflexivity].
Qed.

Lemma get_delete_same {V} (o : Obj.t V) k : Obj.get (Obj.delete o k) k = None.
Proof. rewrite get_delete. now rewrite String.eqb_refl. Qed.

Lemma get_set_same {V} (o : Obj.t V) k v : Obj.get (Obj.set o k v) k = Some v.
Proof.
  induction o as [| [k0 v0] o IH]; simpl.
  - now rewrite String.eqb_refl.
  - destruct (String.eqb_spec k0 k) as [-> | Hne]; simpl.
    + now rewrite String.eqb_refl.
    + destruct (String.eqb_spec k0 k); [contradiction | exact IH].
Qed.

Lemma get_In {V} (o : Obj.t V) k v : Obj.get o k = Some v -> In (k, v) o.
Proof.
  induction o as [| [k0 v0] o IH]; simpl; [discriminate |].
  destruct (String.eqb_spec k0 k) as [-> | Hne].
  - intros H. inversion H. now left.
  - intros H. right. now apply IH.
Qed.

End ObjFacts.

Lemma housekeeping_refl w : housekeeping w w.
Proof.
  unfold housekeeping. repeat split; try reflexivity.
  exists []. split; [now rewrite app_nil_r | constructor].
Qed.

Lemma housekeeping_trans a b c : housekeeping a b -> housekeeping b c -> housekeeping a c.
Proof.
  unfold housekeeping.
  intros (? & ? & ? & ? & ? & ? & e1 & T1 & F1) (? & ? & ? & ? & ? & ? & e2 & T2 & F2).
  repeat split; try congruence.
  exists (e1 ++ e2)%list. split; [rewrite T2, T1; now rewrite app_assoc |].
  apply Forall_app; auto.
Qed.

#[local] Hint Resolve housekeeping_refl housekeeping_trans : core.

Section Cleanup.

Variable env : Env.

Lemma housekeeping__savePrefs : preserves housekeeping (_savePrefs env).
Proof.
  intros w. unfold _savePrefs. autorewrite with run.
  assert (H : housekeeping w (logged w [Exec_setPreferences (prefs w)])).
  { unfold housekeeping. repeat split; try reflexivity.
    exists [Exec_setPreferences (prefs w)]. split; [reflexivity | repeat constructor]. }
  destruct (native_setPreferences env (trace w) (prefs w)); exact H.
Qed.

Lemma housekeeping__cleanSnapshotDir v : preserves housekeeping (_cleanSnapshotDir env v).
Proof.
  intros w. unfold _cleanSnapshotDir, FileManager_remove, try_catch.
  autorewrite with run.
  assert (H : housekeeping w (logged w [Exec_remove (getSnapshotCacheDir env v)])).
  { unfold housekeeping. repeat split; try reflexivity.
    exists [Exec_remove (getSnapshotCacheDir env v)].
    split; [reflexivity | repeat constructor]. }
  destruct (native_remove env (trace w) (getSnapshotCacheDir env v)); exact H.
Qed.

Lemma housekeeping_delete v :
  preserves housekeeping
    (modify_prefs (fun p => with_updates p (Obj.delete (updates p) v))).
Proof.
  intros w. unfold housekeeping. simpl. repeat split; try reflexivity.
  exists []. split; [now rewrite app_nil_r | constructor].
Qed.

Lemma housekeeping_forget_current :
  preserves housekeeping (modify_prefs (fun p => with_current p None (currentBuildId p))).
Proof.
  intros w. unfold housekeeping. simpl. repeat split; try reflexivity.
  exists []. split; [now rewrite app_nil_r | constructor].
Qed.

Lemma housekeeping__isRunningVersion v : preserves housekeeping (_isRunningVersion v).
Proof. intros w. apply housekeeping_refl. Qed.

#[local] Hint Resolve housekeeping__savePrefs housekeeping__cleanSnapshotDir
  housekeeping_delete housekeeping_forget_current housekeeping__isRunningVersion : core.

Lemma housekeeping_deleteVersionById v : preserves housekeeping (deleteVersionById env v).
Proof. unfold deleteVersionById. preserves_auto. Qed.

#[local] Hint Resolve housekeeping_deleteVersionById : core.

Lemma housekeeping_cleanupStaleVersions : preserves housekeeping (cleanupStaleVersions env).
Proof. unfold cleanupStaleVersions. preserves_auto. Qed.

#[local] Hint Resolve housekeeping_cleanupStaleVersions : core.

Lemma housekeeping_cleanupVersions : preserves housekeeping (cleanupVersions env).
Proof. unfold cleanupVersions. preserves_auto. Qed.


(** *** The current version *)

Variable c : string.
Variable stored : list IAvailableUpdate.

Lemma keeps_version_refl w : keeps_version env c stored w w.
Proof.
  intros H. split; [exact H |]. split; [reflexivity |]. split; [apply incl_refl |].
  exists []. split; [now rewrite app_nil_r | constructor].
Qed.

Lemma keeps_version_trans w1 w2 w3 :
  keeps_version env c stored w1 w2 -> keeps_version env c stored w2 w3 ->
  keeps_version env c stored w1 w3.
Proof.
  intros H12 H23 H1. destruct (H12 H1) as (H2 & G12 & I12 & e1 & T1 & F1).
  destruct (H23 H2) as (H3 & G23 & I23 & e2 & T2 & F2).
  split; [exact H3 |]. split; [congruence |].
  split; [eapply incl_tran; eauto |].
  exists (e1 ++ e2)%list. split; [rewrite T2, T1; now rewrite app_assoc |].
  apply Forall_app; auto.
Qed.

#[local] Hint Resolve keeps_version_refl keeps_version_trans : core.

(** A step that leaves the heap alone and makes calls that spare [c]. *)
Lemma keeps_version_logged w evs :
  Forall (spares env c stored) evs -> keeps_version env c stored w (logged w evs).
Proof.
  intros F H. split; [exact H |]. split; [reflexivity |]. split; [apply incl_refl |].
  exists evs. now split.
Qed.

Lemma keeps_version__savePrefs : preserves (keeps_version env c stored) (_savePrefs env).
Proof.
  intros w. unfold _savePrefs. autorewrite with run.
  assert (H : keeps_version env c stored w (logged w [Exec_setPreferences (prefs w)]))
    by (apply keeps_version_logged; repeat constructor).
  destruct (native_setPreferences env (trace w) (prefs w)); exact H.
Qed.

Lemma keeps_version__cleanSnapshotDir update :
  In update stored -> versionId update <> c ->
  preserves (keeps_version env c stored) (_cleanSnapshotDir env (versionId update)).
Proof.
  intros Hin Hv w. unfold _cleanSnapshotDir, FileManager_remove, try_catch.
  autorewrite with run.
  assert (H : keeps_version env c stored w
                (logged w [Exec_remove (getSnapshotCacheDir env (versionId update))])).
  { apply keeps_version_logged. repeat constructor. now exists update. }
  destruct (native_remove env (trace w) (getSnapshotCacheDir env (versionId update)));
    exact H.
Qed.

(** [delete prefs.updates[v]] adds nothing to the stored updates. *)
Lemma getStoredUpdates_delete p v :
  incl (getStoredUpdates (with_updates p (Obj.delete (updates p) v))) (getStoredUpdates p).
Proof.
  intros u Hu. unfold getStoredUpdates in *. cbn [updates with_updates] in Hu.
  apply in_flat_map in Hu as (k & Hk & Hu). apply in_flat_map.
  rewrite ObjFacts.get_delete in Hu.
  destruct (String.eqb v k); [destruct Hu |].
  exists k. split; [| exact Hu].
  unfold Obj.keys, Obj.delete in *. apply in_map_iff in Hk as ([k0 v0] & <- & Hk).
  apply filter_In in Hk as [Hk _]. apply in_map_iff. now exists (k0, v0).
Qed.

Lemma keeps_version_delete v :
  v <> c ->
  preserves (keeps_version env c stored)
    (modify_prefs (fun p => with_updates p (Obj.delete (updates p) v))).
Proof.
  intros Hv w H. split; [exact H |]. cbn [snd modify_prefs prefs updates with_updates].
  split; [now apply ObjFacts.get_delete_other |].
  split; [apply getStoredUpdates_delete |].
  exists []. split; [now rewrite app_nil_r | constructor].
Qed.

#[local] Hint Resolve keeps_version__savePrefs keeps_version_delete : core.

Lemma keeps_version_deleteVersionById update :
  In update stored -> versionId update <> c ->
  preserves (keeps_version env c stored) (deleteVersionById env (versionId update)).
Proof.
  intros Hin Hv. pose proof (keeps_version__cleanSnapshotDir update Hin Hv).
  unfold deleteVersionById. preserves_auto.
Qed.

(** One turn of the loop of [cleanupStaleVersions]: a guarded version is
    never the one deleted. *)
Lemma keeps_version_stale_turn update :
  In update stored ->
  preserves (keeps_version env c stored)
    (p <- get_prefs ;;
     if negb (isUpdateForCurrentBinary p update) then
       running <- _isRunningVersion (versionId update) ;;
       if negb running then
         (if isUpdateCurrentlyInstalled p update
          then modify_prefs (fun p => with_current p None (currentBuildId p))
          else ret tt) ;;
         deleteVersionById env (versionId update) ;;
         ret tt
       else ret tt
     else ret tt).
Proof.
  intros Hin w Hs. autorewrite with run.
  destruct (isUpdateForCurrentBinary (prefs w) update) eqn:Hfresh; cbn [negb];
    [now apply keeps_version_refl |].
  autorewrite with run.
  destruct (JS.includes (serverBasePath w) (versionId update)) eqn:Hrun; cbn [negb];
    [now apply keeps_version_refl |].
  assert (Hv : versionId update <> c).
  { intros E. destruct Hs as [_ [Hs | Hs]].
    - rewrite E in Hrun. congruence.
    - rewrite (Hs update Hin E) in Hfresh. discriminate. }
  unfold isUpdateCurrentlyInstalled. destruct Hs as [Hcur Hg]. rewrite Hcur.
  destruct (String.eqb_spec c (versionId update)) as [E | _]; [congruence |].
  autorewrite with run.
  assert (K : preserves (keeps_version env c stored)
                (deleteVersionById env (versionId update) ;; ret tt)).
  { pose proof (keeps_version_deleteVersionById _ Hin Hv). preserves_auto. }
  apply K. now split.
Qed.

Lemma keeps_version_cleanupStaleVersions w :
  incl (getStoredUpdates (prefs w)) stored ->
  keeps_version env c stored w (snd (cleanupStaleVersions env w)).
Proof.
  intros Hincl. unfold cleanupStaleVersions. rewrite bind_get_prefs.
  refine (preserves_forM_In _ keeps_version_refl keeps_version_trans _ _ _ w).
  intros update Hin. apply keeps_version_stale_turn. now apply Hincl.
Qed.

Lemma In_insert {A} (cmp : A -> A -> comparison) x a l :
  In x (JS.insert cmp a l) -> x = a \/ In x l.
Proof.
  induction l as [| y l IH]; simpl.
  - intros [-> | []]. now left.
  - destruct (cmp a y); simpl; intros H.
    + destruct H as [-> | H]; [now left | now right].
    + destruct H as [-> | H]; [now left | now right].
    + destruct H as [-> | H]; [right; now left |].
      destruct (IH H) as [-> | H']; [now left | right; now right].
Qed.

Lemma In_sort {A} (cmp : A -> A -> comparison) x l : In x (JS.sort cmp l) -> In x l.
Proof.
  induction l as [| a l IH]; simpl; [auto |].
  intros H. destruct (In_insert _ _ _ _ H) as [-> | H']; [now left | right; auto].
Qed.

Lemma In_skipn {A} (x : A) n l : In x (skipn n l) -> In x l.
Proof. intros H. rewrite <- (firstn_skipn n l). apply in_or_app. now right. Qed.

Lemma In_slice_from {A} (x : A) n l : In x (JS.slice_from n l) -> In x l.
Proof. unfold JS.slice_from. destruct (n <? 0)%Z; apply In_skipn. Qed.

(** The updates evicted are never the installed one. *)
Lemma evicted_not_installed p update :
  In update
     (JS.slice_from (maxVersions p)
        (rev (JS.sort (fun a b => JS.localeCompare (lastUsed a) (lastUsed b))
                      (filter (fun a => negb (isUpdateCurrentlyInstalled p a))
                              (getStoredUpdates p))))) ->
  isUpdateCurrentlyInstalled p update = false.
Proof.
  intros H. apply In_slice_from in H. apply in_rev in H. apply In_sort in H.
  apply filter_In in H. destruct H as [_ H]. now apply negb_true_iff in H.
Qed.

Lemma keeps_version_cleanupVersions w :
  incl (getStoredUpdates (prefs w)) stored ->
  keeps_version env c stored w (snd (cleanupVersions env w)).
Proof.
  intros Hincl Hs0. generalize Hs0. unfold cleanupVersions.
  apply rel_bind; [exact keeps_version_trans | now apply keeps_version_cleanupStaleVersions |].
  intros [] w1 E1 Hs1. autorewrite with run.
  assert (Hcur : currentVersionId (prefs w1) = Some c) by apply Hs1.
  refine (preserves_forM_In _ keeps_version_refl keeps_version_trans _ _ _ w1 Hs1).
  intros update Hin.
  pose proof (evicted_not_installed _ _ Hin) as Hnot.
  unfold isUpdateCurrentlyInstalled in Hnot. rewrite Hcur in Hnot.
  assert (Hv : versionId update <> c).
  { intros E. rewrite E, String.eqb_refl in Hnot. discriminate. }
  assert (Hs : In update stored).
  { apply In_slice_from in Hin. apply in_rev in Hin. apply In_sort in Hin.
    apply filter_In in Hin as [Hin _].
    destruct (keeps_version_cleanupStaleVersions w Hincl) as (_ & _ & I & _);
      [exact Hs0 |].
    rewrite E1 in I. apply Hincl, I, Hin. }
  pose proof (keeps_version_deleteVersionById _ Hs Hv). preserves_auto.
Qed.

End Cleanup.




(** The webview serves v10 and the current version is v1: [reloadApp]
    takes v1 for the version that is running, and the cleanup evicts
    v10, the least recently used of the others. *)
Lemma reloadApp_evicts_the_version_in_the_webview :
  let env := Sample.env in
  let installed := [Sample.update "v10" "2020-01-01T00:00:00.000Z" Ready;
                    Sample.update "v2" "2020-01-02T00:00:00.000Z" Ready;
                    Sample.update "v3" "2020-01-03T00:00:00.000Z" Ready;
                    Sample.update "v1" "2020-01-04T00:00:00.000Z" Ready] in
  let w := Sample.world (Sample.preferences (Some "v1") installed None)
                        "/data/ionic_built_snapshots/v10" in
  let w' := snd (reloadApp env w) in
  serverBasePath w = getSnapshotCacheDir env "v10"
  /\ fst (reloadApp env w) = Returned false
  /\ serverBasePath w' = serverBasePath w
  /\ Obj.has (updates (prefs w')) "v10" = false
  /\ In (Exec_remove (getSnapshotCacheDir env "v10")) (trace w').
Proof. vm_compute. repeat split; tauto. Qed.

(** A current version built for another binary, which the webview does not
    serve, is deleted by [cleanupStaleVersions], as at every start-up: it
    leaves [updates], its directory is removed and the reference to it as
    current version is dropped. *)
Lemma cleanupStaleVersions_deletes_stale_current :
  let w := Sample.world
             (Sample.preferences (Some "v1") [Sample.update_for "0.9" "v1"] None)
             "/www" in
  let w' := snd (cleanupStaleVersions Sample.env w) in
  currentVersionId (prefs w) = Some "v1"
  /\ Obj.has (updates (prefs w)) "v1" = true
  /\ Obj.has (updates (prefs w')) "v1" = false
  /\ currentVersionId (prefs w') = None
  /\ trace w' = [Exec_setPreferences (prefs w');
                 Exec_remove (getSnapshotCacheDir Sample.env "v1")].
Proof. vm_compute. repeat split. Qed.

(* ================================================================= *)
(** ** deleteVersionById *)

Lemma _cleanSnapshotDir_run env v w :
  _cleanSnapshotDir env v w
  = (Returned tt, logged w [Exec_remove (getSnapshotCacheDir env v)]).
Proof.
  unfold _cleanSnapshotDir, FileManager_remove.
  destruct (native_remove env (trace w) (getSnapshotCacheDir env v)) eqn:E.
  - erewrite try_catch_returned; [reflexivity |].
    autorewrite with run. now rewrite E.
  - erewrite try_catch_thrown; [reflexivity |].
    autorewrite with run. now rewrite E.
Qed.

Lemma deleteVersionById_run env v w :
  deleteVersionById env v w
  = if native_setPreferences env (trace w) (prefs (removed w v))
    then (Returned true,
          logged (removed w v)
                 [Exec_setPreferences (prefs (removed w v));
                  Exec_remove (getSnapshotCacheDir env v)])
    else (Thrown "setPreferences",
          logged (removed w v) [Exec_setPreferences (prefs (removed w v))]).
Proof.
  unfold deleteVersionById, _savePrefs. autorewrite with run. fold (removed w v).
  change (trace (removed w v)) with (trace w).
  destruct (native_setPreferences env (trace w) (prefs (removed w v))).
  - autorewrite with run. erewrite bind_returned by apply _cleanSnapshotDir_run.
    now autorewrite with run.
  - now autorewrite with run.
Qed.

(** C9 (as the code has it): for every version id, installed or not,
    [deleteVersionById] returns true exactly when the preferences, with the
    entry removed, are accepted by the native store, whether or not the
    directory can be removed; when they are not accepted the promise is
    rejected.  In both cases [currentVersionId] is left as it was, also when
    it is the version deleted. *)
Theorem deleteVersionById_outcome env v w :
  let p' := with_updates (prefs w) (Obj.delete (updates (prefs w)) v) in
  let r := fst (deleteVersionById env v w) in
  let w' := snd (deleteVersionById env v w) in
  prefs w' = p'
  /\ currentVersionId (prefs w') = currentVersionId (prefs w)
  /\ (r = Returned true <-> native_setPreferences env (trace w) p' = true)
  /\ (r = Thrown "setPreferences" <-> native_setPreferences env (trace w) p' = false).
Proof.
  cbv zeta. rewrite deleteVersionById_run. cbn [removed prefs].
  destruct (native_setPreferences env (trace w) _);
    cbn; repeat split; intros; congruence.
Qed.

(** C9 as stated fails: the remove operation does not throw, yet the
    promise of [deleteVersionById] is rejected, because the native store
    refuses the preferences. *)
Lemma deleteVersionById_rejected_counterexample :
  let env := Sample.collaborators false None in
  let w := Sample.world (Sample.preferences None [] None) "/www" in
  (forall t path, native_remove env t path = true)
  /\ fst (deleteVersionById env "v9" w) = Thrown "setPreferences"
  /\ fst (deleteVersionById env "v9" w) <> Returned true.
Proof. repeat split; discriminate. Qed.

(* ================================================================= *)
(** ** reloadApp *)

Lemma bind__savePrefs {B} env (k : unit -> M B) w :
  bind (_savePrefs env) k w
  = if native_setPreferences env (trace w) (prefs w)
    then k tt (logged w [Exec_setPreferences (prefs w)])
    else (Thrown "setPreferences", logged w [Exec_setPreferences (prefs w)]).
Proof.
  unfold _savePrefs. autorewrite with run.
  destruct (native_setPreferences env (trace w) (prefs w)); now autorewrite with run.
Qed.

Lemma housekeeping_not_redirect e : housekeeping_event e -> ~ is_redirect e.
Proof. destruct e; simpl; tauto. Qed.

(** What [reloadApp] has done when it returns: either it had to redirect,
    did so as its last call and returns true; or it had not, never
    redirects, fires the ready signal and returns false, with the committed
    version still current and registered as before. *)
Lemma reloadApp_returned env w b w' :
  reloadApp env w = (Returned b, w') ->
  let p := commit_ready (prefs w) in
  exists evs,
    trace w' = (trace w ++ evs)%list
    /\ ((must_redirect p (serverBasePath w) = true
         /\ b = true
         /\ prefs w' = p
         /\ exists c before,
             currentVersionId p = Some c
             /\ serverBasePath w' = getSnapshotCacheDir env c
             /\ evs = (before ++ [WebView_setServerBasePath (getSnapshotCacheDir env c)])%list
             /\ Forall housekeeping_event before)
        \/ (must_redirect p (serverBasePath w) = false
            /\ b = false
            /\ serverBasePath w' = serverBasePath w
            /\ In OnIonicProReady_fire evs
            /\ Forall (fun e => ~ is_redirect e) evs
            /\ availableUpdate (prefs w') = availableUpdate p
            /\ currentBuildId (prefs w') = currentBuildId p
            /\ forall c, currentVersionId p = Some c ->
                         currentVersionId (prefs w') = Some c
                         /\ Obj.get (updates (prefs w')) c = Obj.get (updates p) c)).
Proof.
  intros H. cbv zeta.
  (* the commit of a Ready update *)
  assert (Hcommit : exists w1 saved,
            prefs w1 = commit_ready (prefs w)
            /\ serverBasePath w1 = serverBasePath w
            /\ trace w1 = (trace w ++ saved)%list
            /\ Forall housekeeping_event saved
            /\ (p <- get_prefs ;;
                match currentVersionId p with
                | Some current =>
                    if JS.truthy current then
                      running <- _isRunningVersion current ;;
                      if running then
                        _savePrefs env ;;
                        emit OnIonicProReady_fire ;;
                        emit WebView_persistServerBasePath ;;
                        cleanupVersions env ;;
                        ret false
                      else if negb (Obj.has (updates p) current) then
                        emit (Console_error_missing current) ;;
                        emit OnIonicProReady_fire ;;
                        ret false
                      else
                        let newLocation := getSnapshotCacheDir env current in
                        WebView_setServerBasePath_call newLocation ;;
                        ret true
                    else
                      emit OnIonicProReady_fire ;; ret false
                | None =>
                    emit OnIonicProReady_fire ;; ret false
                end) w1 = (Returned b, w')).
  { unfold reloadApp in H. rewrite bind_get_prefs in H. unfold commit_ready.
    destruct (availableUpdate (prefs w)) as [u |].
    - destruct (UpdateState_eqb (state u) Ready).
      + rewrite bind_bind, bind_modify_prefs, bind__savePrefs in H. cbn [prefs trace] in H.
        destruct (native_setPreferences env (trace w) _); [| discriminate].
        set (p1 := with_availableUpdate
                     (with_current (prefs w) (Some (versionId u)) (Some (buildId u)))
                     None) in *.
        exists (logged {| prefs := p1; serverBasePath := serverBasePath w;
                          trace := trace w |} [Exec_setPreferences p1]),
               [Exec_setPreferences p1].
        split; [reflexivity |]. split; [reflexivity |]. split; [reflexivity |].
        split; [repeat constructor | exact H].
      + rewrite bind_ret in H. exists w, []. rewrite app_nil_r.
        repeat split; auto.
    - rewrite bind_ret in H. exists w, []. rewrite app_nil_r. repeat split; auto. }
  destruct Hcommit as (w1 & saved & Hp & Hbase & Htr & Hsaved & Hrest).
  clear H. rewrite bind_get_prefs in Hrest. unfold must_redirect. rewrite <- Hp.
  assert (Hnr : Forall (fun e => ~ is_redirect e) saved).
  { eapply Forall_impl; [| exact Hsaved]. apply housekeeping_not_redirect. }
  assert (Hfire : forall pre post,
            exists evs,
              trace (logged w1 (pre ++ OnIonicProReady_fire :: post))
              = (trace w ++ evs)%list
              /\ In OnIonicProReady_fire evs
              /\ (Forall (fun e => ~ is_redirect e) (pre ++ post) ->
                  Forall (fun e => ~ is_redirect e) evs)).
  { intros pre post. exists (saved ++ pre ++ OnIonicProReady_fire :: post)%list.
    split; [rewrite trace_logged, Htr; now rewrite <- app_assoc |]. split.
    - apply in_or_app. right. apply in_or_app. right. now left.
    - intros F. apply Forall_app in F. destruct F as [F1 F2].
      apply Forall_app. split; [exact Hnr |]. apply Forall_app. split; [exact F1 |].
      constructor; [simpl; tauto | exact F2]. }
  assert (Hquiet : forall pre post,
            Forall (fun e => ~ is_redirect e) (pre ++ post) ->
            Returned b = Returned false ->
            w' = logged w1 (pre ++ OnIonicProReady_fire :: post) ->
            exists evs,
              trace w' = (trace w ++ evs)%list
              /\ b = false
              /\ serverBasePath w' = serverBasePath w
              /\ In OnIonicProReady_fire evs
              /\ Forall (fun e => ~ is_redirect e) evs
              /\ availableUpdate (prefs w') = availableUpdate (prefs w1)
              /\ currentBuildId (prefs w') = currentBuildId (prefs w1)
              /\ forall c, currentVersionId (prefs w1) = Some c ->
                           currentVersionId (prefs w') = Some c
                           /\ Obj.get (updates (prefs w')) c
                              = Obj.get (updates (prefs w1)) c).
  { intros pre post F Hb ->. inversion Hb; subst b.
    destruct (Hfire pre post) as (evs & T & I & F').
    exists evs. split; [exact T |]. split; [reflexivity |].
    split; [exact Hbase |]. split; [exact I |]. split; [exact (F' F) |].
    split; [reflexivity |]. split; [reflexivity |].
    intros c E. split; [exact E | reflexivity]. }
  destruct (currentVersionId (prefs w1)) as [c |] eqn:Hcur.
  2:{ (* no version installed *)
      autorewrite with run in Hrest. injection Hrest as Hb Hw.
      destruct (Hquiet [] []) as (evs & T & Q); [constructor | now rewrite Hb | auto |].
      exists evs. split; [exact T |]. right. split; [reflexivity | exact Q]. }
  destruct (JS.truthy c) eqn:Htruthy; cbn [andb].
  2:{ autorewrite with run in Hrest. injection Hrest as Hb Hw.
      destruct (Hquiet [] []) as (evs & T & Q); [constructor | now rewrite Hb | auto |].
      exists evs. split; [exact T |]. right. split; [reflexivity | exact Q]. }
  rewrite bind__isRunningVersion in Hrest. rewrite Hbase in Hrest.
  destruct (JS.includes (serverBasePath w) c) eqn:Hrun; cbn [negb andb].
  - (* already running the installed version *)
    rewrite bind__savePrefs in Hrest.
    destruct (native_setPreferences env (trace w1) (prefs w1)); [| discriminate].
    autorewrite with run in Hrest. cbn [app] in Hrest.
    apply bind_returned_inv in Hrest. destruct Hrest as ([] & w2 & Hclean & Hret).
    inversion Hret; subst b w2. clear Hret.
    set (w0 := logged w1 [Exec_setPreferences (prefs w1); OnIonicProReady_fire;
                          WebView_persistServerBasePath]) in *.
    pose proof (housekeeping_cleanupVersions env w0) as Hk.
    pose proof (keeps_version_cleanupVersions env c (getStoredUpdates (prefs w0)) w0
                  (incl_refl _)) as Hv.
    rewrite Hclean in Hk, Hv. cbn [snd] in Hk, Hv.
    destruct Hk as (Kbase & Kavail & Kbuild & _ & _ & _ & evsK & KT & KF).
    destruct Hv as (Hserv & Hget & _).
    { split; [exact Hcur |]. left.
      unfold w0. rewrite serverBasePath_logged, Hbase. exact Hrun. }
    exists (saved ++ [Exec_setPreferences (prefs w1); OnIonicProReady_fire;
                      WebView_persistServerBasePath] ++ evsK)%list.
    split.
    { rewrite KT. subst w0. rewrite trace_logged, Htr. now rewrite <- !app_assoc. }
    right. split; [reflexivity |]. split; [reflexivity |].
    split; [rewrite Kbase; exact Hbase |].

    split; [apply in_or_app; right; cbn; tauto |].
    split.
    { apply Forall_app. split; [exact Hnr |].
      repeat (constructor; [simpl; tauto |]).
      eapply Forall_impl; [| exact KF]. apply housekeeping_not_redirect. }
    split; [exact Kavail |]. split; [exact Kbuild |].
    intros c' E. inversion E; subst c'. split; [apply Hserv | exact Hget].
  - destruct (Obj.has (updates (prefs w1)) c) eqn:Hhas; cbn [negb] in *.
    + (* redirect *)
      cbv zeta in Hrest. unfold WebView_setServerBasePath_call in Hrest.
      unfold bind in Hrest. inversion Hrest; subst b w'. cbn [trace prefs serverBasePath].
      exists (saved ++ [WebView_setServerBasePath (getSnapshotCacheDir env c)])%list.
      split; [rewrite Htr; now rewrite app_assoc |].
      left. split; [reflexivity |]. split; [reflexivity |]. split; [reflexivity |].
      exists c, saved. repeat split; auto.
    + (* the installed version is missing *)
      autorewrite with run in Hrest. cbn [app] in Hrest. injection Hrest as Hb Hw.
      destruct (Hquiet [Console_error_missing c] []) as (evs & T & Q);
        [repeat constructor; simpl; tauto | now rewrite Hb | auto |].
      exists evs. split; [exact T |]. right. split; [reflexivity | exact Q].
Qed.

Lemma preserves_weaken {A} (R R' : World -> World -> Prop) (m : M A) :
  (forall w w', R w w' -> R' w w') -> preserves R m -> preserves R' m.
Proof. intros H Hm w. apply H, Hm. Qed.

Lemma no_redirect_refl w : no_redirect w w.
Proof. split; [reflexivity |]. exists []. split; [now rewrite app_nil_r | constructor]. Qed.

Lemma no_redirect_trans a b c : no_redirect a b -> no_redirect b c -> no_redirect a c.
Proof.
  intros (B1 & e1 & T1 & F1) (B2 & e2 & T2 & F2). split; [congruence |].
  exists (e1 ++ e2)%list. split; [rewrite T2, T1; now rewrite app_assoc |].
  apply Forall_app; auto.
Qed.

Lemma housekeeping_no_redirect w w' : housekeeping w w' -> no_redirect w w'.
Proof.
  intros (B & _ & _ & _ & _ & _ & evs & T & F). split; [exact B |].
  exists evs. split; [exact T |].
  eapply Forall_impl; [| exact F]. apply housekeeping_not_redirect.
Qed.

#[local] Hint Resolve no_redirect_refl no_redirect_trans : core.

Lemma no_redirect_emit e : ~ is_redirect e -> preserves no_redirect (emit e).
Proof.
  intros He w. split; [reflexivity |]. exists [e]. split; [reflexivity | now constructor].
Qed.

Lemma no_redirect_modify_prefs f : preserves no_redirect (modify_prefs f).
Proof.
  intros w. split; [reflexivity |]. exists []. cbn.
  split; [now rewrite app_nil_r | constructor].
Qed.

Lemma no_redirect__savePrefs env : preserves no_redirect (_savePrefs env).
Proof.
  apply (preserves_weaken housekeeping); [apply housekeeping_no_redirect |].
  apply housekeeping__savePrefs.
Qed.

Lemma no_redirect_cleanupVersions env : preserves no_redirect (cleanupVersions env).
Proof.
  apply (preserves_weaken housekeeping); [apply housekeeping_no_redirect |].
  apply housekeeping_cleanupVersions.
Qed.

Lemma no_redirect__isRunningVersion v : preserves no_redirect (_isRunningVersion v).
Proof. intros w. apply no_redirect_refl. Qed.

Lemma true_or_quiet_bind {A} (m : M A) (k : A -> M bool) :
  preserves no_redirect m -> (forall a, true_or_quiet (k a)) -> true_or_quiet (bind m k).
Proof.
  intros Hm Hk w. unfold bind. specialize (Hm w).
  destruct (m w) as [[a | e |] w1]; cbn [fst snd] in *; auto.
  destruct (Hk a w1) as [H | H]; [now left | right].
  eapply no_redirect_trans; eauto.
Qed.

Lemma true_or_quiet_quiet (m : M bool) : preserves no_redirect m -> true_or_quiet m.
Proof. intros H w. right. apply H. Qed.

(** Only a [reloadApp] that returns true has redirected the webview. *)
Lemma reloadApp_true_or_quiet env : true_or_quiet (reloadApp env).
Proof.
  pose proof (no_redirect__savePrefs env). pose proof (no_redirect_cleanupVersions env).
  pose proof no_redirect_modify_prefs. pose proof no_redirect__isRunningVersion.
  assert (forall e, ~ is_redirect e -> preserves no_redirect (emit e))
    by apply no_redirect_emit.
  unfold reloadApp.
  apply true_or_quiet_bind; [preserves_auto |]. intros p0.
  apply true_or_quiet_bind; [preserves_auto |]. intros _.
  apply true_or_quiet_bind; [preserves_auto |]. intros p.
  destruct (currentVersionId p) as [c |].
  2:{ apply true_or_quiet_quiet. preserves_auto. }
  destruct (JS.truthy c).
  2:{ apply true_or_quiet_quiet. preserves_auto. }
  apply true_or_quiet_bind; [preserves_auto |]. intros running.
  destruct running.
  { apply true_or_quiet_quiet. preserves_auto. }
  destruct (negb (Obj.has (updates p) c)).
  { apply true_or_quiet_quiet. preserves_auto. }
  intros w. left. reflexivity.
Qed.

(* ================================================================= *)
(** ** The state machine on availableUpdate *)

Lemma same_pending_refl w : same_pending w w.
Proof. reflexivity. Qed.

Lemma same_pending_trans a b c : same_pending a b -> same_pending b c -> same_pending a c.
Proof. unfold same_pending. congruence. Qed.

#[local] Hint Resolve same_pending_refl same_pending_trans : core.

Lemma same_heap_same_pending w w' : same_heap w w' -> same_pending w w'.
Proof. intros [H _]. unfold same_pending. now rewrite H. Qed.

Lemma housekeeping_same_pending w w' : housekeeping w w' -> same_pending w w'.
Proof. intros (_ & H & _). exact H. Qed.

Lemma same_pending_emit e : preserves same_pending (emit e).
Proof. intros w. reflexivity. Qed.

Lemma same_pending__savePrefs env : preserves same_pending (_savePrefs env).
Proof.
  apply (preserves_weaken same_heap); [apply same_heap_same_pending |].
  apply same_heap__savePrefs.
Qed.

Lemma same_pending_cleanupVersions env : preserves same_pending (cleanupVersions env).
Proof.
  apply (preserves_weaken housekeeping); [apply housekeeping_same_pending |].
  apply housekeeping_cleanupVersions.
Qed.

Lemma same_pending__isRunningVersion v : preserves same_pending (_isRunningVersion v).
Proof. intros w. reflexivity. Qed.

Lemma same_pending_setServerBasePath path :
  preserves same_pending (WebView_setServerBasePath_call path).
Proof. intros w. reflexivity. Qed.

#[local] Hint Resolve same_pending_emit same_pending__savePrefs
  same_pending_cleanupVersions same_pending__isRunningVersion
  same_pending_setServerBasePath : core.

(** [reloadApp] does nothing to [availableUpdate] but clear it when Ready,
    whether it returns or not. *)
Lemma reloadApp_pending env w :
  availableUpdate (prefs (snd (reloadApp env w)))
  = availableUpdate (commit_ready (prefs w)).
Proof.
  unfold reloadApp. rewrite bind_get_prefs.
  assert (Htail : forall (m : M bool) w1,
            preserves same_pending m ->
            availableUpdate (prefs (snd (m w1))) = availableUpdate (prefs w1))
    by (intros m w1 Hm; apply Hm).
  unfold commit_ready.
  destruct (availableUpdate (prefs w)) as [u |] eqn:Ha.
  - destruct (UpdateState_eqb (state u) Ready).
    + rewrite bind_bind, bind_modify_prefs, bind__savePrefs. cbn [prefs trace].
      destruct (native_setPreferences env (trace w) _); [| reflexivity].
      cbv beta. rewrite Htail; [reflexivity | preserves_auto].
    + rewrite bind_ret. rewrite Htail; [reflexivity | preserves_auto].
  - rewrite bind_ret. rewrite Htail; [reflexivity | preserves_auto].
Qed.

Lemma bind_same_heap {A B} (m : M A) (k : A -> M B) (Q : ISavedPreferences -> Prop) w :
  preserves same_heap m ->
  Q (prefs w) ->
  (forall a w1, prefs w1 = prefs w -> Q (prefs (snd (k a w1)))) ->
  Q (prefs (snd (bind m k w))).
Proof.
  intros Hm HQ Hk. unfold bind. destruct (Hm w) as [Hp _].
  destruct (m w) as [[a | e |] w1]; cbn [snd] in *.
  - now apply Hk.
  - now rewrite Hp.
  - now rewrite Hp.
Qed.

(** One step through a call that only talks to the collaborators. *)
Ltac io_step lem :=
  match goal with
  | |- context [snd ?X] => pattern (prefs (snd X))
  end;
  apply bind_same_heap; [lem | |].

(** [downloadUpdate] leaves the preferences as they were or, having
    downloaded an Available update, marks it Pending. *)
Lemma downloadUpdate_pending env depth progress w :
  prefs (snd (downloadUpdate env depth progress w)) = prefs w
  \/ exists u, availableUpdate (prefs w) = Some u
               /\ state u = Available
               /\ prefs (snd (downloadUpdate env depth progress w))
                  = with_availableUpdate (prefs w) (Some (with_state u Pending)).
Proof.
  unfold downloadUpdate. rewrite bind_get_prefs.
  destruct (availableUpdate (prefs w)) as [u |] eqn:Ha; [| now left].
  destruct (state u) eqn:Hs; cbn [UpdateState_eqb]; try now left.
  assert (HQ : forall p', p' = prefs w ->
            p' = prefs w
            \/ exists u0, Some u = Some u0 /\ state u0 = Available
                          /\ p' = with_availableUpdate (prefs w)
                                    (Some (with_state u0 Pending))) by (intros; now left).
  io_step ltac:(apply same_heap__fetchManifest); [now apply HQ |].
  intros fetched w1 E1.
  io_step ltac:(idtac); [| apply HQ; congruence |].
  { destruct (currentVersionId (prefs w)) as [cur |]; [| preserves_auto].
    destruct (JS.truthy cur); [apply same_heap_fetch_currentManifest | preserves_auto]. }
  intros currentManifestJson w2 E2. cbv zeta.
  io_step ltac:(apply same_heap__diffManifests); [apply HQ; congruence |].
  intros d w3 E3.
  io_step ltac:(apply same_heap_report); [apply HQ; congruence |].
  intros [] w4 E4.
  io_step ltac:(apply same_heap_prepareUpdateDirectory); [apply HQ; congruence |].
  intros d' w5 E5.
  io_step ltac:(apply same_heap__downloadFilesFromManifest); [apply HQ; congruence |].
  intros [] w6 E6.
  rewrite bind_modify_prefs, bind__savePrefs. cbn [prefs trace].
  assert (E : prefs w6 = prefs w) by congruence.
  rewrite E, Ha.
  right. exists u. split; [reflexivity |]. split; [exact Hs |].
  destruct (native_setPreferences env (trace w6) _); reflexivity.
Qed.

(** [extractUpdate] leaves the preferences as they were or marks a Pending
    update Ready and registers it. *)
Lemma extractUpdate_pending env progress w :
  prefs (snd (extractUpdate env progress w)) = prefs w
  \/ exists u, availableUpdate (prefs w) = Some u
               /\ state u = Pending
               /\ availableUpdate (prefs (snd (extractUpdate env progress w)))
                  = Some (with_state u Ready)
               /\ Obj.get (updates (prefs (snd (extractUpdate env progress w))))
                          (versionId u)
                  = Some (with_state u Ready).
Proof.
  unfold extractUpdate. rewrite bind_get_prefs.
  destruct (availableUpdate (prefs w)) as [u |] eqn:Ha; [| now left].
  destruct (state u) eqn:Hs; cbn [UpdateState_eqb negb]; try now left.
  right. exists u. split; [reflexivity |]. split; [exact Hs |].
  assert (Hgo : forall w1, prefs w1 = prefs w ->
            availableUpdate (prefs (snd ((modify_prefs (fun p =>
              let ready := with_state u Ready in
              with_updates (with_availableUpdate p (Some ready))
                           (Obj.set (updates p) (versionId ready) ready)) ;;
              _savePrefs env ;; ret true) w1))) = Some (with_state u Ready)
            /\ Obj.get (updates (prefs (snd ((modify_prefs (fun p =>
              let ready := with_state u Ready in
              with_updates (with_availableUpdate p (Some ready))
                           (Obj.set (updates p) (versionId ready) ready)) ;;
              _savePrefs env ;; ret true) w1)))) (versionId u)
               = Some (with_state u Ready)).
  { intros w1 E. rewrite bind_modify_prefs, bind__savePrefs. cbn [prefs trace].
    destruct (native_setPreferences env (trace w1) _); cbn;
      (split; [reflexivity | apply ObjFacts.get_set_same]). }
  destruct progress.
  - rewrite bind_emit. apply Hgo. reflexivity.
  - rewrite bind_ret. apply Hgo. reflexivity.
Qed.

(** [checkForUpdate] replaces [availableUpdate] by the update on offer,
    and leaves it as it was when there is none. *)
Lemma checkForUpdate_pending env w :
  availableUpdate (prefs (snd (checkForUpdate env w)))
  = match offer env w with
    | Some update => Some update
    | None => availableUpdate (prefs w)
    end.
Proof.
  unfold checkForUpdate, checkForUpdate_answered, offer. rewrite bind_ask. cbv zeta.
  destruct (navigator_onLine env (trace w)); cbn [negb]; [| reflexivity].
  rewrite bind_get_prefs, bind_call.
  destruct (fetch_check env (trace w) _) as [[status body] |]; [| reflexivity].
  destruct (status <? 500)%Z eqn:H500.
  - destruct body as [j |]; [| reflexivity]. rewrite bind_ret.
    destruct j as [r |];
      [| destruct ((200 <=? status) && (status <=? 299))%Z; reflexivity].
    destruct ((200 <=? status) && (status <=? 299))%Z; [| reflexivity].
    destruct (available r); [| reflexivity].
    destruct (resp_url r) as [u |]; [| reflexivity].
    destruct (snapshot r) as [s |]; [| reflexivity].
    destruct (build r) as [b |]; [| reflexivity].
    destruct (JS.truthy u && JS.truthy s && JS.truthy b); [| reflexivity].
    rewrite bind_ask, bind_modify_prefs, bind__savePrefs. cbn [prefs trace logged].
    destruct (native_setPreferences env _ _); reflexivity.
  - rewrite bind_ret.
    assert (E : ((200 <=? status) && (status <=? 299))%Z = false).
    { apply andb_false_iff. right. apply Z.leb_gt. apply Z.ltb_ge in H500. lia. }
    rewrite E. now destruct body as [[j |] |].
Qed.

Lemma UpdateState_eqb_eq a b : UpdateState_eqb a b = true <-> a = b.
Proof. destruct a, b; simpl; split; congruence. Qed.

Lemma advances_stage a a' : advances a a' -> stage a <= stage a'.
Proof. intros H. destruct H as [a | u H | u H | u H]; simpl; rewrite ?H; lia. Qed.

Lemma perform_step env op w : lifecycle_step env op w (perform env op w).
Proof.
  destruct op as [| depth progress | progress |]; cbn [perform lifecycle_step].
  - apply checkForUpdate_pending.
  - destruct (downloadUpdate_pending env depth progress w) as [H | (u & Ha & Hs & H)].
    + rewrite H. constructor.
    + rewrite H, Ha. cbn. now constructor.
  - destruct (extractUpdate_pending env progress w) as [H | (u & Ha & Hs & H & _)].
    + rewrite H. constructor.
    + rewrite H, Ha. now constructor.
  - rewrite reloadApp_pending. unfold commit_ready.
    destruct (availableUpdate (prefs w)) as [u |] eqn:Ha; [| rewrite Ha; constructor].
    destruct (UpdateState_eqb (state u) Ready) eqn:E; [| rewrite Ha; constructor].
    cbn. constructor. now apply UpdateState_eqb_eq.
Qed.

(** C2 (as the code has it): along every sequence of [checkForUpdate],
    [downloadUpdate], [extractUpdate] and [reloadApp], whether the calls
    succeed or fail, [downloadUpdate], [extractUpdate] and [reloadApp] leave
    [availableUpdate] where it is or move it one stage forward (Available
    to Pending, Pending to Ready, Ready to cleared); [checkForUpdate], when
    the service reports an available update with url, snapshot and build,
    puts a new record in state Available in its place, whatever was
    there, and leaves it as it was otherwise. *)
Theorem availableUpdate_lifecycle env ops : forall w, lifecycle env ops w.
Proof.
  induction ops as [| op ops IH]; intros w; cbn [lifecycle].
  - exact I.
  - split; [apply perform_step | apply IH].
Qed.

(** Without [checkForUpdate] in the sequence the stage never goes down. *)
Lemma stage_monotone_without_check env ops : forall w,
  ~ In CheckForUpdate ops ->
  stage (availableUpdate (prefs w))
  <= stage (availableUpdate (prefs (fold_left (fun w op => perform env op w) ops w))).
Proof.
  induction ops as [| op ops IH]; intros w Hno; cbn [fold_left]; [lia |].
  assert (Hop : op <> CheckForUpdate) by (intros ->; apply Hno; now left).
  assert (Hrest : ~ In CheckForUpdate ops) by (intros H; apply Hno; now right).
  specialize (IH (perform env op w) Hrest).
  pose proof (perform_step env op w) as H.
  destruct op; [contradiction | | |]; cbn [lifecycle_step] in H;
    apply advances_stage in H; lia.
Qed.

(** An update is offered, downloaded and extracted; a second check while
    v3 is Ready puts the offer back in state Available; a check without
    an offer would have left it Ready. *)
Lemma availableUpdate_lifecycle_witness :
  let env := Sample.collaborators true (Some "v3") in
  let w := Sample.world (Sample.preferences None [] None) "/www" in
  let ops := [CheckForUpdate; DownloadUpdate 2 false; ExtractUpdate false] in
  let w3 := fold_left (fun w op => perform env op w) ops w in
  lifecycle env (ops ++ [CheckForUpdate; ReloadApp]) w
  /\ option_map state (availableUpdate (prefs w3)) = Some Ready
  /\ option_map state (offer env w3) = Some Available
  /\ option_map state (availableUpdate (prefs (perform env CheckForUpdate w3)))
     = Some Available
  /\ offer Sample.env w3 = None
  /\ option_map state (availableUpdate (prefs (perform Sample.env CheckForUpdate w3)))
     = Some Ready.
Proof.
  intros env w ops w3.
  split; [apply (availableUpdate_lifecycle env) |].
  repeat split; reflexivity.
Defined.

(** C2 as stated fails: an update that is Ready is taken back to Available
    by [checkForUpdate] when the service offers an update. *)
Lemma checkForUpdate_regresses_counterexample :
  let env := Sample.collaborators true (Some "v3") in
  let ready := Sample.update "v2" "2020-01-02T00:00:00.000Z" Ready in
  let w := Sample.world (Sample.preferences (Some "v1") [ready] (Some ready)) "/www" in
  let w' := perform env CheckForUpdate w in
  option_map state (availableUpdate (prefs w)) = Some Ready
  /\ option_map state (availableUpdate (prefs w')) = Some Available
  /\ stage (availableUpdate (prefs w')) < stage (availableUpdate (prefs w)).
Proof. vm_compute. repeat split; lia. Qed.

(* ================================================================= *)
(** ** Committing a Ready update *)

(** C4 (as the code has it): when [availableUpdate] is Ready and
    [reloadApp] returns, the current version and build are those of the
    update, [availableUpdate] is cleared, and [updates] holds under the
    update's version id what it held before the call (the committed record,
    where [extractUpdate] put it and nothing removed it since).  A later
    [reloadApp] on these preferences, with the webview serving the
    committed version, returns false, redirects nothing and leaves the
    current version, the build and the cleared [availableUpdate] as they
    are. *)
Theorem reloadApp_commits_once env w u b w1 :
  availableUpdate (prefs w) = Some u ->
  state u = Ready ->
  reloadApp env w = (Returned b, w1) ->
  (currentVersionId (prefs w1) = Some (versionId u)
   /\ currentBuildId (prefs w1) = Some (buildId u)
   /\ availableUpdate (prefs w1) = None
   /\ Obj.get (updates (prefs w1)) (versionId u)
      = Obj.get (updates (prefs w)) (versionId u))
  /\ forall w2 b' w3,
       prefs w2 = prefs w1 ->
       serving (versionId u) w2 ->
       reloadApp env w2 = (Returned b', w3) ->
       b' = false
       /\ serverBasePath w3 = serverBasePath w2
       /\ currentVersionId (prefs w3) = Some (versionId u)
       /\ currentBuildId (prefs w3) = Some (buildId u)
       /\ availableUpdate (prefs w3) = None.
Proof.
  intros Ha Hs H1.
  assert (Hc : commit_ready (prefs w)
               = with_availableUpdate
                   (with_current (prefs w) (Some (versionId u)) (Some (buildId u))) None).
  { unfold commit_ready. now rewrite Ha, Hs. }
  assert (First : currentVersionId (prefs w1) = Some (versionId u)
                  /\ currentBuildId (prefs w1) = Some (buildId u)
                  /\ availableUpdate (prefs w1) = None
                  /\ Obj.get (updates (prefs w1)) (versionId u)
                     = Obj.get (updates (prefs w)) (versionId u)).
  { destruct (reloadApp_returned env w b w1 H1) as (evs & T & [L | R]).
    - destruct L as (_ & _ & Hp & _). rewrite Hp, Hc. repeat split.
    - destruct R as (_ & _ & _ & _ & _ & Hav & Hbuild & Hcur).
      rewrite Hc in *. destruct (Hcur (versionId u) eq_refl) as [Hcur1 Hget].
      repeat split; auto. }
  split; [exact First |].
  destruct First as (Hcur1 & Hbuild1 & Hav1 & _).
  intros w2 b' w3 Hp2 Hserv H2.
  assert (Hc2 : commit_ready (prefs w2) = prefs w2).
  { unfold commit_ready. now rewrite Hp2, Hav1. }
  destruct (reloadApp_returned env w2 b' w3 H2) as (evs & T & [L | R]).
  - exfalso. destruct L as (Hm & _). rewrite Hc2 in Hm. unfold must_redirect in Hm.
    destruct Hserv as [Hcur2 Hinc]. rewrite Hcur2, Hinc in Hm.
    rewrite andb_false_r in Hm. discriminate.
  - destruct R as (_ & -> & Hbase & _ & _ & Hav & Hbuild & Hcur).
    rewrite Hc2 in *. rewrite Hp2 in *.
    destruct (Hcur (versionId u) Hcur1) as [Hcur3 _].
    repeat split; auto; congruence.
Qed.

(** An update is extracted, then committed by a first reload that
    redirects the webview to its snapshot; the second reload, served from
    that snapshot, returns false. *)
Lemma reloadApp_commits_once_witness :
  let ready := Sample.update "v2" "2020-01-02T00:00:00.000Z" Ready in
  let w := Sample.world (Sample.preferences None [ready] (Some ready)) "/www" in
  let w1 := snd (reloadApp Sample.env w) in
  (currentVersionId (prefs w1) = Some "v2"
   /\ currentBuildId (prefs w1) = Some "b-v2"
   /\ availableUpdate (prefs w1) = None
   /\ Obj.get (updates (prefs w1)) "v2" = Obj.get (updates (prefs w)) "v2")
  /\ fst (reloadApp Sample.env w1) = Returned false.
Proof.
  intros ready w w1.
  destruct (reloadApp_commits_once Sample.env w ready true w1
              eq_refl eq_refl eq_refl) as [First Second].
  split; [exact First |].
  destruct (reloadApp Sample.env w1) as [r w3] eqn:E.
  assert (r = Returned false) as -> by (vm_compute in E; congruence).
  reflexivity.
Defined.

(** C4 as stated fails: an update is extracted, its version is deleted
    with [deleteVersionById], and [reloadApp] then commits it all the same:
    it becomes the current version while [updates] holds no record of it. *)
Lemma reloadApp_commits_missing_counterexample :
  let w0 := Sample.world
              (Sample.preferences None []
                 (Some (Sample.update "v2" "2020-01-02T00:00:00.000Z" Pending)))
              "/www" in
  let w1 := snd (extractUpdate Sample.env false w0) in
  let w2 := snd (deleteVersionById Sample.env "v2" w1) in
  let w3 := snd (reloadApp Sample.env w2) in
  option_map state (availableUpdate (prefs w2)) = Some Ready
  /\ fst (reloadApp Sample.env w2) = Returned false
  /\ currentVersionId (prefs w3) = Some "v2"
  /\ availableUpdate (prefs w3) = None
  /\ Obj.get (updates (prefs w3)) "v2" = None.
Proof. vm_compute. repeat split. Qed.

(* ================================================================= *)
(** ** Eviction by last use *)

Lemma localeCompare_trans x y z :
  JS.localeCompare x y = Lt -> JS.localeCompare y z = Lt -> JS.localeCompare x z = Lt.
Proof.
  unfold JS.localeCompare. intros H1 H2.
  apply String_as_OT.cmp_lt. apply String_as_OT.cmp_lt in H1, H2.
  eapply String_as_OT.lt_trans; eauto.
Qed.

Lemma localeCompare_flip x y : JS.localeCompare x y = Lt -> JS.localeCompare y x = Gt.
Proof.
  unfold JS.localeCompare. intros H. rewrite String.compare_antisym, H. reflexivity.
Qed.

Lemma localeCompare_Lt_neq x y : JS.localeCompare x y = Lt -> x <> y.
Proof.
  unfold JS.localeCompare. intros H E. subst y.
  assert (String.compare x x = Eq) by (now apply String_as_OT.cmp_eq).
  congruence.
Qed.

Lemma Permutation_three {A} (l : list A) a b c :
  Permutation l [a; b; c] ->
  l = [a; b; c] \/ l = [a; c; b] \/ l = [b; a; c]
  \/ l = [b; c; a] \/ l = [c; a; b] \/ l = [c; b; a].
Proof.
  intros P. pose proof (Permutation_length P) as L.
  destruct l as [| x [| y [| z [| ? ?]]]]; try discriminate.
  assert (Hx : In x [a; b; c]) by (eapply Permutation_in; [exact P | now left]).
  destruct Hx as [<- | [<- | [<- | []]]].
  - apply Permutation_cons_inv, Permutation_length_2 in P.
    destruct P as [[-> ->] | [-> ->]]; tauto.
  - assert (P' : Permutation (b :: [y; z]) (b :: [a; c])).
    { eapply perm_trans; [exact P | apply perm_swap]. }
    apply Permutation_cons_inv, Permutation_length_2 in P'.
    destruct P' as [[-> ->] | [-> ->]]; tauto.
  - assert (P' : Permutation (c :: [y; z]) (c :: [a; b])).
    { eapply perm_trans; [exact P |].
      apply Permutation_sym. apply (Permutation_cons_append [a; b] c). }
    apply Permutation_cons_inv, Permutation_length_2 in P'.
    destruct P' as [[-> ->] | [-> ->]]; tauto.
Qed.

(** With no update built for another binary, [cleanupStaleVersions] does
    nothing at all. *)
Lemma cleanupStaleVersions_nothing_stale env w :
  forallb (isUpdateForCurrentBinary (prefs w)) (getStoredUpdates (prefs w)) = true ->
  cleanupStaleVersions env w = (Returned tt, w).
Proof.
  unfold cleanupStaleVersions. rewrite bind_get_prefs.
  induction (getStoredUpdates (prefs w)) as [| u l IH]; cbn [forallb forM_].
  - reflexivity.
  - intros H. apply andb_true_iff in H. destruct H as [Hu Hl].
    rewrite bind_bind, bind_get_prefs, Hu. cbn [negb]. rewrite bind_ret. now apply IH.
Qed.

Lemma stored_update_keyed p u :
  forallb (fun kv => String.eqb (fst kv) (versionId (snd kv))) (updates p) = true ->
  In u (getStoredUpdates p) ->
  Obj.get (updates p) (versionId u) = Some u.
Proof.
  intros Hk Hin. unfold getStoredUpdates in Hin. apply in_flat_map in Hin.
  destruct Hin as (k & _ & Hin).
  destruct (Obj.get (updates p) k) as [u' |] eqn:G; [| destruct Hin].
  destruct Hin as [-> | []].
  pose proof (ObjFacts.get_In _ _ _ G) as I.
  rewrite forallb_forall in Hk. specialize (Hk _ I). cbn in Hk.
  apply String.eqb_eq in Hk. now subst k.
Qed.

(** C7: with [maxVersions] 2, no update built for another binary, and
    three installed updates other than the current one, [a], [b] and [c]
    from the least to the most recently used, a [cleanupVersions] that
    returns has deleted [a] from [updates] and nothing else: [b] and [c],
    the two most recently used, remain, and so does the current version. *)
Theorem cleanupVersions_keeps_two_most_recent env w w' a b c :
  maxVersions (prefs w) = 2%Z ->
  keyed_by_versionId (updates (prefs w)) ->
  forallb (isUpdateForCurrentBinary (prefs w)) (getStoredUpdates (prefs w)) = true ->
  Permutation
    (filter (fun u => negb (isUpdateCurrentlyInstalled (prefs w) u))
            (getStoredUpdates (prefs w)))
    [a; b; c] ->
  JS.localeCompare (lastUsed a) (lastUsed b) = Lt ->
  JS.localeCompare (lastUsed b) (lastUsed c) = Lt ->
  cleanupVersions env w = (Returned tt, w') ->
  updates (prefs w') = Obj.delete (updates (prefs w)) (versionId a)
  /\ Obj.get (updates (prefs w')) (versionId a) = None
  /\ Obj.get (updates (prefs w')) (versionId b) = Some b
  /\ Obj.get (updates (prefs w')) (versionId c) = Some c
  /\ currentVersionId (prefs w') = currentVersionId (prefs w)
  /\ forall v, currentVersionId (prefs w) = Some v ->
               Obj.get (updates (prefs w')) v = Obj.get (updates (prefs w)) v.
Proof.
  intros Hmax Hkey Hstale Hperm Hab Hbc Hrun.
  pose proof (localeCompare_trans _ _ _ Hab Hbc) as Hac.
  pose proof (localeCompare_flip _ _ Hab) as Hba.
  pose proof (localeCompare_flip _ _ Hbc) as Hcb.
  pose proof (localeCompare_flip _ _ Hac) as Hca.
  (* the three updates are registered under their own, distinct, ids *)
  assert (Hin : forall u, In u [a; b; c] ->
                  Obj.get (updates (prefs w)) (versionId u) = Some u
                  /\ isUpdateCurrentlyInstalled (prefs w) u = false).
  { intros u Hu. apply (Permutation_in _ (Permutation_sym Hperm)) in Hu.
    apply filter_In in Hu. destruct Hu as [Hu Hn]. split.
    - now apply stored_update_keyed.
    - now apply negb_true_iff in Hn. }
  destruct (Hin a) as [Ga Na]; [cbn; tauto |].
  destruct (Hin b) as [Gb Nb]; [cbn; tauto |].
  destruct (Hin c) as [Gc Nc]; [cbn; tauto |].
  assert (Hab' : versionId a <> versionId b).
  { intros E. rewrite E, Gb in Ga. inversion Ga; subst.
    now apply localeCompare_Lt_neq in Hab. }
  assert (Hac' : versionId a <> versionId c).
  { intros E. rewrite E, Gc in Ga. inversion Ga; subst.
    now apply localeCompare_Lt_neq in Hac. }
  (* the list of updates to delete is [a] alone *)
  unfold cleanupVersions in Hrun.
  rewrite (bind_returned _ _ _ _ _ (cleanupStaleVersions_nothing_stale env w Hstale)) in Hrun.
  rewrite bind_get_prefs, Hmax in Hrun.
  assert (Hsort : JS.sort (fun x y => JS.localeCompare (lastUsed x) (lastUsed y))
                    (filter (fun u => negb (isUpdateCurrentlyInstalled (prefs w) u))
                            (getStoredUpdates (prefs w)))
                  = [a; b; c]).
  { destruct (Permutation_three _ _ _ _ Hperm) as [E | [E | [E | [E | [E | E]]]]];
      rewrite E; cbn [JS.sort fold_right JS.insert];
      rewrite ?Hab, ?Hbc, ?Hac, ?Hba, ?Hcb, ?Hca; cbn [JS.insert];
      rewrite ?Hab, ?Hbc, ?Hac, ?Hba, ?Hcb, ?Hca; reflexivity. }
  rewrite Hsort in Hrun.
  change (JS.slice_from 2 (rev [a; b; c])) with [a] in Hrun.
  cbn [forM_] in Hrun. rewrite bind_bind in Hrun.
  pose proof (deleteVersionById_run env (versionId a) w) as D.
  destruct (native_setPreferences env (trace w) (prefs (removed w (versionId a))));
    [| rewrite (bind_thrown _ _ _ _ _ D) in Hrun; discriminate].
  rewrite (bind_returned _ _ _ _ _ D) in Hrun.
  autorewrite with run in Hrun. injection Hrun as <-.
  rewrite !prefs_logged. unfold removed.
  cbn [prefs updates with_updates currentVersionId].
  split; [reflexivity |].
  split; [apply ObjFacts.get_delete_same |].
  split; [now rewrite ObjFacts.get_delete_other |].
  split; [now rewrite ObjFacts.get_delete_other |].
  split; [reflexivity |].
  intros v Hv. apply ObjFacts.get_delete_other.
  unfold isUpdateCurrentlyInstalled in Na. rewrite Hv in Na.
  intros E. rewrite E, String.eqb_refl in Na. discriminate.
Qed.

(** Four installed versions, the current one the oldest: of the other
    three, the one used on 2 January goes, those of 3 and 4 January stay. *)
Lemma cleanupVersions_keeps_two_most_recent_witness :
  let u1 := Sample.update "v1" "2020-01-01T00:00:00.000Z" Ready in
  let u2 := Sample.update "v2" "2020-01-02T00:00:00.000Z" Ready in
  let u3 := Sample.update "v3" "2020-01-03T00:00:00.000Z" Ready in
  let u4 := Sample.update "v4" "2020-01-04T00:00:00.000Z" Ready in
  let w := Sample.world (Sample.preferences (Some "v1") [u3; u1; u4; u2] None)
                        "/data/ionic_built_snapshots/v1" in
  let w' := snd (cleanupVersions Sample.env w) in
  updates (prefs w') = Obj.delete (updates (prefs w)) "v2"
  /\ Obj.get (updates (prefs w')) "v2" = None
  /\ Obj.get (updates (prefs w')) "v3" = Some u3
  /\ Obj.get (updates (prefs w')) "v4" = Some u4
  /\ currentVersionId (prefs w') = currentVersionId (prefs w)
  /\ forall v, currentVersionId (prefs w) = Some v ->
               Obj.get (updates (prefs w')) v = Obj.get (updates (prefs w)) v.
Proof.
  intros u1 u2 u3 u4 w w'.
  apply (cleanupVersions_keeps_two_most_recent Sample.env w w' u2 u3 u4);
    try reflexivity.
  apply Permutation_sym. exact (Permutation_cons_append [u3; u4] u2).
Defined.

(* ================================================================= *)
(** ** When the native store accepts every save *)

Section ReliableStore.

Variable env : Env.
Hypothesis saves : forall t p, native_setPreferences env t p = true.

Lemma deleteVersionById_returns v w :
  exists w', deleteVersionById env v w = (Returned true, w').
Proof. rewrite deleteVersionById_run, saves. eauto. Qed.

Lemma forM__returns {A} (f : A -> M unit) (l : list A) :
  (forall a w, exists w', f a w = (Returned tt, w')) ->
  forall w, exists w', forM_ l f w = (Returned tt, w').
Proof.
  intros Hf. induction l as [| x l IH]; intros w; cbn [forM_].
  - now exists w.
  - destruct (Hf x w) as (w1 & H1). rewrite (bind_returned _ _ _ _ _ H1). apply IH.
Qed.

Lemma cleanupStaleVersions_returns w :
  exists w', cleanupStaleVersions env w = (Returned tt, w').
Proof.
  unfold cleanupStaleVersions. rewrite bind_get_prefs. apply forM__returns.
  intros u w1. rewrite bind_get_prefs.
  destruct (negb (isUpdateForCurrentBinary (prefs w1) u)); [| now exists w1].
  rewrite bind__isRunningVersion.
  destruct (negb (JS.includes (serverBasePath w1) (versionId u))); [| now exists w1].
  destruct (isUpdateCurrentlyInstalled (prefs w1) u).
  - rewrite bind_modify_prefs.
    match goal with
    | |- exists w', bind _ _ ?w0 = _ =>
        destruct (deleteVersionById_returns (versionId u) w0) as (w2 & H2)
    end.
    rewrite (bind_returned _ _ _ _ _ H2). now exists w2.
  - rewrite bind_ret.
    destruct (deleteVersionById_returns (versionId u) w1) as (w2 & H2).
    rewrite (bind_returned _ _ _ _ _ H2). now exists w2.
Qed.

Lemma cleanupVersions_returns w :
  exists w', cleanupVersions env w = (Returned tt, w').
Proof.
  unfold cleanupVersions.
  destruct (cleanupStaleVersions_returns w) as (w1 & H1).
  rewrite (bind_returned _ _ _ _ _ H1), bind_get_prefs. apply forM__returns.
  intros u w2. destruct (deleteVersionById_returns (versionId u) w2) as (w3 & H3).
  rewrite (bind_returned _ _ _ _ _ H3). now exists w3.
Qed.

(** [reloadApp] then returns, whatever the preferences and the webview. *)
Lemma reloadApp_returns w : exists b w', reloadApp env w = (Returned b, w').
Proof.
  assert (Htail : forall w1, exists b w',
            (p <- get_prefs ;;
             match currentVersionId p with
             | Some current =>
                 if JS.truthy current then
                   running <- _isRunningVersion current ;;
                   if running then
                     _savePrefs env ;;
                     emit OnIonicProReady_fire ;;
                     emit WebView_persistServerBasePath ;;
                     cleanupVersions env ;;
                     ret false
                   else if negb (Obj.has (updates p) current) then
                     emit (Console_error_missing current) ;;
                     emit OnIonicProReady_fire ;;
                     ret false
                   else
                     let newLocation := getSnapshotCacheDir env current in
                     WebView_setServerBasePath_call newLocation ;;
                     ret true
                 else
                   emit OnIonicProReady_fire ;; ret false
             | None =>
                 emit OnIonicProReady_fire ;; ret false
             end) w1 = (Returned b, w')).
  { intros w1. rewrite bind_get_prefs.
    destruct (currentVersionId (prefs w1)) as [c |];
      [| autorewrite with run; do 2 eexists; reflexivity].
    destruct (JS.truthy c); [| autorewrite with run; do 2 eexists; reflexivity].
    rewrite bind__isRunningVersion.
    destruct (JS.includes (serverBasePath w1) c).
    - rewrite bind__savePrefs, saves. autorewrite with run.
      match goal with
      | |- exists b w', bind _ _ ?w0 = _ =>
          destruct (cleanupVersions_returns w0) as (w2 & H2)
      end.
      rewrite (bind_returned _ _ _ _ _ H2). do 2 eexists; reflexivity.
    - destruct (negb (Obj.has (updates (prefs w1)) c));
        [autorewrite with run; do 2 eexists; reflexivity |].
      cbv zeta. unfold WebView_setServerBasePath_call, bind. do 2 eexists; reflexivity. }
  unfold reloadApp. rewrite bind_get_prefs.
  destruct (availableUpdate (prefs w)) as [u |].
  - destruct (UpdateState_eqb (state u) Ready).
    + rewrite bind_bind, bind_modify_prefs, bind__savePrefs, saves. apply Htail.
    + rewrite bind_ret. apply Htail.
  - rewrite bind_ret. apply Htail.
Qed.

End ReliableStore.

(* ================================================================= *)
(** ** What reloadApp returns *)

(** [reloadApp] is the commit of a Ready update, and then [reloadApp] with
    nothing to commit; it is rejected when the store refuses the commit. *)
Lemma reloadApp_commit env w :
  reloadApp env w
  = if commit_accepted env w then reloadApp env (committed w)
    else (Thrown "setPreferences", committed w).
Proof.
  unfold commit_accepted, committed, commit_ready.
  destruct (availableUpdate (prefs w)) as [u |] eqn:Ha; [| reflexivity].
  destruct (UpdateState_eqb (state u) Ready) eqn:Hs; [| reflexivity].
  unfold reloadApp at 1. rewrite bind_get_prefs, Ha, Hs.
  rewrite bind_bind, bind_modify_prefs, bind__savePrefs. cbn [prefs trace].
  destruct (native_setPreferences env (trace w) _); [| reflexivity].
  match goal with |- _ = reloadApp env ?x => set (w1 := x) end.
  assert (H1 : availableUpdate (prefs w1) = None) by reflexivity.
  match goal with |- ?l = _ => set (run := l) end.
  unfold reloadApp. now rewrite bind_get_prefs, H1, bind_ret.
Qed.

(** With nothing to commit, [reloadApp] redirects when it must. *)
Lemma reloadApp_redirects env w :
  committed w = w ->
  must_redirect (prefs w) (serverBasePath w) = true ->
  exists c,
    currentVersionId (prefs w) = Some c
    /\ reloadApp env w
       = (Returned true,
          {| prefs := prefs w;
             serverBasePath := getSnapshotCacheDir env c;
             trace := (trace w ++ [WebView_setServerBasePath
                                     (getSnapshotCacheDir env c)])%list |}).
Proof.
  intros Hw Hm. unfold must_redirect in Hm.
  destruct (currentVersionId (prefs w)) as [c |] eqn:Hc; [| discriminate].
  apply andb_true_iff in Hm as [Hm Hhas]. apply andb_true_iff in Hm as [Ht Hrun].
  apply negb_true_iff in Hrun.
  exists c. split; [reflexivity |].
  unfold reloadApp. rewrite bind_get_prefs.
  assert (Hskip : (match availableUpdate (prefs w) with
                   | Some update =>
                       if UpdateState_eqb (state update) Ready
                       then modify_prefs (fun p =>
                              with_availableUpdate
                                (with_current p (Some (versionId update))
                                              (Some (buildId update))) None) ;;
                            _savePrefs env
                       else ret tt
                   | None => ret tt
                   end) = ret tt).
  { unfold committed in Hw. destruct (availableUpdate (prefs w)) as [u |]; [| reflexivity].
    destruct (UpdateState_eqb (state u) Ready); [| reflexivity].
    exfalso. apply (f_equal (fun x => List.length (trace x))) in Hw.
    rewrite trace_logged, length_app in Hw. cbn in Hw. lia. }
  rewrite Hskip, bind_ret, bind_get_prefs, Hc, Ht, bind__isRunningVersion, Hrun, Hhas.
  reflexivity.
Qed.

Lemma committed_committed w : committed (committed w) = committed w.
Proof.
  assert (H : match availableUpdate (prefs (committed w)) with
              | Some u => UpdateState_eqb (state u) Ready
              | None => false
              end = false).
  { unfold committed, commit_ready.
    destruct (availableUpdate (prefs w)) as [u |] eqn:Ha; [| now rewrite Ha].
    destruct (UpdateState_eqb (state u) Ready) eqn:Hs; [reflexivity |].
    now rewrite Ha, Hs. }
  unfold committed at 1.
  destruct (availableUpdate (prefs (committed w))) as [u |]; [now rewrite H | reflexivity].
Qed.

Lemma prefs_committed w : prefs (committed w) = commit_ready (prefs w).
Proof.
  unfold committed, commit_ready. destruct (availableUpdate (prefs w)) as [u |]; auto.
  now destruct (UpdateState_eqb (state u) Ready).
Qed.

Lemma serverBasePath_committed w : serverBasePath (committed w) = serverBasePath w.
Proof.
  unfold committed. destruct (availableUpdate (prefs w)) as [u |]; auto.
  now destruct (UpdateState_eqb (state u) Ready).
Qed.




(* ================================================================= *)
(** ** Runs on concrete inputs *)

Example Path_join_snapshot :
  Path.join ["file:///data/"; SNAPSHOT_CACHE; "/v1"] = "file:///data/ionic_built_snapshots/v1".
Proof. reflexivity. Qed.

Example JSON_stringify_entry :
  JSON.stringify Sample.index_html
  = "{" ++ JSON.quote "href" ++ ":" ++ JSON.quote "index.html" ++ ","
        ++ JSON.quote "size" ++ ":10}".
Proof. reflexivity. Qed.

Example includes_is_substring :
  JS.includes "/data/ionic_built_snapshots/v10" "v1" = true
  /\ JS.includes "/www" "v1" = false.
Proof. split; reflexivity. Qed.

Example replace_first_occurrence :
  JS.replace "https://api/snapshots/v2/manifest.json" "v2" "v1"
  = "https://api/snapshots/v1/manifest.json".
Proof. reflexivity. Qed.

(** A first reload with a Ready update redirects to its snapshot. *)
Example reloadApp_redirects_to_snapshot :
  let ready := Sample.update "v2" "2020-01-02T00:00:00.000Z" Ready in
  let w := Sample.world (Sample.preferences None [ready] (Some ready)) "/www" in
  fst (reloadApp Sample.env w) = Returned true
  /\ serverBasePath (snd (reloadApp Sample.env w)) = "/data/ionic_built_snapshots/v2"
  /\ trace (snd (reloadApp Sample.env w))
     = [Exec_setPreferences (prefs (snd (reloadApp Sample.env w)));
        WebView_setServerBasePath "/data/ionic_built_snapshots/v2"].
Proof. vm_compute. repeat split. Qed.

(** The whole pipeline on an offered update: check, download, extract. *)
Example pipeline_reaches_Ready :
  let env := Sample.collaborators true (Some "v2") in
  let w := Sample.world (Sample.preferences None [] None) "/www" in
  let w' := fold_left (fun w op => perform env op w)
                      [CheckForUpdate; DownloadUpdate 2 false; ExtractUpdate false] w in
  option_map state (availableUpdate (prefs w')) = Some Ready
  /\ Obj.has (updates (prefs w')) "v2" = true.
Proof. vm_compute. split; reflexivity. Qed.

(** Ten files are one batch, although the log would announce two. *)
Example ten_files_one_batch :
  batches_awaited
    (trace (snd (_downloadFilesFromManifest Sample.env "https://cdn/"
                   (repeat Sample.index_html 10) "v2" 0 100 false
                   (Sample.world (Sample.preferences None [] None) "/www"))))
  = [10].
Proof. vm_compute. reflexivity. Qed.

(* ================================================================= *)
(** ** Path.join *)

Lemma append_assoc (a b c : string) : (a ++ b) ++ c = a ++ (b ++ c).
Proof. induction a as [| x a IH]; simpl; [reflexivity | now rewrite IH]. Qed.

Lemma append_nil_r (a : string) : a ++ "" = a.
Proof. induction a as [| x a IH]; simpl; [reflexivity | now rewrite IH]. Qed.

Lemma slice_last_app a c r :
  JS.slice_last (a ++ String c r) = JS.slice_last (String c r).
Proof.
  induction a as [| x a IH]; [reflexivity |].
  change (String x a ++ String c r) with (String x (a ++ String c r)).
  destruct a as [| y a]; [reflexivity |].
  exact IH.
Qed.

Lemma truthy_app_r a b : JS.truthy b = true -> JS.truthy (a ++ b) = true.
Proof. destruct a; simpl; auto. Qed.

Lemma truthy_cons s : JS.truthy s = true -> exists c r, s = String c r.
Proof. destruct s as [| c r]; [discriminate | eauto]. Qed.

(** Joining onto a path that does not end in a slash a segment that does
    not start with one puts one slash between them. *)
Lemma join_step_bare a p :
  JS.truthy a = true ->
  String.eqb (JS.slice_last a) "/" = false ->
  String.eqb (JS.slice_0_1 p) "/" = false ->
  Path.join_step a p = a ++ "/" ++ p.
Proof.
  intros Ha Hl Hp. unfold Path.join_step. rewrite Ha, Hl, Hp. cbn [andb negb].
  now rewrite append_assoc.
Qed.

Lemma fold_join_bare rest : forall acc,
  JS.truthy acc = true ->
  String.eqb (JS.slice_last acc) "/" = false ->
  forallb bare_segment rest = true ->
  fold_left Path.join_step rest acc = String.concat "/" (acc :: rest).
Proof.
  induction rest as [| s rest IH]; intros acc Ha Hl Hrest; [reflexivity |].
  cbn [forallb] in Hrest. apply andb_true_iff in Hrest. destruct Hrest as [Hs Hrest].
  unfold bare_segment in Hs. apply andb_true_iff in Hs. destruct Hs as [Hs Hs3].
  apply andb_true_iff in Hs. destruct Hs as [Hs1 Hs2].
  apply negb_true_iff in Hs2, Hs3.
  cbn [fold_left]. rewrite (join_step_bare acc s Ha Hl Hs2).
  destruct (truthy_cons s Hs1) as (c & r & ->).
  rewrite IH; [| | | exact Hrest].
  - cbn [String.concat]. destruct rest as [| t rest]; [reflexivity |].
    now rewrite !append_assoc.
  - apply truthy_app_r. reflexivity.
  - change ("/" ++ String c r) with (String "/" (String c r)).
    rewrite (slice_last_app acc "/" (String c r)).
    exact Hs3.
Qed.

(** X1: Segments that are not empty and carry no slash at either end are joined
    with exactly one slash between neighbours. *)
Theorem Path_join_bare_segments (paths : list string) :
  forallb bare_segment paths = true ->
  Path.join paths = String.concat "/" paths.
Proof.
  destruct paths as [| p rest]; [reflexivity |].
  intros H. cbn [forallb] in H. apply andb_true_iff in H. destruct H as [Hp Hrest].
  unfold bare_segment in Hp. apply andb_true_iff in Hp. destruct Hp as [Hp Hp3].
  apply andb_true_iff in Hp. destruct Hp as [Hp1 _]. apply negb_true_iff in Hp3.
  cbn [Path.join]. now apply fold_join_bare.
Qed.

Lemma Path_join_bare_segments_witness :
  Path.join ["data"; SNAPSHOT_CACHE; "v1"] = String.concat "/" ["data"; SNAPSHOT_CACHE; "v1"].
Proof. apply (Path_join_bare_segments ["data"; SNAPSHOT_CACHE; "v1"]). reflexivity. Defined.

Lemma slice_last_slash a : JS.slice_last (a ++ "/") = "/".
Proof. apply (slice_last_app a "/" ""). Qed.

(** X2: A slash that ends the left part or starts the right part is not
    doubled: with or without them, the two parts are joined by one slash. *)
Theorem Path_join_one_separator (a p : string) :
  JS.truthy a = true ->
  String.eqb (JS.slice_last a) "/" = false ->
  String.eqb (JS.slice_0_1 p) "/" = false ->
  Path.join [a; p] = a ++ "/" ++ p
  /\ Path.join [a ++ "/"; p] = a ++ "/" ++ p
  /\ Path.join [a; "/" ++ p] = a ++ "/" ++ p
  /\ Path.join [a ++ "/"; "/" ++ p] = a ++ "/" ++ p.
Proof.
  intros Ha Hl Hp. cbn [Path.join fold_left]. unfold Path.join_step.
  rewrite Ha, Hl, Hp, slice_last_slash, (truthy_app_r a "/" eq_refl).
  cbn [andb negb JS.slice_0_1 JS.slice_1 String.eqb Ascii.eqb Bool.eqb append].
  rewrite !append_assoc. cbn [append]. repeat split; reflexivity.
Qed.

Lemma Path_join_one_separator_witness :
  Path.join ["file:///data"; "v1"] = "file:///data" ++ "/" ++ "v1"
  /\ Path.join ["file:///data" ++ "/"; "v1"] = "file:///data" ++ "/" ++ "v1"
  /\ Path.join ["file:///data"; "/" ++ "v1"] = "file:///data" ++ "/" ++ "v1"
  /\ Path.join ["file:///data" ++ "/"; "/" ++ "v1"] = "file:///data" ++ "/" ++ "v1".
Proof. apply (Path_join_one_separator "file:///data" "v1"); reflexivity. Defined.

(* ================================================================= *)
(** ** JSON.stringify tells manifest entries apart *)

Lemma unescape_escape_char c rest :
  unescape_char (JSON.escape_char c ++ rest) = Some (c, rest).
Proof.
  destruct c as [b0 b1 b2 b3 b4 b5 b6 b7].
  destruct b0, b1, b2, b3, b4, b5, b6, b7; reflexivity.
Qed.

Lemma escape_char_not_quote c rest rest' :
  JSON.escape_char c ++ rest <> String (ascii_of_nat 34) rest'.
Proof.
  intros H. pose proof (unescape_escape_char c rest) as U. rewrite H in U.
  cbn in U. injection U as <- _. discriminate.
Qed.

(** The body of a quoted string ends at the first quote that is not
    escaped. *)
Lemma escape_terminated a : forall b r r',
  JSON.escape a ++ JSON.dquote ++ r = JSON.escape b ++ JSON.dquote ++ r' ->
  a = b /\ r = r'.
Proof.
  induction a as [| c a IH]; intros b r r' H.
  - destruct b as [| d b].
    + cbn in H. injection H as H. now split.
    + cbn [JSON.escape] in H. rewrite append_assoc in H. symmetry in H.
      now apply escape_char_not_quote in H.
  - destruct b as [| d b].
    + cbn [JSON.escape] in H. rewrite append_assoc in H.
      now apply escape_char_not_quote in H.
    + cbn [JSON.escape] in H. rewrite !append_assoc in H.
      pose proof (f_equal unescape_char H) as U.
      rewrite !unescape_escape_char in U. injection U as -> U.
      apply IH in U. destruct U as [-> ->]. now split.
Qed.

Lemma append_inv_tail (a b t : string) : a ++ t = b ++ t -> a = b.
Proof.
  assert (L : forall x y : string, String.length (x ++ y) = (String.length x + String.length y)%nat).
  { intros x y. induction x as [| c x IHx]; simpl; [reflexivity | now rewrite IHx]. }
  revert b. induction a as [| c a IH]; intros b H.
  - destruct b as [| d b]; [reflexivity |].
    apply (f_equal String.length) in H. rewrite !L in H. simpl in H. lia.
  - destruct b as [| d b].
    + apply (f_equal String.length) in H. rewrite !L in H. simpl in H. lia.
    + simpl in H. injection H as -> H. f_equal. now apply IH.
Qed.

Lemma to_int_not_nil z :
  Z.to_int z <> Decimal.Pos Decimal.Nil /\ Z.to_int z <> Decimal.Neg Decimal.Nil.
Proof.
  destruct z as [| p | p]; cbn; split; try discriminate;
    intros H; injection H as H; now apply DecimalPos.Unsigned.to_uint_nonnil in H.
Qed.

Lemma number_injective a b : JSON.number a = JSON.number b -> a = b.
Proof.
  unfold JSON.number. intros H. apply DecimalZ.to_int_inj.
  destruct (to_int_not_nil a) as [A1 A2]. destruct (to_int_not_nil b) as [B1 B2].
  pose proof (NilZero.isi _ A1 A2) as Ia. pose proof (NilZero.isi _ B1 B2) as Ib.
  rewrite H in Ia. congruence.
Qed.

(** Two entries of the documented form are printed alike only when they
    have the same [href] and the same [size]: on such entries, comparing the
    texts, as [_diffManifests] does, is comparing them field by field. *)
Lemma JSON_stringify_injective h n h' n' :
  JSON.stringify (JSON.entry h n) = JSON.stringify (JSON.entry h' n') ->
  h = h' /\ n = n'.
Proof.
  unfold JSON.stringify, JSON.entry, json, JSON.quote. intros H.
  rewrite !append_assoc in H. cbn [append JSON.escape JSON.escape_char JSON.dquote] in H.
  cbn in H. injection H as H.
  change (String (ascii_of_nat 34) ?x) with (JSON.dquote ++ x) in H.
  apply escape_terminated in H. destruct H as [Hh H].
  cbn in H. injection H as H.
  change "}" with ("}" ++ "") in H at 1.
  apply append_inv_tail in H. apply number_injective in H.
  now split.
Qed.

(* ================================================================= *)
(** ** What the manifest diff returns *)

Lemma indexOf_from_absent arr x : forall i,
  (0 <= i)%Z ->
  (JS.indexOf_from i arr x =? -1)%Z = negb (existsb (String.eqb x) arr).
Proof.
  induction arr as [| y r IH]; intros i Hi; cbn [JS.indexOf_from existsb].
  - reflexivity.
  - rewrite (String.eqb_sym x y). destruct (String.eqb y x); cbn [orb negb].
    + apply Z.eqb_neq. lia.
    + apply IH. lia.
Qed.

Lemma indexOf_absent arr x :
  (JS.indexOf arr x =? -1)%Z = negb (existsb (String.eqb x) arr).
Proof. apply indexOf_from_absent. lia. Qed.

Lemma indexOf_from_present arr x : forall i,
  (0 <= i)%Z ->
  (JS.indexOf_from i arr x >? -1)%Z = existsb (String.eqb x) arr.
Proof.
  induction arr as [| y r IH]; intros i Hi; cbn [JS.indexOf_from existsb].
  - reflexivity.
  - rewrite (String.eqb_sym x y). destruct (String.eqb y x); cbn [orb].
    + apply Z.gtb_lt. lia.
    + apply IH. lia.
Qed.

Lemma indexOf_present arr x :
  (JS.indexOf arr x >? -1)%Z = existsb (String.eqb x) arr.
Proof. apply indexOf_from_present. lia. Qed.

Lemma existsb_eqb_In x arr : existsb (String.eqb x) arr = true <-> In x arr.
Proof.
  rewrite existsb_exists. split.
  - intros (y & Hy & E). apply String.eqb_eq in E. now subst.
  - intros H. exists x. split; [exact H | apply String.eqb_refl].
Qed.

Lemma in_baseline e baseline :
  existsb (String.eqb (JSON.stringify e)) (map JSON.stringify baseline) = true
  <-> In (JSON.stringify e) (map JSON.stringify baseline).
Proof. apply existsb_eqb_In. Qed.

Lemma total_size_split (f : ManifestFileEntry -> bool) l :
  (total_size (filter f l) + total_size (filter (fun e => negb (f e)) l))%Z = total_size l.
Proof.
  induction l as [| e l IH]; [reflexivity |].
  cbn [filter]. destruct (f e); cbn [negb];
    change (total_size (e :: ?x)) with (size e + total_size x)%Z; lia.
Qed.

(** Each reconciling [filter] always comes to an end: it keeps, in order,
    the rows whose [href] is not on disk and counts the bytes of the
    others. *)
Lemma reconcile_run progress total files rows : forall d w,
  exists evs,
    reconcile progress total files rows d w
    = (Returned (filter (fun r => negb (on_disk files r)) rows,
                 (d + total_size (filter (on_disk files) rows))%Z),
       logged w evs)
    /\ Forall bystander evs.
Proof.
  induction rows as [| r rows IH]; intros d w; cbn [reconcile filter].
  - exists []. split; [| constructor]. unfold ret, logged. rewrite app_nil_r.
    cbn. rewrite Z.add_0_r. now destruct w.
  - unfold on_disk at 1 3. rewrite indexOf_present, indexOf_absent.
    fold (on_disk files r).
    destruct (on_disk files r) eqn:D; cbn [negb].
    + rewrite bind_bind.
      destruct (report_run progress total (d + size r)%Z w) as (evs1 & Hrep & B1).
      rewrite (bind_returned _ _ _ _ _ Hrep), bind_ret.
      destruct (IH (d + size r)%Z (logged w evs1)) as (evs2 & Hrec & B2).
      rewrite (bind_returned _ _ _ _ _ Hrec). cbv beta iota.
      exists (evs1 ++ evs2)%list. split; [| now apply Forall_app].
      unfold ret. rewrite logged_logged.
      change (total_size (r :: ?x)) with (size r + total_size x)%Z.
      do 2 f_equal. f_equal. lia.
    + rewrite bind_ret.
      destruct (IH d w) as (evs2 & Hrec & B2).
      rewrite (bind_returned _ _ _ _ _ Hrec). cbv beta iota.
      exists evs2. split; [reflexivity | exact B2].
Qed.

Section DiffResult.

Variable env : Env.
Variables (depth : nat) (newManifest : list ManifestFileEntry).
Variables (oldManifest : option (list ManifestFileEntry)) (filePath : string).
Variables (total : Z) (progress : bool).

(** What the body of the [try] returns, once the bundled manifest has been
    fetched and the directory has been walked. *)
Lemma _diffManifests_try_run w bundled files w1 :
  fetch_bundledManifest env (trace w) = Some bundled ->
  _recursiveFilesInPath env depth filePath "" "" (logged w [Fetch_bundledManifest])
  = (Returned files, w1) ->
  let baseline := match oldManifest with Some old => old | None => bundled end in
  let known e := existsb (String.eqb (JSON.stringify e)) (map JSON.stringify baseline) in
  exists evs,
    _diffManifests_try env depth newManifest oldManifest filePath total progress w
    = (Returned
         {| diffManifest :=
              filter (fun r => negb (on_disk files r))
                     (filter (fun e => negb (known e)) newManifest);
            sameManifest :=
              filter (fun r => negb (on_disk files r)) (filter known newManifest);
            downloaded :=
              (0 + total_size (filter (on_disk files) (filter known newManifest))
               + total_size (filter (on_disk files)
                                    (filter (fun e => negb (known e)) newManifest)))%Z |},
       logged w1 evs).
Proof.
  intros Hfetch Hwalk baseline known.
  unfold _diffManifests_try. rewrite bind_call, Hfetch, bind_ret.
  rewrite (bind_returned _ _ _ _ _ Hwalk).
  fold baseline.
  rewrite (filter_ext (fun entry =>
             (JS.indexOf (map JSON.stringify baseline) (JSON.stringify entry) =? -1)%Z)
             (fun e => negb (known e)))
    by (intros e; apply indexOf_absent).
  rewrite (filter_ext (fun entry =>
             (JS.indexOf (map JSON.stringify baseline) (JSON.stringify entry) >? -1)%Z) known)
    by (intros e; apply indexOf_present).
  destruct (reconcile_run progress total files (filter known newManifest) 0 w1)
    as (evs1 & H1 & _).
  rewrite (bind_returned _ _ _ _ _ H1). cbv beta iota.
  destruct (reconcile_run progress total files
              (filter (fun e => negb (known e)) newManifest)
              (0 + total_size (filter (on_disk files) (filter known newManifest)))
              (logged w1 evs1)) as (evs2 & H2 & _).
  rewrite (bind_returned _ _ _ _ _ H2). cbv beta iota.
  exists (evs1 ++ evs2)%list. unfold ret. now rewrite logged_logged.
Qed.

Lemma _diffManifests_try_returned w d w' :
  _diffManifests_try env depth newManifest oldManifest filePath total progress w
  = (Returned d, w') ->
  exists bundled files w1,
    fetch_bundledManifest env (trace w) = Some bundled
    /\ _recursiveFilesInPath env depth filePath "" "" (logged w [Fetch_bundledManifest])
       = (Returned files, w1).
Proof.
  unfold _diffManifests_try. rewrite bind_call. intros H.
  destruct (fetch_bundledManifest env (trace w)) as [bundled |]; [| discriminate].
  rewrite bind_ret in H. apply bind_returned_inv in H.
  destruct H as (files & w1 & Hwalk & _). now exists bundled, files, w1.
Qed.

(** X3: Whatever [_diffManifests] returns, no byte of the new manifest is lost
    or counted twice: the bytes found on disk, the bytes left to download
    and the bytes to copy from the baseline add up to the size of the new
    manifest. *)
Theorem _diffManifests_accounts_for_every_byte w d w' :
  _diffManifests env depth newManifest oldManifest filePath total progress w
  = (Returned d, w') ->
  (downloaded d + total_size (diffManifest d) + total_size (sameManifest d))%Z
  = total_size newManifest.
Proof.
  unfold _diffManifests, try_catch. intros H.
  destruct (_diffManifests_try env depth newManifest oldManifest filePath total progress w)
    as [[d0 | e |] w0] eqn:E.
  - injection H as <- <-.
    destruct (_diffManifests_try_returned w d0 w0 E) as (bundled & files & w1 & Hf & Hw).
    destruct (_diffManifests_try_run w bundled files w1 Hf Hw) as (evs & R).
    rewrite E in R. apply returned_inj in R. destruct R as [-> _].
    cbn [downloaded diffManifest sameManifest].
    set (baseline := match oldManifest with Some old => old | None => bundled end).
    set (known := fun e => existsb (String.eqb (JSON.stringify e))
                                   (map JSON.stringify baseline)).
    pose proof (total_size_split (on_disk files) (filter known newManifest)) as S1.
    pose proof (total_size_split (on_disk files)
                  (filter (fun e => negb (known e)) newManifest)) as S2.
    pose proof (total_size_split known newManifest) as S3.
    subst known. cbv beta in *. lia.
  - unfold ret in H. injection H as <- _. cbn [downloaded diffManifest sameManifest].
    rewrite filter_false. cbn. lia.
  - discriminate.
Qed.

(** X4: Once the bundled manifest is fetched and the walk of the directory has
    returned, [_diffManifests] returns, and an entry of the new manifest is
    left to download exactly when no entry of the baseline is printed by
    [JSON.stringify] as it is and no file of its [href] is on disk; it is
    left to copy exactly when the baseline has an entry printed alike and
    the disk has no such file; the bytes counted as downloaded are those of
    all the entries found on disk.  An entry with the [href] and [size] of
    a baseline entry but with its properties in another order, or with one
    more, is therefore downloaded.  The baseline is the old manifest when
    one is given, the bundled one otherwise. *)
Theorem _diffManifests_classifies w bundled files w1 :
  fetch_bundledManifest env (trace w) = Some bundled ->
  _recursiveFilesInPath env depth filePath "" "" (logged w [Fetch_bundledManifest])
  = (Returned files, w1) ->
  let baseline := match oldManifest with Some old => old | None => bundled end in
  exists d w',
    _diffManifests env depth newManifest oldManifest filePath total progress w
    = (Returned d, w')
    /\ (forall e, In e (diffManifest d)
                  <-> In e newManifest
                      /\ ~ In (JSON.stringify e) (map JSON.stringify baseline)
                      /\ ~ In (href e) files)
    /\ (forall e, In e (sameManifest d)
                  <-> In e newManifest
                      /\ In (JSON.stringify e) (map JSON.stringify baseline)
                      /\ ~ In (href e) files)
    /\ downloaded d = total_size (filter (on_disk files) newManifest).
Proof.
  intros Hf Hw baseline.
  destruct (_diffManifests_try_run w bundled files w1 Hf Hw) as (evs & R).
  cbv zeta in R. fold baseline in R.
  eexists. exists (logged w1 evs). split.
  { unfold _diffManifests. apply try_catch_returned. exact R. }
  cbn [downloaded diffManifest sameManifest].
  assert (Hdisk : forall e, negb (on_disk files e) = true <-> ~ In (href e) files).
  { intros e. unfold on_disk. rewrite negb_true_iff, <- not_true_iff_false.
    now rewrite existsb_eqb_In. }
  pose proof (fun e => in_baseline e baseline) as Hknown.
  split; [| split].
  - intros e. rewrite !filter_In, Hdisk, negb_true_iff, <- not_true_iff_false, Hknown.
    tauto.
  - intros e. rewrite !filter_In, Hdisk, Hknown. tauto.
  - clear R Hknown. induction newManifest as [| e l IH]; [reflexivity |].
    cbn [filter].
    destruct (existsb (String.eqb (JSON.stringify e)) (map JSON.stringify baseline));
      cbn [negb filter];
      destruct (on_disk files e);
      repeat change (total_size (e :: ?x)) with (size e + total_size x)%Z;
      lia.
Qed.

End DiffResult.

(** A one-file manifest diffed against itself over an empty directory. *)
Lemma _diffManifests_accounts_for_every_byte_witness :
  let w := Sample.world (Sample.preferences None [] None) "/www" in
  let d := {| diffManifest := []; sameManifest := [Sample.index_html]; downloaded := 0%Z |} in
  (downloaded d + total_size (diffManifest d) + total_size (sameManifest d))%Z
  = total_size [Sample.index_html].
Proof.
  intros w d.
  apply (_diffManifests_accounts_for_every_byte Sample.env 1 [Sample.index_html]
           (Some [Sample.index_html]) "/data/ionic_built_snapshots/v2" 10 true w d
           (snd (_diffManifests Sample.env 1 [Sample.index_html] (Some [Sample.index_html])
                   "/data/ionic_built_snapshots/v2" 10 true w))).
  reflexivity.
Defined.

(** The new manifest changes index.html, adds app.js, which is already in
    the directory of the new version, and lists style.css with the size it
    had but with its two properties the other way round. *)
Lemma _diffManifests_classifies_witness :
  let env := Scenario.with_listing Sample.env (fun _ _ => Some ["app.js"]) in
  let w := Sample.world (Sample.preferences None [] None) "/www" in
  let old := [Sample.index_html; JSON.entry "logo.png" 7; JSON.entry "style.css" 3] in
  let new := [JSON.entry "index.html" 12;
              JSON.entry "logo.png" 7;
              JSON.entry "app.js" 5;
              Scenario.size_first "style.css" 3] in
  exists d,
    fst (_diffManifests env 1 new (Some old) "/snap" 27 false w) = Returned d
    /\ diffManifest d = [JSON.entry "index.html" 12; Scenario.size_first "style.css" 3]
    /\ sameManifest d = [JSON.entry "logo.png" 7]
    /\ downloaded d = 5%Z.
Proof.
  intros env w old new.
  destruct (_diffManifests_classifies env 1 new (Some old) "/snap" 27 false w
              [] ["app.js"] (logged w [Fetch_bundledManifest; Exec_getDirectoryFiles "/snap"])
              eq_refl eq_refl) as (d & w' & Hrun & _ & _ & Hd).
  exists d. rewrite Hrun. split; [reflexivity |].
  vm_compute in Hrun. injection Hrun as <- _.
  repeat split.
Defined.

(* ================================================================= *)
(** ** The directory walk *)

Lemma includes_app_l a s sub : JS.includes s sub = true -> JS.includes (a ++ s) sub = true.
Proof.
  intros H. induction a as [| c a IH]; [exact H |].
  change (String c a ++ s) with (String c (a ++ s)). cbn [JS.includes].
  rewrite IH. now destruct (prefix sub (String c (a ++ s))).
Qed.

Lemma last_segment_from_no_slash s : forall acc,
  JS.includes s "/" = false -> JS.last_segment_from acc s = acc ++ s.
Proof.
  induction s as [| c s IH]; intros acc H; cbn [JS.last_segment_from].
  - now rewrite append_nil_r.
  - cbn [JS.includes prefix] in H.
    destruct (ascii_dec "/" c) as [<- | Hne].
    + destruct s; discriminate.
    + destruct (Ascii.eqb_spec c "/") as [-> | _]; [congruence |].
      rewrite IH by exact H. now rewrite append_assoc.
Qed.

Lemma last_segment_no_slash s : JS.includes s "/" = false -> JS.last_segment s = s.
Proof. intros H. unfold JS.last_segment. now rewrite last_segment_from_no_slash. Qed.

Lemma map_id_ext {A} (f : A -> A) l : (forall x, f x = x) -> map f l = l.
Proof. intros H. induction l as [| x l IH]; cbn; [reflexivity | now rewrite H, IH]. Qed.

Section Walk.

Variable env : Env.
Variable filePath : string.

(** A directory all of whose names carry a dot is listed once, and the walk
    returns its names as they are listed; reached as the folder [folder] of
    the root, its names come back behind the folder's name and a slash. *)
Lemma walk_flat_folder depth folder names w :
  native_getDirectoryFiles env (trace w)
    (if JS.truthy folder then filePath ++ "/" ++ folder else filePath) = Some names ->
  forallb (fun n => JS.includes n ".") names = true ->
  _recursiveFilesInPath env (S depth) filePath "" folder w
  = (Returned (map (fun n => if JS.truthy folder then folder ++ "/" ++ n else n) names),
     logged w [Exec_getDirectoryFiles
                 (if JS.truthy folder then filePath ++ "/" ++ folder else filePath)]).
Proof.
  intros Hls Hflat. cbn [_recursiveFilesInPath JS.truthy]. cbv zeta.
  unfold FileManager_getDirectoryFiles. rewrite bind_bind, bind_call.
  assert (E : (if JS.truthy folder then "" ++ folder else "") = folder)
    by (now destruct folder).
  rewrite E, Hls, !bind_ret.
  rewrite filter_none; [reflexivity |].
  intros x Hx. apply in_map_iff in Hx. destruct Hx as (n & <- & Hn).
  rewrite forallb_forall in Hflat. specialize (Hflat n Hn).
  destruct (JS.truthy folder); [| now rewrite Hflat].
  rewrite <- append_assoc. now rewrite includes_app_l.
Qed.

(** X5: In a directory where every name has a dot, the walk lists the
    directory once and returns its names as they are, at any depth allowed
    but zero. *)
Theorem _recursiveFilesInPath_flat depth names w :
  native_getDirectoryFiles env (trace w) filePath = Some names ->
  forallb (fun n => JS.includes n ".") names = true ->
  _recursiveFilesInPath env (S depth) filePath "" "" w
  = (Returned names, logged w [Exec_getDirectoryFiles filePath]).
Proof.
  intros Hls Hflat.
  rewrite (walk_flat_folder depth "" names w Hls Hflat). cbn [JS.truthy].
  now rewrite map_id_ext.
Qed.

(** X6: A tree two levels deep: the walk returns the names of the root, then,
    for each name without a dot and in the order of the listing, the names
    found in that folder, each behind the folder's name and a slash; the
    root and each such folder are listed exactly once. *)
Theorem _recursiveFilesInPath_two_levels depth names (sub : string -> list string) w :
  native_getDirectoryFiles env (trace w) filePath = Some names ->
  forallb (fun n => JS.truthy n && negb (JS.includes n "/")) names = true ->
  let folders := filter walked_as_folder names in
  (forall t f, In f folders ->
     native_getDirectoryFiles env t (filePath ++ "/" ++ f) = Some (sub f)
     /\ forallb (fun n => JS.includes n ".") (sub f) = true) ->
  _recursiveFilesInPath env (S (S depth)) filePath "" "" w
  = (Returned (names ++ flat_map (fun f => map (fun n => (f ++ "/" ++ n)%string) (sub f))
                                 folders)%list,
     logged w (Exec_getDirectoryFiles filePath
               :: map (fun f => Exec_getDirectoryFiles (filePath ++ "/" ++ f)) folders)).
Proof.
  intros Hls Hnames folders Hsub.
  remember (S depth) as d eqn:Hd.
  cbn [_recursiveFilesInPath JS.truthy]. cbv zeta.
  unfold FileManager_getDirectoryFiles. rewrite bind_bind, bind_call, Hls, !bind_ret.
  rewrite (map_id_ext (fun fileName : string => fileName)) by reflexivity.
  fold (walked_as_folder). change (filter (fun fileName => negb (JS.includes fileName ".")) names)
    with folders.
  assert (Hfolders : Forall (fun f => JS.truthy f = true /\ JS.includes f "/" = false
                                      /\ In f folders) folders).
  { apply Forall_forall. intros f Hf. pose proof Hf as Hin.
    apply filter_In in Hf. destruct Hf as [Hf _].
    rewrite forallb_forall in Hnames. specialize (Hnames f Hf).
    apply andb_true_iff in Hnames. destruct Hnames as [H1 H2].
    now apply negb_true_iff in H2. }
  change (Exec_getDirectoryFiles filePath
          :: map (fun f => Exec_getDirectoryFiles (filePath ++ "/" ++ f)) folders)
    with ([Exec_getDirectoryFiles filePath]
          ++ map (fun f => Exec_getDirectoryFiles (filePath ++ "/" ++ f)%string) folders)%list.
  rewrite <- logged_logged.
  match goal with
  | |- ?loop _ _ _ = _ =>
      assert (Hloop : forall fs acc w1,
                Forall (fun f => JS.truthy f = true /\ JS.includes f "/" = false
                                 /\ In f folders) fs ->
                loop fs acc w1
                = (Returned (acc ++ flat_map (fun f => map (fun n => (f ++ "/" ++ n)%string)
                                                           (sub f)) fs)%list,
                   logged w1 (map (fun f => Exec_getDirectoryFiles
                                              (filePath ++ "/" ++ f)%string) fs)))
  end.
  { induction fs as [| f fs IH]; intros acc w1 Hfs.
    - cbn [flat_map map]. unfold ret, logged. rewrite !app_nil_r. now destruct w1.
    - apply Forall_cons_iff in Hfs. destruct Hfs as [(Hf1 & Hf2 & Hin) Hfs'].
      cbv beta iota fix. rewrite (last_segment_no_slash f Hf2).
      pose proof (walk_flat_folder depth f (sub f) w1) as Hwalk.
      rewrite Hf1, <- Hd in Hwalk.
      destruct (Hsub (trace w1) f Hin) as [Hlist Hflat].
      rewrite (bind_returned _ _ _ _ _ (Hwalk Hlist Hflat)).
      rewrite (IH _ _ Hfs'). cbn [flat_map map]. rewrite logged_logged, <- app_assoc.
      reflexivity. }
  apply Hloop. exact Hfolders.
Qed.

End Walk.

(** A snapshot directory that holds three files. *)
Lemma _recursiveFilesInPath_flat_witness :
  let names := ["index.html"; "app.js"; "style.css"] in
  let env := Scenario.with_listing Sample.env (fun _ _ => Some names) in
  let w := Sample.world (Sample.preferences None [] None) "/www" in
  _recursiveFilesInPath env 3 "/data/ionic_built_snapshots/v2" "" "" w
  = (Returned names, logged w [Exec_getDirectoryFiles "/data/ionic_built_snapshots/v2"]).
Proof.
  intros names env w.
  apply (_recursiveFilesInPath_flat env "/data/ionic_built_snapshots/v2" 2 names w);
    reflexivity.
Defined.

(** The root holds a file and a folder with one file in it. *)
Lemma _recursiveFilesInPath_two_levels_witness :
  let w := Sample.world (Sample.preferences None [] None) "/www" in
  _recursiveFilesInPath Scenario.tree 2 "/snap" "" "" w
  = (Returned ["index.html"; "assets"; "assets/app.js"],
     logged w [Exec_getDirectoryFiles "/snap"; Exec_getDirectoryFiles "/snap/assets"]).
Proof.
  intros w.
  apply (_recursiveFilesInPath_two_levels Scenario.tree "/snap" 0 ["index.html"; "assets"]
           (fun _ => ["app.js"]) w); try reflexivity.
  intros t f [<- | []]. split; reflexivity.
Defined.

(* ================================================================= *)
(** ** What the scheduler transfers and reports *)

Lemma without_progress_app a b :
  without_progress (a ++ b) = (without_progress a ++ without_progress b)%list.
Proof. apply filter_app. Qed.

(** What a progress report leaves in the trace. *)
Lemma report_trace progress total d w :
  exists evs,
    report progress d total w = (Returned tt, logged w evs)
    /\ transfers evs = []
    /\ without_progress evs = []
    /\ progress_reports evs = if progress then [d] else [].
Proof.
  unfold report. destruct progress.
  - exists [Progress d total]. repeat split.
  - exists []. rewrite logged_nil. repeat split.
Qed.

Section Transfers.

Variable env : Env.
Variables (baseUrl versionId : string) (progress : bool) (total : Z).

(** The promises stand for the entries they were made for; when none of
    them is rejected, each has the transfer of its entry in flight. *)
Lemma promised_in_flight downloads : forall entries,
  Forall2 (promise_of env baseUrl versionId) downloads entries ->
  first_rejected downloads = None ->
  Forall (resolved env baseUrl) entries
  /\ map fst (in_flight downloads) = entries
  /\ Forall (fun x => transfer_of env baseUrl versionId (fst x) = [snd x])
            (in_flight downloads).
Proof.
  induction downloads as [| p ds IH]; intros es Hrel Hnone.
  - inversion Hrel; subst. repeat split; constructor.
  - inversion Hrel as [| ? e ? es' Hp Hrest]; subst.
    destruct p as [err | file u t]; [discriminate |].
    destruct Hp as (-> & Hu & ->). cbn [first_rejected] in Hnone.
    destruct (IH _ Hrest Hnone) as (Hres & Hfst & Htr).
    cbn [in_flight map fst]. split; [constructor; [unfold resolved; congruence | exact Hres] |].
    split; [now rewrite Hfst |].
    constructor; [| exact Htr]. unfold transfer_of. cbn [fst snd]. now rewrite Hu.
Qed.

(** A batch that is awaited to its end: every promise of it had its
    transfer started, the native side has reported each done, and the
    bytes are counted and reported in the order of its reports. *)
Lemma Promise_all_reports downloads entries d w d' w' :
  Forall2 (promise_of env baseUrl versionId) downloads entries ->
  Promise_all env progress total downloads d w = (Returned d', w') ->
  Forall (resolved env baseUrl) entries
  /\ exists evs order,
       w' = logged w evs
       /\ transfers evs = []
       /\ Permutation (map fst order) entries
       /\ Forall (fun x => transfer_of env baseUrl versionId (fst x) = [snd x]) order
       /\ reported evs = map done order
       /\ d' = (d + total_size (map fst order))%Z
       /\ progress_reports evs
          = if progress then running_totals d (map size (map fst order)) else [].
Proof.
  intros Hrel H.
  destruct (Promise_all_run env progress total downloads d w)
    as (evs & st & Hsnd & _ & Ht & _ & Hret).
  rewrite H in Hsnd, Hret. cbn [fst snd] in Hsnd, Hret.
  destruct (Hret d' eq_refl) as (Hnone & _ & order & Po & Ro & -> & Pr).
  destruct (promised_in_flight _ _ Hrel Hnone) as (Hres & Hfst & Htr).
  split; [exact Hres |]. exists evs, order.
  split; [exact Hsnd |]. split; [exact Ht |].
  split; [rewrite <- Hfst; now apply Permutation_map |].
  split.
  { apply Forall_forall. intros x Hx. rewrite Forall_forall in Htr. apply Htr.
    eapply Permutation_in; [exact Po | exact Hx]. }
  repeat split; auto.
Qed.

Lemma transfers_started l :
  transfers (map (fun ut : string * string => Exec_downloadFile (fst ut) (snd ut)) l) = l.
Proof. induction l as [| [u t] l IH]; cbn; [reflexivity | now rewrite IH]. Qed.

Lemma progress_reports_started l :
  progress_reports (map (fun ut : string * string => Exec_downloadFile (fst ut) (snd ut)) l)
  = [].
Proof. induction l as [| [u t] l IH]; cbn; [reflexivity | exact IH]. Qed.

Lemma reported_started l :
  reported (map (fun ut : string * string => Exec_downloadFile (fst ut) (snd ut)) l) = [].
Proof. induction l as [| [u t] l IH]; cbn; [reflexivity | exact IH]. Qed.

(** The loop: the entries awaited so far are a prefix of those pushed;
    every entry of the manifest has its transfer started when its promise
    is made, and the entries awaited have been reported done in some
    order, in which their bytes were counted. *)
Lemma download_loop_reports manifest :
  forall downloads entries count d w downloads' count' d' w',
    Forall2 (promise_of env baseUrl versionId) downloads entries ->
    download_loop env baseUrl versionId progress total manifest downloads count d w
    = (Returned (downloads', count', d'), w') ->
    exists evs awaited entries' order,
      w' = logged w evs
      /\ Forall2 (promise_of env baseUrl versionId) downloads' entries'
      /\ (entries ++ manifest = awaited ++ entries')%list
      /\ Forall (resolved env baseUrl) awaited
      /\ transfers evs = flat_map (transfer_of env baseUrl versionId) manifest
      /\ Permutation (map fst order) awaited
      /\ Forall (fun x => transfer_of env baseUrl versionId (fst x) = [snd x]) order
      /\ reported evs = map done order
      /\ d' = (d + total_size (map fst order))%Z
      /\ progress_reports evs
         = if progress then running_totals d (map size (map fst order)) else [].
Proof.
  induction manifest as [| entry rest IH];
    intros ds es c d w ds' c' d' w' Hrel H; cbn [download_loop] in H.
  - apply returned_inj in H. destruct H as [H <-]. injection H as <- <- <-.
    exists [], [], es, []. rewrite logged_nil, app_nil_r.
    repeat split; auto; [cbn; lia | now destruct progress].
  - apply bind_returned_inv in H. destruct H as ([[ds1 c1] d1] & w1 & Hflush & H).
    cbv beta iota in H.
    destruct (downloadFile_run env baseUrl versionId entry w1)
      as (promise & Hpush & Hpromise & _).
    rewrite (bind_returned _ _ _ _ _ Hpush) in H.
    assert (Hflushed : exists evs0 awaited0 es1 order0,
              w1 = logged w evs0
              /\ Forall2 (promise_of env baseUrl versionId) ds1 es1
              /\ es = (awaited0 ++ es1)%list
              /\ Forall (resolved env baseUrl) awaited0
              /\ transfers evs0 = []
              /\ Permutation (map fst order0) awaited0
              /\ Forall (fun x => transfer_of env baseUrl versionId (fst x) = [snd x]) order0
              /\ reported evs0 = map done order0
              /\ d1 = (d + total_size (map fst order0))%Z
              /\ progress_reports evs0
                 = if progress then running_totals d (map size (map fst order0)) else []).
    { destruct (maxBatch <=? List.length ds)%nat.
      - apply bind_returned_inv in Hflush. destruct Hflush as (dA & wA & Hall & Hflush).
        autorewrite with run in Hflush. apply returned_inj in Hflush.
        destruct Hflush as [Hflush <-]. injection Hflush as <- <- <-.
        destruct (Promise_all_reports _ _ _ _ _ _ Hrel Hall)
          as (Hres & evsS & order & -> & TS & Po & Fo & Ro & -> & PS).
        exists (evsS ++ [Sleep])%list, es, [], order.
        rewrite !logged_logged, app_nil_r.
        split; [reflexivity |]. split; [constructor |].
        repeat split; auto.
        + rewrite transfers_app, TS. reflexivity.
        + rewrite reported_app, Ro. cbn. now rewrite app_nil_r.
        + rewrite progress_reports_app, PS. cbn. now rewrite app_nil_r.
      - apply returned_inj in Hflush. destruct Hflush as [Hflush <-].
        injection Hflush as <- <- <-.
        exists [], [], es, []. rewrite logged_nil.
        repeat split; auto; [cbn; lia | now destruct progress]. }
    destruct Hflushed
      as (evs0 & awaited0 & es1 & order0 & -> & Hrel1 & -> & Hres0 & T0 & Po0 & Fo0 & Ro0
          & -> & P0).
    assert (Hrel2 : Forall2 (promise_of env baseUrl versionId)
                            (ds1 ++ [promise])%list (es1 ++ [entry])%list).
    { apply Forall2_app; [exact Hrel1 | now repeat constructor]. }
    destruct (IH _ _ _ _ _ _ _ _ _ Hrel2 H)
      as (evs & awaited & es' & order & -> & Hrel' & Happ & Hres & T & Po & Fo & Ro
          & -> & P).
    exists (evs0 ++ map (fun ut => Exec_downloadFile (fst ut) (snd ut))
                        (transfer_of env baseUrl versionId entry) ++ evs)%list,
           (awaited0 ++ awaited)%list, es', (order0 ++ order)%list.
    rewrite !logged_logged.
    split; [rewrite <- ?app_assoc; reflexivity |]. split; [exact Hrel' |].
    split; [rewrite <- !app_assoc, <- Happ, <- app_assoc; reflexivity |].
    split; [now apply Forall_app |].
    split; [rewrite !transfers_app, T0, T, transfers_started; reflexivity |].
    split; [rewrite map_app; now apply Permutation_app |].
    split; [now apply Forall_app |].
    split; [rewrite !reported_app, Ro0, Ro, reported_started, map_app; reflexivity |].
    split; [rewrite map_app, total_size_app; lia |].
    rewrite !progress_reports_app, P0, P, progress_reports_started.
    destruct progress; [| reflexivity].
    rewrite !map_app, running_totals_app, fold_left_add_sizes. reflexivity.
Qed.

(** X7: A run of the scheduler that returns has handed every entry of the
    manifest to the native side exactly once, in the order of the manifest,
    each with the URL resolved against the base URL and with its place in
    the snapshot directory of the version as target.  The native side has
    reported each of these transfers done, once, in an order of its own
    ([order]); and the progress callback, when there is one, has received
    the running total of the bytes after each report, in the order of the
    reports, which is the order of the manifest only when the transfers
    end as they were started. *)
Theorem downloads_every_entry_in_order manifest downloaded w w' :
  _downloadFilesFromManifest env baseUrl manifest versionId downloaded total progress w
  = (Returned tt, w') ->
  let transfer_for (e : ManifestFileEntry) (ut : string * string) :=
    URL_resolve env baseUrl (href e) = Some (fst ut)
    /\ snd ut = Path.join [getSnapshotCacheDir env versionId; href e] in
  exists evs order,
    w' = logged w evs
    /\ Forall2 transfer_for manifest (transfers evs)
    /\ Permutation order manifest
    /\ Forall2 (fun e r => transfer_for e (fst r) /\ snd r = true) order (reported evs)
    /\ progress_reports evs
       = if progress then running_totals downloaded (map size order) else [].
Proof.
  intros H transfer_for. unfold _downloadFilesFromManifest in H.
  apply bind_returned_inv in H. destruct H as ([[ds c] d] & w1 & Hloop & H).
  destruct (download_loop_reports _ _ _ _ _ _ _ _ _ _ (Forall2_nil _) Hloop)
    as (evs & awaited & es' & order & -> & Hrel & Happ & Hres & T & Po & Fo & Ro & -> & P).
  cbn [app] in Happ. cbv beta iota in H.
  assert (Hall : forall l, Forall (resolved env baseUrl) l ->
            Forall2 transfer_for l (flat_map (transfer_of env baseUrl versionId) l)).
  { clear. induction 1 as [| e l He _ IH]; [constructor |].
    cbn [flat_map]. unfold transfer_of at 1. unfold resolved in He.
    destruct (URL_resolve env baseUrl (href e)) as [u |] eqn:E; [| congruence].
    cbn [app]. constructor; [split; [exact E | reflexivity] | exact IH]. }
  assert (Hdone : forall o,
            Forall (fun x => transfer_of env baseUrl versionId (fst x) = [snd x]) o ->
            Forall2 (fun e r => transfer_for e (fst r) /\ snd r = true)
                    (map fst o) (map done o)).
  { clear. induction 1 as [| [e [u t]] o He _ IH]; [constructor |].
    cbn [map fst]. constructor; [| exact IH]. unfold done. cbn [fst snd] in *.
    unfold transfer_of in He.
    destruct (URL_resolve env baseUrl (href e)) as [u' |] eqn:E; [| discriminate].
    injection He as -> <-. split; [split; [exact E | reflexivity] | reflexivity]. }
  destruct ds as [| p ds].
  - apply returned_inj in H. destruct H as [_ <-].
    assert (es' = []) as -> by (inversion Hrel; reflexivity).
    rewrite app_nil_r in Happ. subst awaited.
    exists evs, (map fst order). split; [reflexivity |].
    split; [rewrite T; now apply Hall |]. split; [exact Po |].
    split; [rewrite Ro; now apply Hdone | exact P].
  - apply bind_returned_inv in H. destruct H as (d1 & w2 & Hsettle & H).
    apply returned_inj in H. destruct H as [_ <-].
    destruct (Promise_all_reports _ _ _ _ _ _ Hrel Hsettle)
      as (Hres' & evsS & orderS & -> & TS & PoS & FoS & RoS & -> & PS).
    exists (evs ++ evsS)%list, (map fst (order ++ orderS)%list).
    rewrite !logged_logged. split; [reflexivity |].
    rewrite !transfers_app, !reported_app, !progress_reports_app, T, TS, P, PS, Ro, RoS.
    rewrite app_nil_r. split.
    { apply Hall. rewrite Happ. now apply Forall_app. }
    split; [rewrite map_app, Happ; now apply Permutation_app |].
    split; [rewrite <- map_app; apply Hdone; now apply Forall_app |].
    destruct progress; [| reflexivity].
    now rewrite !map_app, running_totals_app, fold_left_add_sizes.
Qed.

End Transfers.

(** Two files in one batch: index.html is started first and reported
    last. *)
Lemma downloads_every_entry_in_order_witness :
  let w := Sample.world (Sample.preferences None [] None) "/www" in
  let manifest := [Sample.index_html; JSON.entry "app.js" 5] in
  let w' := snd (_downloadFilesFromManifest Sample.env "https://cdn/" manifest "v2" 0 15 true w) in
  transfers (trace w')
  = [("https://cdn/index.html", "/data/ionic_built_snapshots/v2/index.html");
     ("https://cdn/app.js", "/data/ionic_built_snapshots/v2/app.js")]
  /\ reported (trace w')
     = [("https://cdn/app.js", "/data/ionic_built_snapshots/v2/app.js", true);
        ("https://cdn/index.html", "/data/ionic_built_snapshots/v2/index.html", true)]
  /\ exists order,
       Permutation order manifest
       /\ progress_reports (trace w') = running_totals 0 (map size order).
Proof.
  intros w manifest w'.
  destruct (downloads_every_entry_in_order Sample.env "https://cdn/" "v2" true 15
              manifest 0 w w' eq_refl) as (evs & order & Hw & _ & Po & _ & Pr).
  split; [reflexivity |]. split; [reflexivity |].
  exists order. split; [exact Po |]. rewrite Hw, trace_logged. exact Pr.
Defined.

(* ================================================================= *)
(** ** Preparing the directory of an update *)

Section Prepare.

Variable env : Env.

Lemma FileManager_copyFiles_returned source target w w' :
  FileManager_copyFiles env source target w = (Returned tt, w') ->
  w' = logged w [Exec_copyFiles source target].
Proof.
  unfold FileManager_copyFiles. rewrite bind_call.
  destruct (native_copyFiles env (trace w) source target); [| discriminate].
  intros H. apply returned_inj in H. now destruct H.
Qed.

Lemma _copyCurrentAppDir_returned folder versionId total progress manifest :
  forall d w d' w',
    _copyCurrentAppDir env folder versionId manifest d total progress w = (Returned d', w') ->
    d' = (d + total_size manifest)%Z
    /\ exists evs,
         w' = logged w evs
         /\ without_progress evs
            = map (fun e =>
                     Exec_copyFiles
                       (URL_pathname env (Path.join [dataDirectory env; SNAPSHOT_CACHE; folder])
                          ++ "/" ++ href e)
                       (getSnapshotCacheDir env versionId ++ "/" ++ href e))
                  manifest
         /\ progress_reports evs
            = if progress then running_totals d (map size manifest) else [].
Proof.
  induction manifest as [| e rest IH]; intros d w d' w' H; cbn [_copyCurrentAppDir] in H.
  - apply returned_inj in H. destruct H as [<- <-]. split; [cbn; lia |].
    exists []. rewrite logged_nil. now destruct progress.
  - apply bind_returned_inv in H. destruct H as ([] & w1 & Hcopy & H).
    apply FileManager_copyFiles_returned in Hcopy. subst w1. cbv zeta in H.
    destruct (report_trace progress total (d + size e)%Z
                (logged w [Exec_copyFiles
                             (URL_pathname env
                                (Path.join [dataDirectory env; SNAPSHOT_CACHE; folder])
                              ++ "/" ++ href e)
                             (getSnapshotCacheDir env versionId ++ "/" ++ href e)]))
      as (evs1 & Hrep & _ & W1 & P1).
    rewrite (bind_returned _ _ _ _ _ Hrep) in H.
    destruct (IH _ _ _ _ H) as (-> & evs2 & -> & W2 & P2).
    split; [change (total_size (e :: rest)) with (size e + total_size rest)%Z; lia |].
    eexists. rewrite !logged_logged. split; [reflexivity |].
    rewrite !without_progress_app, !progress_reports_app, W1, W2, P1, P2.
    split; [reflexivity |]. now destruct progress.
Qed.

(** X8: When [prepareUpdateDirectory] returns, it has copied the bundled
    application to the [base] snapshot, then the plugins of [base], then
    every file of the manifest, in order, from the directory of the current
    version (from [base] when there is none) into the directory of the new
    version; the count it returns has grown by the size of the manifest and
    is reported after every file. *)
Theorem prepareUpdateDirectory_copies
        versionId currentVersionId manifest downloaded total progress w d' w' :
  prepareUpdateDirectory env versionId currentVersionId manifest downloaded total progress w
  = (Returned d', w') ->
  let cache v := URL_pathname env (Path.join [dataDirectory env; SNAPSHOT_CACHE; v]) in
  let from := if JS.truthy_opt currentVersionId
              then match currentVersionId with Some c => c | None => "base" end
              else "base" in
  d' = (downloaded + total_size manifest)%Z
  /\ exists evs,
       w' = logged w evs
       /\ without_progress evs
          = (Exec_copyTo (getBundledAppDir env) "APPLICATION" (cache "base")
             :: Exec_copyFiles (cache "base" ++ "/plugins") (cache versionId ++ "/plugins")
             :: map (fun e => Exec_copyFiles (cache from ++ "/" ++ href e)
                                             (cache versionId ++ "/" ++ href e))
                    manifest)
       /\ progress_reports evs
          = if progress then running_totals downloaded (map size manifest) else [].
Proof.
  intros H cache from. unfold prepareUpdateDirectory, _copyBaseAppDir in H.
  apply bind_returned_inv in H. destruct H as ([] & w1 & Hbase & H).
  unfold FileManager_copyTo in Hbase. rewrite bind_call in Hbase.
  destruct (native_copyTo env (trace w) _ _); [| discriminate].
  apply returned_inj in Hbase. destruct Hbase as [_ <-]. cbv zeta in H.
  apply bind_returned_inv in H. destruct H as ([] & w2 & Hplugins & H).
  apply FileManager_copyFiles_returned in Hplugins. subst w2.
  assert (Hfrom : match currentVersionId with
                  | Some c => if JS.truthy c then c else "base"
                  | None => "base"
                  end = from).
  { subst from. destruct currentVersionId as [c |]; [| reflexivity].
    cbn [JS.truthy_opt]. now destruct (JS.truthy c). }
  rewrite Hfrom in H.
  apply _copyCurrentAppDir_returned in H. destruct H as (-> & evs & -> & W & P).
  split; [reflexivity |].
  eexists. rewrite !logged_logged. split; [reflexivity |].
  rewrite !without_progress_app, !progress_reports_app, W, P. split; reflexivity.
Qed.

End Prepare.

(** One file copied from the directory of the current version. *)
Lemma prepareUpdateDirectory_copies_witness :
  let w := Sample.world (Sample.preferences (Some "v1") [] None) "/www" in
  let r := prepareUpdateDirectory Sample.env "v2" (Some "v1") [Sample.index_html] 0 10 true w in
  fst r = Returned 10%Z
  /\ without_progress (trace (snd r))
     = [Exec_copyTo "www" "APPLICATION" "/data/ionic_built_snapshots/base";
        Exec_copyFiles "/data/ionic_built_snapshots/base/plugins"
                       "/data/ionic_built_snapshots/v2/plugins";
        Exec_copyFiles "/data/ionic_built_snapshots/v1/index.html"
                       "/data/ionic_built_snapshots/v2/index.html"]
  /\ progress_reports (trace (snd r)) = [10%Z].
Proof.
  intros w r.
  destruct (prepareUpdateDirectory_copies Sample.env "v2" (Some "v1") [Sample.index_html]
              0 10 true w 10 (snd r) eq_refl) as (_ & evs & E & W & P).
  split; [reflexivity |].
  rewrite E. cbn [trace logged app]. rewrite trace_logged. cbn [Sample.world trace app].
  split; [exact W | exact P].
Defined.

(* ================================================================= *)
(** ** downloadUpdate: all or nothing *)

Lemma only_transfers_refl w : only_transfers w w.
Proof.
  split; [reflexivity |]. split; [reflexivity |].
  exists []. split; [now rewrite app_nil_r | constructor].
Qed.

Lemma only_transfers_trans a b c :
  only_transfers a b -> only_transfers b c -> only_transfers a c.
Proof.
  intros (P1 & B1 & e1 & T1 & F1) (P2 & B2 & e2 & T2 & F2).
  split; [congruence |]. split; [congruence |].
  exists (e1 ++ e2)%list. split; [rewrite T2, T1; now rewrite app_assoc |].
  now apply Forall_app.
Qed.

#[local] Hint Resolve only_transfers_refl only_transfers_trans : core.
#[local] Hint Extern 1 (transfer_event _) => exact I : core.

Lemma only_transfers_emit e : transfer_event e -> preserves only_transfers (emit e).
Proof.
  intros He w. split; [reflexivity |]. split; [reflexivity |].
  exists [e]. split; [reflexivity | now constructor].
Qed.

Lemma only_transfers_call {X} e (f : list Event -> X) :
  transfer_event e -> preserves only_transfers (call e f).
Proof.
  intros He w. split; [reflexivity |]. split; [reflexivity |].
  exists [e]. split; [reflexivity | now constructor].
Qed.

Lemma only_transfers_report b d t : preserves only_transfers (report b d t).
Proof.
  destruct b; cbn [report]; [apply only_transfers_emit; exact I | now apply preserves_ret].
Qed.

#[local] Hint Resolve only_transfers_emit only_transfers_call only_transfers_report : core.

Section TransfersOnly.

Variable env : Env.

Lemma only_transfers_copyTo a b c : preserves only_transfers (FileManager_copyTo env a b c).
Proof. unfold FileManager_copyTo. preserves_auto. Qed.

Lemma only_transfers_copyFiles a b : preserves only_transfers (FileManager_copyFiles env a b).
Proof. unfold FileManager_copyFiles. preserves_auto. Qed.

Lemma only_transfers_getDirectoryFiles path :
  preserves only_transfers (FileManager_getDirectoryFiles env path).
Proof. unfold FileManager_getDirectoryFiles. preserves_auto. Qed.

Lemma only_transfers__fetchManifest u : preserves only_transfers (_fetchManifest env u).
Proof. unfold _fetchManifest. preserves_auto. Qed.

#[local] Hint Resolve only_transfers_copyTo only_transfers_copyFiles
  only_transfers_getDirectoryFiles only_transfers__fetchManifest : core.

Lemma only_transfers__recursiveFilesInPath depth : forall filePath suffix folderName,
  preserves only_transfers (_recursiveFilesInPath env depth filePath suffix folderName).
Proof.
  induction depth as [| depth IH]; intros filePath suffix folderName;
    cbn [_recursiveFilesInPath].
  - preserves_auto.
  - cbv zeta. apply preserves_bind; [eauto | auto |]. intros filesNames.
    match goal with
    | |- preserves _ (?each_folder _ _) =>
        assert (Hwalk : forall folders files,
                   preserves only_transfers (each_folder folders files));
          [ induction folders as [| f r IHf]; intros files; preserves_auto
          | apply Hwalk ]
    end.
Qed.

Lemma only_transfers_reconcile progress total files rows : forall d,
  preserves only_transfers (reconcile progress total files rows d).
Proof.
  induction rows as [| r rows IH]; intros d; cbn [reconcile]; preserves_auto.
Qed.

#[local] Hint Resolve only_transfers__recursiveFilesInPath only_transfers_reconcile : core.

Lemma only_transfers__diffManifests depth newManifest oldManifest filePath total progress :
  preserves only_transfers
    (_diffManifests env depth newManifest oldManifest filePath total progress).
Proof. unfold _diffManifests, _diffManifests_try. preserves_auto. Qed.

Lemma only_transfers_settle progress total pending : forall flying d,
  preserves only_transfers (settle env progress total pending flying d).
Proof.
  induction pending as [| pending IH]; intros flying d; cbn [settle]; preserves_auto.
Qed.

#[local] Hint Resolve only_transfers_settle : core.

Lemma only_transfers_download_loop baseUrl versionId progress total manifest :
  forall downloads count d,
    preserves only_transfers
      (download_loop env baseUrl versionId progress total manifest downloads count d).
Proof.
  induction manifest as [| e rest IH]; intros ds c d; cbn [download_loop];
    unfold Promise_all, downloadFile; preserves_auto.
Qed.

#[local] Hint Resolve only_transfers_download_loop : core.

Lemma only_transfers__downloadFilesFromManifest baseUrl manifest versionId d total progress :
  preserves only_transfers
    (_downloadFilesFromManifest env baseUrl manifest versionId d total progress).
Proof. unfold _downloadFilesFromManifest, Promise_all. preserves_auto. Qed.

Lemma only_transfers__copyCurrentAppDir folder versionId manifest total progress : forall d,
  preserves only_transfers
    (_copyCurrentAppDir env folder versionId manifest d total progress).
Proof.
  induction manifest as [| e rest IH]; intros d; cbn [_copyCurrentAppDir];
    preserves_auto.
Qed.

#[local] Hint Resolve only_transfers__copyCurrentAppDir : core.

Lemma only_transfers_prepareUpdateDirectory versionId current manifest d total progress :
  preserves only_transfers
    (prepareUpdateDirectory env versionId current manifest d total progress).
Proof. unfold prepareUpdateDirectory, _copyBaseAppDir. preserves_auto. Qed.

Lemma only_transfers_fetch_currentManifest update current :
  preserves only_transfers (fetch_currentManifest env update current).
Proof. unfold fetch_currentManifest. preserves_auto. Qed.

(** A computation that starts with a step of the download either stops
    there, without returning, or goes on from a world that differs by calls
    of the download only. *)
Lemma transfers_then {A B} (m : M A) (k : A -> M B) w0 w :
  preserves only_transfers m ->
  only_transfers w0 w ->
  (only_transfers w0 (snd (bind m k w)) /\ forall b, fst (bind m k w) <> Returned b)
  \/ exists a w1, only_transfers w0 w1 /\ bind m k w = k a w1.
Proof.
  intros Hm H0. specialize (Hm w). unfold bind.
  destruct (m w) as [[a | e |] w1]; cbn [fst snd] in *.
  - right. exists a, w1. split; [eauto | reflexivity].
  - left. split; [eauto | discriminate].
  - left. split; [eauto | discriminate].
Qed.

(** X9: [downloadUpdate] changes nothing in memory until every file is in
    place: whatever stops it before, the preferences are as they were and
    only calls of the download were made.  Once it has marked the update
    Pending it hands the preferences to the native store as its last call,
    and it returns true exactly when the store accepts them; the update
    stays Pending in memory also when the store refuses.  It never sends
    the webview anywhere. *)
Theorem downloadUpdate_all_or_nothing depth progress w :
  let r := fst (downloadUpdate env depth progress w) in
  let w' := snd (downloadUpdate env depth progress w) in
  serverBasePath w' = serverBasePath w
  /\ ((r <> Returned true /\ only_transfers w w')
      \/ exists u before,
           availableUpdate (prefs w) = Some u
           /\ state u = Available
           /\ prefs w' = with_availableUpdate (prefs w) (Some (with_state u Pending))
           /\ trace w' = (trace w ++ before ++ [Exec_setPreferences (prefs w')])%list
           /\ Forall transfer_event before
           /\ (r = Returned true
               <-> native_setPreferences env (trace w ++ before)%list (prefs w') = true)).
Proof.
  cbv zeta.
  assert (Hstop : forall (x : Res bool * World),
            only_transfers w (snd x) -> (forall b, fst x <> Returned b) ->
            serverBasePath (snd x) = serverBasePath w
            /\ ((fst x <> Returned true /\ only_transfers w (snd x))
                \/ exists u before,
                     availableUpdate (prefs w) = Some u
                     /\ state u = Available
                     /\ prefs (snd x)
                        = with_availableUpdate (prefs w) (Some (with_state u Pending))
                     /\ trace (snd x)
                        = (trace w ++ before ++ [Exec_setPreferences (prefs (snd x))])%list
                     /\ Forall transfer_event before
                     /\ (fst x = Returned true
                         <-> native_setPreferences env (trace w ++ before)%list
                               (prefs (snd x)) = true))).
  { intros x Hx Hr. split; [apply Hx |]. left. split; [apply Hr | exact Hx]. }
  unfold downloadUpdate. rewrite bind_get_prefs.
  destruct (availableUpdate (prefs w)) as [u |] eqn:Ha.
  2:{ split; [reflexivity |]. left. split; [discriminate | apply only_transfers_refl]. }
  destruct (state u) eqn:Hs; cbn [UpdateState_eqb];
    try (split; [reflexivity |]; left; split; [discriminate | apply only_transfers_refl]).
  match goal with
  | |- context [bind ?m ?k w] =>
      destruct (transfers_then m k w w (only_transfers__fetchManifest _)
                  (only_transfers_refl w))
        as [[Hx Hr] | (fetched & w1 & H1 & ->)]; [now apply Hstop |]
  end.
  match goal with
  | |- context [bind ?m ?k w1] =>
      destruct (transfers_then m k w w1) as [[Hx Hr] | (cur & w2 & H2 & ->)];
        [ | exact H1 | now apply Hstop | ]
  end.
  { destruct (currentVersionId (prefs w)) as [c |]; [| preserves_auto].
    destruct (JS.truthy c); [apply only_transfers_fetch_currentManifest | preserves_auto]. }
  cbv zeta.
  match goal with
  | |- context [bind ?m ?k w2] =>
      destruct (transfers_then m k w w2 (only_transfers__diffManifests _ _ _ _ _ _) H2)
        as [[Hx Hr] | (d & w3 & H3 & ->)]; [now apply Hstop |]
  end.
  match goal with
  | |- context [bind ?m ?k w3] =>
      destruct (transfers_then m k w w3 (only_transfers_report _ _ _) H3)
        as [[Hx Hr] | ([] & w4 & H4 & ->)]; [now apply Hstop |]
  end.
  match goal with
  | |- context [bind ?m ?k w4] =>
      destruct (transfers_then m k w w4
                  (only_transfers_prepareUpdateDirectory _ _ _ _ _ _) H4)
        as [[Hx Hr] | (d1 & w5 & H5 & ->)]; [now apply Hstop |]
  end.
  match goal with
  | |- context [bind ?m ?k w5] =>
      destruct (transfers_then m k w w5
                  (only_transfers__downloadFilesFromManifest _ _ _ _ _ _) H5)
        as [[Hx Hr] | ([] & w6 & H6 & ->)]; [now apply Hstop |]
  end.
  destruct H6 as (P6 & B6 & before & T6 & F6).
  rewrite bind_modify_prefs, bind__savePrefs. cbn [prefs trace]. rewrite P6, Ha, T6.
  split.
  { destruct (native_setPreferences env _ _); cbn; exact B6. }
  right. exists u, before. split; [reflexivity |]. split; [exact Hs |].
  destruct (native_setPreferences env (trace w ++ before)%list
              (with_availableUpdate (prefs w) (Some (with_state u Pending)))) eqn:Hsave;
    try unfold ret; cbn [fst snd]; rewrite ?prefs_logged, ?trace_logged;
    cbn [prefs trace]; rewrite ?Hsave, <- ?app_assoc;
    (split; [reflexivity |]); (split; [reflexivity |]); (split; [exact F6 |]);
    split; congruence.
Qed.

(** X10: The manifest of the current version is asked for only when putting the
    current version id in place of the new one changes the URL; whatever
    the answer, the step does not reject, and a failed fetch leaves no
    baseline. *)
Theorem fetch_currentManifest_never_rejects update current w :
  let newUrl := JS.replace (url update) (versionId update) current in
  exists r evs,
    fetch_currentManifest env update current w = (Returned r, logged w evs)
    /\ (newUrl = url update -> r = None /\ evs = [])
    /\ (newUrl <> url update ->
        evs = [Fetch_manifest newUrl]
        /\ r = option_map manifestJson (fetch_manifest env (trace w) newUrl)).
Proof.
  cbv zeta. unfold fetch_currentManifest.
  destruct (String.eqb_spec (JS.replace (url update) (versionId update) current) (url update))
    as [E | N]; cbn [negb].
  - exists None, []. rewrite logged_nil. split; [reflexivity |].
    split; [auto | contradiction].
  - unfold _fetchManifest.
    destruct (fetch_manifest env (trace w)
                (JS.replace (url update) (versionId update) current)) as [resp |] eqn:F.
    + exists (Some (manifestJson resp)), [Fetch_manifest
                 (JS.replace (url update) (versionId update) current)].
      split; [| split; [contradiction | auto]].
      apply try_catch_returned. rewrite bind_bind, bind_call, F. reflexivity.
    + exists None, [Fetch_manifest (JS.replace (url update) (versionId update) current)].
      split; [| split; [contradiction | auto]].
      erewrite try_catch_thrown; [reflexivity |].
      rewrite bind_bind, bind_call, F. reflexivity.
Qed.

End TransfersOnly.

(* ================================================================= *)
(** ** checkForUpdate *)

Lemma with_availableUpdate_same p : with_availableUpdate p (availableUpdate p) = p.
Proof. now destruct p. Qed.

Section Check.

Variable env : Env.

(** X11: [checkForUpdate] returns only what the update service answered with a
    status from 200 to 299 and a body that could be parsed, and only when
    the device is online. *)
Theorem checkForUpdate_returns_the_answer w r w' :
  checkForUpdate env w = (Returned r, w') ->
  navigator_onLine env (trace w) = true
  /\ exists status,
       fetch_check env (trace w)
         (host (prefs w) ++ "/apps/" ++ appId (prefs w) ++ "/channels/check-device")
       = Some (status, Some (Some r))
       /\ (200 <= status <= 299)%Z.
Proof.
  unfold checkForUpdate, checkForUpdate_answered. rewrite bind_ask.
  destruct (navigator_onLine env (trace w)); cbn [negb]; [| discriminate].
  rewrite bind_get_prefs, bind_call.
  destruct (fetch_check env (trace w) _) as [[status body] |]; [| discriminate].
  intros H. split; [reflexivity |]. exists status.
  destruct ((200 <=? status) && (status <=? 299))%Z eqn:Hok.
  2:{ destruct (status <? 500)%Z; [destruct body |]; discriminate. }
  apply andb_true_iff in Hok. destruct Hok as [H1 H2].
  apply Z.leb_le in H1, H2.
  destruct (Z.ltb_spec status 500) as [_ | ?]; [| lia].
  destruct body as [j |]; [| discriminate]. rewrite bind_ret in H.
  destruct j as [resp |]; [| discriminate].
  assert (resp = r) as ->.
  { destruct (available resp); [| now apply returned_inj in H].
    destruct (resp_url resp) as [u |]; [| now apply returned_inj in H].
    destruct (snapshot resp) as [s |]; [| now apply returned_inj in H].
    destruct (build resp) as [b |]; [| now apply returned_inj in H].
    destruct (JS.truthy u && JS.truthy s && JS.truthy b); [| now apply returned_inj in H].
    rewrite bind_ask, bind_modify_prefs, bind__savePrefs in H.
    destruct (native_setPreferences env _ _); [| discriminate].
    now apply returned_inj in H. }
  split; [reflexivity | lia].
Qed.

(** X12: Whatever its outcome, [checkForUpdate] touches nothing of the
    preferences but [availableUpdate] and leaves the webview alone; it
    makes at most one request to the service.  When it replaces
    [availableUpdate], the record is Available, is stamped with the
    channel and the binary version of the device and with the time of the
    answer, carries a URL, a version id and a build id that are not empty,
    and is handed to the native store at once. *)
Theorem checkForUpdate_records_only_the_offer w :
  let w' := snd (checkForUpdate env w) in
  let request :=
    Fetch_check (host (prefs w) ++ "/apps/" ++ appId (prefs w) ++ "/channels/check-device")
                (currentVersionId (prefs w)) (currentBuildId (prefs w)) in
  serverBasePath w' = serverBasePath w
  /\ prefs w' = with_availableUpdate (prefs w) (availableUpdate (prefs w'))
  /\ ((availableUpdate (prefs w') = availableUpdate (prefs w)
       /\ (trace w' = trace w \/ trace w' = (trace w ++ [request])%list))
      \/ exists u,
           availableUpdate (prefs w') = Some u
           /\ trace w' = (trace w ++ [request; Exec_setPreferences (prefs w')])%list
           /\ state u = Available
           /\ channel u = prefs_channel (prefs w)
           /\ binaryVersionName u = prefs_binaryVersionName (prefs w)
           /\ binaryVersionCode u = prefs_binaryVersionCode (prefs w)
           /\ lastUsed u = Date_toISOString env (trace w ++ [request])%list
           /\ JS.truthy (url u) = true
           /\ JS.truthy (versionId u) = true
           /\ JS.truthy (buildId u) = true).
Proof.
  cbv zeta.
  set (request := Fetch_check _ _ _).
  match goal with
  | |- ?G =>
      let P := eval pattern (snd (checkForUpdate env w)) in G in
      match P with ?Q _ => set (Post := Q) end
  end.
  change (Post (snd (checkForUpdate env w))).
  (* nothing was recorded *)
  assert (Hsame : forall w', w' = w \/ w' = logged w [request] -> Post w').
  { intros w' Hw'. subst Post. cbv beta.
    assert (E : prefs w' = prefs w /\ serverBasePath w' = serverBasePath w)
      by (destruct Hw' as [-> | ->]; now split).
    destruct E as [Ep Eb]. rewrite Ep, Eb.
    split; [reflexivity |]. split; [now rewrite with_availableUpdate_same |].
    left. split; [reflexivity |]. destruct Hw' as [-> | ->]; [now left | now right]. }
  (* the offer was recorded, whether the store accepted it or not *)
  assert (Hoffer : forall u s b,
            JS.truthy u = true -> JS.truthy s = true -> JS.truthy b = true ->
            let p' :=
              with_availableUpdate (prefs w)
                (Some {| binaryVersionCode := prefs_binaryVersionCode (prefs w);
                         binaryVersionName := prefs_binaryVersionName (prefs w);
                         channel := prefs_channel (prefs w);
                         state := Available;
                         lastUsed := Date_toISOString env (trace w ++ [request])%list;
                         url := u; versionId := s; buildId := b |}) in
            Post {| prefs := p'; serverBasePath := serverBasePath w;
                    trace := ((trace w ++ [request]) ++ [Exec_setPreferences p'])%list |}).
  { intros u s b Hu Hs Hb p'. subst Post. cbv beta.
    cbn [prefs serverBasePath trace]. subst p'. cbn [availableUpdate with_availableUpdate].
    split; [reflexivity |]. split; [reflexivity |]. right. eexists.
    split; [reflexivity |]. split; [now rewrite <- app_assoc |].
    cbn. repeat split; assumption. }
  clearbody Post.
  unfold checkForUpdate, checkForUpdate_answered. rewrite bind_ask.
  destruct (navigator_onLine env (trace w)); cbn [negb]; [| apply Hsame; now left].
  rewrite bind_get_prefs, bind_call. fold request.
  destruct (fetch_check env (trace w) _) as [[status body] |];
    [| apply Hsame; now right].
  assert (Hgo : forall jsonResp,
            Post (snd
              ((if ((200 <=? status) && (status <=? 299))%Z then
                  match jsonResp with
                  | Some (Some checkForUpdateResp) =>
                      match available checkForUpdateResp,
                            resp_url checkForUpdateResp,
                            snapshot checkForUpdateResp,
                            build checkForUpdateResp with
                      | true, Some u, Some s, Some b =>
                          if JS.truthy u && JS.truthy s && JS.truthy b then
                            now <- ask (Date_toISOString env) ;;
                            modify_prefs (fun p =>
                              with_availableUpdate p
                                (Some {| binaryVersionCode := prefs_binaryVersionCode p;
                                         binaryVersionName := prefs_binaryVersionName p;
                                         channel := prefs_channel p;
                                         state := Available;
                                         lastUsed := now;
                                         url := u;
                                         versionId := s;
                                         buildId := b |})) ;;
                            _savePrefs env ;;
                            ret checkForUpdateResp
                          else ret checkForUpdateResp
                      | _, _, _, _ => ret checkForUpdateResp
                      end
                  | _ => throw "TypeError"
                  end
                else throw "Error Status") (logged w [request])))).
  { intros jsonResp.
    destruct ((200 <=? status) && (status <=? 299))%Z; [| apply Hsame; now right].
    destruct jsonResp as [[resp |] |]; try (apply Hsame; now right).
    destruct (available resp); [| apply Hsame; now right].
    destruct (resp_url resp) as [u |]; [| apply Hsame; now right].
    destruct (snapshot resp) as [s |]; [| apply Hsame; now right].
    destruct (build resp) as [b |]; [| apply Hsame; now right].
    destruct (JS.truthy u && JS.truthy s && JS.truthy b) eqn:Htruthy;
      [| apply Hsame; now right].
    apply andb_true_iff in Htruthy. destruct Htruthy as [Htruthy Hb].
    apply andb_true_iff in Htruthy. destruct Htruthy as [Hu Hs].
    rewrite bind_ask, bind_modify_prefs, bind__savePrefs.
    rewrite !prefs_logged, !trace_logged, serverBasePath_logged. cbn [prefs trace].
    destruct (native_setPreferences env _ _); exact (Hoffer u s b Hu Hs Hb). }
  destruct (status <? 500)%Z.
  - destruct body as [j |]; [| apply Hsame; now right].
    rewrite bind_ret. exact (Hgo (Some j)).
  - rewrite bind_ret. exact (Hgo None).
Qed.

End Check.

(** The service offers version v2 to a device that runs the bundled
    application. *)
Lemma checkForUpdate_returns_the_answer_witness :
  let env := Sample.collaborators true (Some "v2") in
  let w := Sample.world (Sample.preferences None [] None) "/www" in
  navigator_onLine env (trace w) = true
  /\ exists status,
       fetch_check env (trace w) "https://api/apps/app/channels/check-device"
       = Some (status,
               Some (Some {| available := true; compatible := true; partial := false;
                             resp_url := Some "https://api/snapshots/v2/manifest.json";
                             snapshot := Some "v2"; build := Some "b-v2" |}))
       /\ (200 <= status <= 299)%Z.
Proof.
  intros env w.
  apply (checkForUpdate_returns_the_answer env w _ (snd (checkForUpdate env w))).
  reflexivity.
Defined.

(* ================================================================= *)
(** ** extractUpdate and the version queries *)

Lemma get_set_other {V} (o : Obj.t V) k k' v :
  k <> k' -> Obj.get (Obj.set o k v) k' = Obj.get o k'.
Proof.
  intros Hne. induction o as [| [k0 v0] o IH]; cbn [Obj.set Obj.get].
  - destruct (String.eqb_spec k k'); [contradiction | reflexivity].
  - destruct (String.eqb_spec k0 k) as [-> | Hk0]; cbn [Obj.get].
    + destruct (String.eqb_spec k k'); [contradiction |].
      now apply ObjFacts.get_delete_other.
    + rewrite IH. reflexivity.
Qed.

Lemma getVersionById_run v w :
  getVersionById v w
  = (Returned match Obj.get (updates (prefs w)) v with
              | Some u => Some (Descriptor_of (_convertToSnapshotInfo u))
              | None => if JS.inherited v then Some Descriptor_undefined else None
              end, w).
Proof.
  unfold getVersionById, Obj.read. rewrite bind_get_prefs.
  destruct (Obj.get (updates (prefs w)) v); [reflexivity |].
  now destruct (JS.inherited v).
Qed.

Section Extract.

Variable env : Env.

(** Without a Pending update [extractUpdate] does nothing. *)
Lemma extractUpdate_idle progress w :
  match availableUpdate (prefs w) with
  | Some u => state u <> Pending
  | None => True
  end ->
  extractUpdate env progress w = (Returned false, w).
Proof.
  intros H. unfold extractUpdate. rewrite bind_get_prefs.
  destruct (availableUpdate (prefs w)) as [u |]; [| reflexivity].
  destruct (state u); cbn; try reflexivity. congruence.
Qed.

(** [extractUpdate] on a Pending update, step by step. *)
Lemma extractUpdate_run (progress : bool) w u :
  availableUpdate (prefs w) = Some u ->
  state u = Pending ->
  let said := if progress then [Progress_100] else [] in
  let p' := with_updates (with_availableUpdate (prefs w) (Some (with_state u Ready)))
                         (Obj.set (updates (prefs w)) (versionId u) (with_state u Ready)) in
  let w' := {| prefs := p'; serverBasePath := serverBasePath w;
               trace := (trace w ++ said ++ [Exec_setPreferences p'])%list |} in
  extractUpdate env progress w
  = if native_setPreferences env (trace w ++ said)%list p'
    then (Returned true, w')
    else (Thrown "setPreferences", w').
Proof.
  intros Ha Hs. cbv zeta.
  unfold extractUpdate. rewrite bind_get_prefs, Ha, Hs. cbn [UpdateState_eqb negb].
  destruct progress.
  - rewrite bind_emit, bind_modify_prefs, bind__savePrefs.
    rewrite prefs_logged, trace_logged, serverBasePath_logged. cbn [prefs trace].
    unfold logged. cbn [prefs trace serverBasePath with_state versionId].
    rewrite <- app_assoc. now destruct (native_setPreferences env _ _).
  - rewrite bind_ret, bind_modify_prefs, bind__savePrefs. cbn [prefs trace].
    unfold logged. cbn [prefs trace serverBasePath with_state versionId app].
    rewrite app_nil_r. now destruct (native_setPreferences env _ _).
Qed.


(** X14: After an [extractUpdate], whatever its outcome, another one finds
    nothing to do: it returns false and leaves the world as it is.  In
    particular an update whose save was refused is not saved by calling
    [extractUpdate] again. *)
Theorem extractUpdate_not_repeatable progress progress' w :
  let w1 := snd (extractUpdate env progress w) in
  extractUpdate env progress' w1 = (Returned false, w1).
Proof.
  cbv zeta. apply extractUpdate_idle.
  destruct (availableUpdate (prefs w)) as [u |] eqn:Ha.
  - destruct (state u) eqn:Hs.
    + rewrite extractUpdate_idle by (rewrite Ha; congruence).
      cbn [snd]. rewrite Ha, Hs. discriminate.
    + rewrite (extractUpdate_run progress w u Ha Hs).
      destruct (native_setPreferences env _ _); cbn; discriminate.
    + rewrite extractUpdate_idle by (rewrite Ha; congruence).
      cbn [snd]. rewrite Ha, Hs. discriminate.
  - rewrite extractUpdate_idle by now rewrite Ha.
    cbn [snd]. now rewrite Ha.
Qed.

End Extract.


Lemma getStoredUpdates_keyed p :
  keyed_by_versionId (updates p) ->
  map versionId (getStoredUpdates p) = Obj.keys (updates p).
Proof.
  intros Hk. unfold getStoredUpdates.
  assert (H : forall k, In k (Obj.keys (updates p)) ->
            exists u, Obj.get (updates p) k = Some u /\ versionId u = k).
  { intros k Hin. unfold Obj.keys in Hin. apply in_map_iff in Hin.
    destruct Hin as ([k' u'] & <- & Hin). cbn [fst].
    destruct (Obj.get (updates p) k') as [u |] eqn:G.
    - exists u. split; [reflexivity |].
      apply ObjFacts.get_In in G. unfold keyed_by_versionId in Hk.
      rewrite forallb_forall in Hk. specialize (Hk _ G). cbn in Hk.
      apply String.eqb_eq in Hk. now symmetry.
    - exfalso. clear Hk. induction (updates p) as [| [k0 v0] o IH]; [destruct Hin |].
      cbn [Obj.get] in G. destruct (String.eqb_spec k0 k') as [-> | Hne]; [discriminate |].
      destruct Hin as [E | Hin]; [injection E as -> _; contradiction | auto]. }
  induction (Obj.keys (updates p)) as [| k ks IH]; [reflexivity |].
  cbn [flat_map]. destruct (H k (or_introl eq_refl)) as (u & -> & Hv).
  cbn [app map]. rewrite Hv. f_equal. apply IH. intros k' Hk'. apply H. now right.
Qed.

(** X15: With [updates] keyed by version id, [getAvailableVersions] describes
    each registered version once, in the order of the keys, and changes
    nothing. *)
Theorem getAvailableVersions_lists_the_keys w :
  keyed_by_versionId (updates (prefs w)) ->
  exists infos,
    getAvailableVersions w = (Returned infos, w)
    /\ map info_versionId infos = Obj.keys (updates (prefs w))
    /\ map deploy_uuid infos = Obj.keys (updates (prefs w))
    /\ forall info, In info infos ->
         exists u, Obj.get (updates (prefs w)) (info_versionId info) = Some u
                   /\ info = _convertToSnapshotInfo u.
Proof.
  intros Hk. eexists. unfold getAvailableVersions. rewrite bind_get_prefs.
  split; [reflexivity |].
  rewrite !map_map. cbn [info_versionId deploy_uuid _convertToSnapshotInfo].
  split; [now apply getStoredUpdates_keyed |]. split; [now apply getStoredUpdates_keyed |].
  intros info Hin. apply in_map_iff in Hin. destruct Hin as (u & <- & Hin).
  exists u. split; [| reflexivity]. cbn [info_versionId _convertToSnapshotInfo].
  now apply stored_update_keyed.
Qed.

Lemma getAvailableVersions_lists_the_keys_witness :
  let v1 := Sample.update "v1" "2020-01-01T00:00:00.000Z" Ready in
  let v2 := Sample.update "v2" "2020-01-02T00:00:00.000Z" Ready in
  let w := Sample.world (Sample.preferences (Some "v1") [v2; v1] None) "/www" in
  exists infos,
    getAvailableVersions w = (Returned infos, w)
    /\ map info_versionId infos = ["v2"; "v1"].
Proof.
  intros v1 v2 w.
  destruct (getAvailableVersions_lists_the_keys w eq_refl) as (infos & Hrun & Hids & _).
  exists infos. split; [exact Hrun | exact Hids].
Defined.

Section Deleted.

Variable env : Env.


(** X17: The current version is deleted while the webview serves something
    else, and [currentVersionId] goes on naming it.  The next [reloadApp]
    reports it missing, fires the ready signal, returns false and leaves
    the webview where it is; unless the id is the name of a member of
    [Object.prototype], which [in] finds in [updates]: then [reloadApp]
    sends the webview to the snapshot directory of the deleted version and
    returns true. *)
Theorem reloadApp_after_deleting_the_current_version c w :
  currentVersionId (prefs w) = Some c ->
  JS.truthy c = true ->
  JS.includes (serverBasePath w) c = false ->
  availableUpdate (prefs w) = None ->
  let w1 := snd (deleteVersionById env c w) in
  currentVersionId (prefs w1) = Some c
  /\ reloadApp env w1
     = if JS.inherited c
       then (Returned true,
             {| prefs := prefs w1;
                serverBasePath := getSnapshotCacheDir env c;
                trace := (trace w1
                          ++ [WebView_setServerBasePath (getSnapshotCacheDir env c)])%list |})
       else (Returned false,
             logged w1 [Console_error_missing c; OnIonicProReady_fire]).
Proof.
  intros Hcur Htruthy Hserved Hnone. cbv zeta. rewrite deleteVersionById_run.
  assert (H : forall x : Res bool * World,
            prefs (snd x) = prefs (removed w c) ->
            serverBasePath (snd x) = serverBasePath w ->
            currentVersionId (prefs (snd x)) = Some c
            /\ reloadApp env (snd x)
               = if JS.inherited c
                 then (Returned true,
                       {| prefs := prefs (snd x);
                          serverBasePath := getSnapshotCacheDir env c;
                          trace := (trace (snd x)
                                    ++ [WebView_setServerBasePath
                                          (getSnapshotCacheDir env c)])%list |})
                 else (Returned false,
                       logged (snd x) [Console_error_missing c; OnIonicProReady_fire])).
  { intros x Hp Hb. split; [now rewrite Hp |].
    unfold reloadApp. rewrite bind_get_prefs, Hp.
    cbn [removed prefs availableUpdate with_updates]. rewrite Hnone, bind_ret, bind_get_prefs, Hp.
    cbn [removed prefs currentVersionId updates with_updates]. rewrite Hcur, Htruthy.
    rewrite bind__isRunningVersion, Hb, Hserved.
    unfold Obj.has. rewrite ObjFacts.get_delete_same.
    destruct (JS.inherited c); cbn [negb].
    - cbv zeta. unfold WebView_setServerBasePath_call, bind. now rewrite Hp.
    - now autorewrite with run. }
  destruct (native_setPreferences env _ _); apply H; reflexivity.
Qed.

End Deleted.

(** The current version is deleted and the application reloaded, once for
    an ordinary id and once for an id that [Object.prototype] knows. *)
Lemma reloadApp_after_deleting_the_current_version_witness :
  let installed v := [Sample.update v "2020-01-01T00:00:00.000Z" Ready] in
  let w v := Sample.world (Sample.preferences (Some v) (installed v) None) "/www" in
  let w1 v := snd (deleteVersionById Sample.env v (w v)) in
  (reloadApp Sample.env (w1 "v1")
   = (Returned false, logged (w1 "v1") [Console_error_missing "v1"; OnIonicProReady_fire]))
  /\ fst (reloadApp Sample.env (w1 "toString")) = Returned true
  /\ serverBasePath (snd (reloadApp Sample.env (w1 "toString")))
     = "/data/ionic_built_snapshots/toString".
Proof.
  intros installed w w1.
  destruct (reloadApp_after_deleting_the_current_version Sample.env "v1" (w "v1")
              eq_refl eq_refl eq_refl eq_refl) as [_ Hv1].
  destruct (reloadApp_after_deleting_the_current_version Sample.env "toString" (w "toString")
              eq_refl eq_refl eq_refl eq_refl) as [_ Hts].
  split; [exact Hv1 |].
  fold (w1 "toString") in Hts. rewrite Hts. split; reflexivity.
Defined.

(* ================================================================= *)
(** ** The registry of installed versions stays well formed *)

Lemma keys_delete_In {V} (o : Obj.t V) k x :
  In x (Obj.keys (Obj.delete o k)) -> In x (Obj.keys o) /\ x <> k.
Proof.
  unfold Obj.keys, Obj.delete. intros H. apply in_map_iff in H.
  destruct H as ([k' v'] & <- & H). apply filter_In in H. destruct H as [H Hne].
  cbn [fst] in *. split; [now apply (in_map fst) in H |].
  apply negb_true_iff in Hne. now apply String.eqb_neq in Hne.
Qed.

Lemma NoDup_keys_delete {V} (o : Obj.t V) k :
  NoDup (Obj.keys o) -> NoDup (Obj.keys (Obj.delete o k)).
Proof.
  unfold Obj.keys, Obj.delete. induction o as [| [k0 v0] o IH]; intros H; [constructor |].
  cbn [map fst] in H. inversion H as [| ? ? Hnot Hrest]; subst.
  cbn [filter fst]. destruct (negb (String.eqb k0 k)); [| auto].
  cbn [map fst]. constructor; [| auto].
  intros Hin. apply Hnot. apply in_map_iff in Hin. destruct Hin as (kv & E & Hin).
  apply filter_In in Hin. destruct Hin as [Hin _]. rewrite <- E. now apply in_map.
Qed.

Lemma keys_set_In {V} (o : Obj.t V) k v x :
  In x (Obj.keys (Obj.set o k v)) -> x = k \/ In x (Obj.keys o).
Proof.
  induction o as [| [k0 v0] o IH]; cbn [Obj.set].
  - intros [<- | []]. now left.
  - destruct (String.eqb_spec k0 k) as [-> | Hne].
    + intros [<- | H]; [now left |]. apply keys_delete_In in H. right. right. apply H.
    + intros [<- | H]; [right; now left |].
      destruct (IH H) as [-> | H']; [now left | right; now right].
Qed.

Lemma NoDup_keys_set {V} (o : Obj.t V) k v :
  NoDup (Obj.keys o) -> NoDup (Obj.keys (Obj.set o k v)).
Proof.
  induction o as [| [k0 v0] o IH]; intros H; cbn [Obj.set].
  - repeat constructor. intros [].
  - change (Obj.keys ((k0, v0) :: o)) with (k0 :: Obj.keys o) in H.
    inversion H as [| ? ? Hnot Hrest]; subst.
    destruct (String.eqb_spec k0 k) as [-> | Hne].
    + change (NoDup (k :: Obj.keys (Obj.delete o k))). constructor.
      * intros Hin. apply keys_delete_In in Hin. now destruct Hin.
      * now apply NoDup_keys_delete.
    + change (NoDup (k0 :: Obj.keys (Obj.set o k v))). constructor; [| auto].
      intros Hin. apply keys_set_In in Hin. destruct Hin as [-> | Hin]; contradiction.
Qed.

Lemma keyed_delete o k : keyed_by_versionId o -> keyed_by_versionId (Obj.delete o k).
Proof.
  unfold keyed_by_versionId, Obj.delete. rewrite !forallb_forall.
  intros H kv Hin. apply filter_In in Hin. now apply H.
Qed.

Lemma keyed_set o u :
  keyed_by_versionId o -> keyed_by_versionId (Obj.set o (versionId u) u).
Proof.
  unfold keyed_by_versionId. induction o as [| [k0 v0] o IH]; cbn [Obj.set forallb].
  - intros _. cbn. now rewrite String.eqb_refl.
  - intros H. apply andb_true_iff in H. destruct H as [H0 H]. cbn [fst snd] in H0.
    destruct (String.eqb k0 (versionId u)); cbn [forallb fst snd].
    + rewrite String.eqb_refl. apply (keyed_delete o (versionId u) H).
    + rewrite H0. now apply IH.
Qed.

Lemma registry_ok_delete o k : registry_ok o -> registry_ok (Obj.delete o k).
Proof. intros [H1 H2]. split; [now apply keyed_delete | now apply NoDup_keys_delete]. Qed.

Lemma registry_ok_set o u : registry_ok o -> registry_ok (Obj.set o (versionId u) u).
Proof. intros [H1 H2]. split; [now apply keyed_set | now apply NoDup_keys_set]. Qed.

Lemma keeps_registry_refl w : keeps_registry w w.
Proof. intros H. exact H. Qed.

Lemma keeps_registry_trans a b c :
  keeps_registry a b -> keeps_registry b c -> keeps_registry a c.
Proof. unfold keeps_registry. auto. Qed.

#[local] Hint Resolve keeps_registry_refl keeps_registry_trans : core.

Lemma same_heap_keeps_registry w w' : same_heap w w' -> keeps_registry w w'.
Proof. intros [H _] Hok. now rewrite H. Qed.

Lemma housekeeping_grows w w' :
  housekeeping w w' -> exists evs, trace w' = (trace w ++ evs)%list.
Proof. intros (_ & _ & _ & _ & _ & _ & evs & T & _). now exists evs. Qed.

Section Registry.

Variable env : Env.

Lemma keeps_registry_io {A} (m : M A) : preserves same_heap m -> preserves keeps_registry m.
Proof. apply preserves_weaken. apply same_heap_keeps_registry. Qed.

Lemma keeps_registry_frame f :
  (forall p, updates (f p) = updates p) -> preserves keeps_registry (modify_prefs f).
Proof. intros H w Hok. unfold modify_prefs. cbn [snd prefs]. now rewrite H. Qed.

Lemma keeps_registry_delete v :
  preserves keeps_registry
    (modify_prefs (fun p => with_updates p (Obj.delete (updates p) v))).
Proof. intros w Hok. cbn. now apply registry_ok_delete. Qed.

Lemma keeps_registry_register u :
  preserves keeps_registry
    (modify_prefs (fun p =>
       let ready := with_state u Ready in
       with_updates (with_availableUpdate p (Some ready))
                    (Obj.set (updates p) (versionId ready) ready))).
Proof. intros w Hok. cbn. apply (registry_ok_set _ (with_state u Ready) Hok). Qed.

Lemma keeps_registry__savePrefs : preserves keeps_registry (_savePrefs env).
Proof. apply keeps_registry_io, same_heap__savePrefs. Qed.

Lemma keeps_registry_emit e : preserves keeps_registry (emit e).
Proof. apply keeps_registry_io, same_heap_emit. Qed.

Lemma keeps_registry__isRunningVersion v : preserves keeps_registry (_isRunningVersion v).
Proof. intros w H. exact H. Qed.

Lemma keeps_registry_setServerBasePath path :
  preserves keeps_registry (WebView_setServerBasePath_call path).
Proof. intros w H. exact H. Qed.

#[local] Hint Resolve keeps_registry_delete keeps_registry_register
  keeps_registry__savePrefs keeps_registry_emit keeps_registry__isRunningVersion
  keeps_registry_setServerBasePath : core.
#[local] Hint Extern 3 (preserves keeps_registry (modify_prefs _)) =>
  apply keeps_registry_frame;
  let p := fresh "p" in intros p; try destruct (availableUpdate p); reflexivity : core.

Lemma keeps_registry_checkForUpdate : preserves keeps_registry (checkForUpdate env).
Proof. unfold checkForUpdate, checkForUpdate_answered. pose proof (@keeps_registry_io). preserves_auto. Qed.

Lemma keeps_registry_downloadUpdate depth progress :
  preserves keeps_registry (downloadUpdate env depth progress).
Proof.
  pose proof (fun u => keeps_registry_io _ (same_heap__fetchManifest env u)).
  pose proof (fun a b => keeps_registry_io _ (same_heap_fetch_currentManifest env a b)).
  pose proof (fun a b c d e f => keeps_registry_io _ (same_heap__diffManifests env a b c d e f)).
  pose proof (fun a b c => keeps_registry_io _ (same_heap_report a b c)).
  pose proof (fun a b c d e f =>
                keeps_registry_io _ (same_heap_prepareUpdateDirectory env a b c d e f)).
  pose proof (fun a b c d e f =>
                keeps_registry_io _ (same_heap__downloadFilesFromManifest env a b c d e f)).
  unfold downloadUpdate. preserves_auto.
Qed.

Lemma keeps_registry_extractUpdate progress :
  preserves keeps_registry (extractUpdate env progress).
Proof. unfold extractUpdate. preserves_auto. Qed.

Lemma keeps_registry_deleteVersionById v :
  preserves keeps_registry (deleteVersionById env v).
Proof.
  pose proof (fun v => keeps_registry_io _ (same_heap__cleanSnapshotDir env v)).
  unfold deleteVersionById. preserves_auto.
Qed.

#[local] Hint Resolve keeps_registry_deleteVersionById : core.

Lemma keeps_registry_cleanupStaleVersions :
  preserves keeps_registry (cleanupStaleVersions env).
Proof. unfold cleanupStaleVersions. preserves_auto. Qed.

#[local] Hint Resolve keeps_registry_cleanupStaleVersions : core.

Lemma keeps_registry_cleanupVersions : preserves keeps_registry (cleanupVersions env).
Proof. unfold cleanupVersions. preserves_auto. Qed.

#[local] Hint Resolve keeps_registry_cleanupVersions : core.

Lemma keeps_registry_reloadApp : preserves keeps_registry (reloadApp env).
Proof. unfold reloadApp. preserves_auto. Qed.

#[local] Hint Resolve keeps_registry_checkForUpdate keeps_registry_downloadUpdate
  keeps_registry_extractUpdate keeps_registry_reloadApp : core.

Lemma keeps_registry_sync depth method progress :
  preserves keeps_registry (sync env depth method progress).
Proof. unfold sync, sync_checked, availableUpdate_state_is. preserves_auto. Qed.

#[local] Hint Resolve keeps_registry_sync : core.

Lemma keeps_registry_reloadApp_begin : leaves keeps_registry (reloadApp_begin env).
Proof.
  assert (leaves keeps_registry (_savePrefs_begin env)).
  { unfold _savePrefs_begin. pose proof (@keeps_registry_io). leaves_auto. }
  assert (leaves keeps_registry (reloadApp_deployed_begin env)).
  { unfold reloadApp_deployed_begin, reloadApp_answered. leaves_auto. }
  unfold reloadApp_begin. leaves_auto.
Qed.

Lemma keeps_registry_sync_begin depth method progress :
  leaves keeps_registry (sync_begin env depth method progress).
Proof.
  assert (forall raced, preserves keeps_registry (checkForUpdate_answered env raced)).
  { intros raced. unfold checkForUpdate_answered. preserves_auto. }
  assert (forall m, preserves keeps_registry (sync_checked env depth m progress)).
  { intros m. unfold sync_checked, availableUpdate_state_is. preserves_auto. }
  assert (leaves keeps_registry (checkForUpdate_begin env)).
  { unfold checkForUpdate_begin. pose proof (@keeps_registry_io). leaves_auto. }
  unfold sync_begin. leaves_auto.
Qed.

#[local] Hint Resolve keeps_registry_reloadApp_begin keeps_registry_sync_begin : core.

Lemma keeps_registry__handleInitialPreferenceState depth :
  leaves keeps_registry (_handleInitialPreferenceState env depth).
Proof. unfold _handleInitialPreferenceState. leaves_auto. Qed.

Lemma keeps_registry_invoke m : forall w, keeps_registry w (invoke env m w).
Proof.
  destruct m; cbn [invoke]; intros w.
  - apply keeps_registry_checkForUpdate.
  - apply keeps_registry_downloadUpdate.
  - apply keeps_registry_extractUpdate.
  - apply keeps_registry_reloadApp.
  - apply keeps_registry_deleteVersionById.
  - apply keeps_registry_sync.
  - exact (leaves_left_to_itself keeps_registry keeps_registry_trans _ w
             (keeps_registry__handleInitialPreferenceState depth)).
Qed.

(** X18: Whatever methods are called, in whatever order and with whatever
    outcome, [updates] stays what it was at the start: an object with one
    property per key in which every version is registered under its own
    id. *)
Theorem registry_stays_keyed_by_versionId methods : forall w,
  registry_ok (updates (prefs w)) ->
  registry_ok (updates (prefs (fold_left (fun w m => invoke env m w) methods w))).
Proof.
  induction methods as [| m methods IH]; intros w Hok; cbn [fold_left]; [exact Hok |].
  apply IH. now apply keeps_registry_invoke.
Qed.

End Registry.

(** The version v1 is installed; v2 is offered, downloaded, extracted and
    registered by [sync], v1 is deleted, and the engine is started again:
    the registry holds v2 under its id. *)
Lemma registry_stays_keyed_by_versionId_witness :
  let env := Sample.collaborators true (Some "v2") in
  let v1 := Sample.update "v1" "2020-01-01T00:00:00.000Z" Ready in
  let w := Sample.world (Sample.preferences (Some "v1") [v1] None) "/www" in
  let methods := [Method_sync 2 (Some BACKGROUND) false;
                  Method_deleteVersionById "v1";
                  Method_handleInitialPreferenceState 2] in
  let w' := fold_left (fun w m => invoke env m w) methods w in
  registry_ok (updates (prefs w'))
  /\ Obj.keys (updates (prefs w)) = ["v1"]
  /\ Obj.keys (updates (prefs w')) = ["v2"]
  /\ option_map versionId (Obj.get (updates (prefs w')) "v2") = Some "v2".
Proof.
  intros env v1 w methods w'.
  split; [| repeat split; reflexivity].
  apply (registry_stays_keyed_by_versionId env methods w).
  split; [reflexivity |]. repeat constructor. intros [].
Defined.

(* ================================================================= *)
(** ** Cleanup never orphans the current version *)

Lemma current_intact_refl w : current_intact w w.
Proof. intros c H. now split. Qed.

Lemma current_intact_trans a b c :
  current_intact a b -> current_intact b c -> current_intact a c.
Proof.
  intros H1 H2 v Hv. destruct (H2 v Hv) as [Hb Gb]. destruct (H1 v Hb) as [Ha Ga].
  split; [exact Ha | congruence].
Qed.

#[local] Hint Resolve current_intact_refl current_intact_trans : core.

Section Orphans.

Variable env : Env.

(** Deleting a version other than the current one. *)
Lemma current_intact_deleteVersionById v w :
  currentVersionId (prefs w) <> Some v ->
  current_intact w (snd (deleteVersionById env v w)).
Proof.
  intros Hne c. rewrite deleteVersionById_run.
  assert (H : forall x : Res bool * World,
            prefs (snd x) = prefs (removed w v) ->
            currentVersionId (prefs (snd x)) = Some c ->
            currentVersionId (prefs w) = Some c
            /\ Obj.get (updates (prefs (snd x))) c = Obj.get (updates (prefs w)) c).
  { intros x -> Hc. cbn [removed prefs currentVersionId with_updates updates] in *.
    split; [exact Hc |]. apply ObjFacts.get_delete_other. congruence. }
  destruct (native_setPreferences env _ _); apply H; reflexivity.
Qed.

(** Forgetting the current version. *)
Lemma current_intact_forget {A} (m : M A) w :
  (forall w1, currentVersionId (prefs w1) = None ->
              currentVersionId (prefs (snd (m w1))) = None) ->
  current_intact w
    (snd (bind (modify_prefs (fun p => with_current p None (currentBuildId p)))
               (fun _ => m) w)).
Proof.
  intros Hm c. rewrite bind_modify_prefs, Hm by reflexivity. discriminate.
Qed.

Lemma deleteVersionById_keeps_current v w :
  currentVersionId (prefs (snd (deleteVersionById env v w))) = currentVersionId (prefs w).
Proof.
  rewrite deleteVersionById_run. now destruct (native_setPreferences env _ _).
Qed.

Lemma current_intact_stale_turn update :
  preserves current_intact
    (p <- get_prefs ;;
     if negb (isUpdateForCurrentBinary p update) then
       running <- _isRunningVersion (versionId update) ;;
       if negb running then
         (if isUpdateCurrentlyInstalled p update
          then modify_prefs (fun p => with_current p None (currentBuildId p))
          else ret tt) ;;
         deleteVersionById env (versionId update) ;;
         ret tt
       else ret tt
     else ret tt).
Proof.
  intros w. rewrite bind_get_prefs.
  destruct (negb (isUpdateForCurrentBinary (prefs w) update)); [| apply current_intact_refl].
  rewrite bind__isRunningVersion.
  destruct (negb (JS.includes (serverBasePath w) (versionId update)));
    [| apply current_intact_refl].
  destruct (isUpdateCurrentlyInstalled (prefs w) update) eqn:Hinst.
  - apply current_intact_forget. intros w1 H1. unfold bind.
    pose proof (deleteVersionById_keeps_current (versionId update) w1) as K.
    destruct (deleteVersionById env (versionId update) w1) as [[b | e |] w2];
      try unfold ret; cbn [snd] in *; congruence.
  - rewrite bind_ret. unfold bind.
    assert (Hne : currentVersionId (prefs w) <> Some (versionId update)).
    { unfold isUpdateCurrentlyInstalled in Hinst. intros E. rewrite E in Hinst.
      now rewrite String.eqb_refl in Hinst. }
    pose proof (current_intact_deleteVersionById (versionId update) w Hne) as K.
    destruct (deleteVersionById env (versionId update) w) as [[b | e |] w2];
      try unfold ret; cbn [snd] in *; exact K.
Qed.

Lemma current_intact_cleanupStaleVersions :
  preserves current_intact (cleanupStaleVersions env).
Proof.
  unfold cleanupStaleVersions. pose proof current_intact_stale_turn. preserves_auto.
Qed.

Lemma current_intact_cleanupVersions : preserves current_intact (cleanupVersions env).
Proof.
  intros w. unfold cleanupVersions.
  apply rel_bind; [exact current_intact_trans | apply current_intact_cleanupStaleVersions |].
  intros [] w1 _. rewrite bind_get_prefs.
  set (evicted := JS.slice_from _ _).
  assert (Hev : forall u, In u evicted -> isUpdateCurrentlyInstalled (prefs w1) u = false)
    by (intros u; apply evicted_not_installed).
  clearbody evicted.
  assert (Hloop : forall l w2,
            currentVersionId (prefs w2) = currentVersionId (prefs w1) ->
            (forall u, In u l -> In u evicted) ->
            current_intact w2
              (snd (forM_ l (fun update => deleteVersionById env (versionId update) ;; ret tt)
                          w2))).
  { induction l as [| u l IH]; intros w2 Hcur Hin; cbn [forM_]; [apply current_intact_refl |].
    assert (Hne : currentVersionId (prefs w2) <> Some (versionId u)).
    { rewrite Hcur. intros E. specialize (Hev u (Hin u (or_introl eq_refl))).
      unfold isUpdateCurrentlyInstalled in Hev. rewrite E in Hev.
      now rewrite String.eqb_refl in Hev. }
    pose proof (current_intact_deleteVersionById (versionId u) w2 Hne) as K.
    pose proof (deleteVersionById_keeps_current (versionId u) w2) as C.
    rewrite bind_bind. unfold bind at 1.
    destruct (deleteVersionById env (versionId u) w2) as [[b | e |] w3];
      cbn [snd] in *; try exact K.
    rewrite bind_ret. eapply current_intact_trans; [exact K |].
    apply IH; [congruence | intros; apply Hin; now right]. }
  apply Hloop; auto.
Qed.

(** X19: Whatever [cleanupStaleVersions] or [cleanupVersions] delete, and
    whether they return or are rejected on the way, they do not leave
    [currentVersionId] naming a version they have deleted: if a current
    version is still named afterwards, it is the one named before and its
    entry in [updates] is untouched. *)
Theorem cleanup_never_orphans_the_current_version w :
  (forall c, currentVersionId (prefs (snd (cleanupStaleVersions env w))) = Some c ->
     currentVersionId (prefs w) = Some c
     /\ Obj.get (updates (prefs (snd (cleanupStaleVersions env w)))) c
        = Obj.get (updates (prefs w)) c)
  /\ (forall c, currentVersionId (prefs (snd (cleanupVersions env w))) = Some c ->
        currentVersionId (prefs w) = Some c
        /\ Obj.get (updates (prefs (snd (cleanupVersions env w)))) c
           = Obj.get (updates (prefs w)) c).
Proof.
  split.
  - exact (current_intact_cleanupStaleVersions w).
  - exact (current_intact_cleanupVersions w).
Qed.

End Orphans.

(* ================================================================= *)
(** ** What cleanup leaves in the registry *)

Lemma In_get {V} (o : Obj.t V) k v :
  NoDup (Obj.keys o) -> In (k, v) o -> Obj.get o k = Some v.
Proof.
  induction o as [| [k0 v0] o IH]; intros Hnd Hin; [destruct Hin |].
  change (Obj.keys ((k0, v0) :: o)) with (k0 :: Obj.keys o) in Hnd.
  inversion Hnd as [| ? ? Hnot Hrest]; subst. cbn [Obj.get].
  destruct Hin as [E | Hin].
  - injection E as -> ->. now rewrite String.eqb_refl.
  - destruct (String.eqb_spec k0 k) as [-> | Hne]; [| auto].
    exfalso. apply Hnot. apply (in_map fst) in Hin. exact Hin.
Qed.

Lemma same_key_same_entry {V} (o : Obj.t V) (kv kv' : string * V) :
  NoDup (Obj.keys o) -> In kv o -> In kv' o -> fst kv = fst kv' -> kv = kv'.
Proof.
  intros Hnd H H' E. destruct kv as [k v], kv' as [k' v']. cbn [fst] in E. subst k'.
  pose proof (In_get o k v Hnd H) as G. pose proof (In_get o k v' Hnd H') as G'.
  congruence.
Qed.

Lemma keyed_entry o kv :
  keyed_by_versionId o -> In kv o -> versionId (snd kv) = fst kv.
Proof.
  unfold keyed_by_versionId. rewrite forallb_forall. intros H Hin.
  specialize (H kv Hin). apply String.eqb_eq in H. now symmetry.
Qed.

Lemma getStoredUpdates_registry p :
  registry_ok (updates p) -> getStoredUpdates p = map snd (updates p).
Proof.
  intros [_ Hnd]. unfold getStoredUpdates, Obj.keys.
  assert (H : forall l, incl l (updates p) ->
            flat_map (fun versionId => match Obj.get (updates p) versionId with
                                       | Some update => [update]
                                       | None => []
                                       end) (map fst l)
            = map snd l).
  { induction l as [| [k v] l IH]; intros Hincl; [reflexivity |].
    cbn [map flat_map fst snd].
    rewrite (In_get _ k v Hnd) by (apply Hincl; now left).
    cbn [app]. f_equal. apply IH. intros x Hx. apply Hincl. now right. }
  apply H. apply incl_refl.
Qed.

Lemma NoDup_registered o : registry_ok o -> NoDup (map snd o).
Proof.
  intros [Hk Hnd]. apply (NoDup_map_inv versionId). rewrite map_map.
  unfold Obj.keys in Hnd.
  rewrite (map_ext_in _ fst); [exact Hnd |].
  intros kv Hin. now apply (keyed_entry o).
Qed.

Lemma filter_and {A} (f g : A -> bool) l :
  filter f (filter g l) = filter (fun x => g x && f x) l.
Proof.
  induction l as [| x l IH]; [reflexivity |]. cbn [filter].
  destruct (g x); cbn [andb filter]; [destruct (f x) |]; now rewrite IH.
Qed.

(** Deleting, one after the other, the versions of [l] that are not to be
    kept removes the entries stored under their ids. *)
Lemma sweep_filter (keep : IAvailableUpdate -> bool) l : forall o : Obj.t IAvailableUpdate,
  fold_left (fun o u => if keep u then o else Obj.delete o (versionId u)) l o
  = filter (fun kv => negb (existsb (fun u => negb (keep u)
                                              && String.eqb (fst kv) (versionId u)) l)) o.
Proof.
  induction l as [| u l IH]; intros o; cbn [fold_left existsb].
  - symmetry. apply filter_true.
  - rewrite IH. destruct (keep u); cbn [negb andb orb]; [reflexivity |].
    unfold Obj.delete. rewrite filter_and. apply filter_ext. intros kv.
    now rewrite negb_orb.
Qed.

Lemma sweep_registry (keep : IAvailableUpdate -> bool) o :
  registry_ok o ->
  fold_left (fun o u => if keep u then o else Obj.delete o (versionId u)) (map snd o) o
  = filter (fun kv => keep (snd kv)) o.
Proof.
  intros [Hk Hnd]. rewrite sweep_filter. apply filter_ext_in. intros kv Hin.
  destruct (keep (snd kv)) eqn:K.
  - apply negb_true_iff. apply not_true_iff_false. intros E.
    apply existsb_exists in E. destruct E as (u & Hu & E).
    apply andb_true_iff in E. destruct E as [E1 E2].
    apply in_map_iff in Hu. destruct Hu as (kv' & <- & Hin').
    apply String.eqb_eq in E2. rewrite (keyed_entry o kv' Hk Hin') in E2.
    rewrite <- (same_key_same_entry o kv kv' Hnd Hin Hin' E2) in E1.
    rewrite K in E1. discriminate.
  - apply negb_false_iff. apply existsb_exists. exists (snd kv).
    split; [now apply in_map |]. rewrite K. cbn [negb andb].
    apply String.eqb_eq. symmetry. now apply (keyed_entry o).
Qed.

Lemma sweep_current (keep : IAvailableUpdate -> bool) l : forall c : option string,
  fold_left (fun c u =>
               if keep u then c
               else if match c with
                       | Some c0 => String.eqb c0 (versionId u)
                       | None => false
                       end
                    then None else c) l c
  = match c with
    | Some c0 =>
        if existsb (fun u => negb (keep u) && String.eqb c0 (versionId u)) l
        then None else Some c0
    | None => None
    end.
Proof.
  induction l as [| u l IH]; intros c; cbn [fold_left existsb].
  - now destruct c.
  - rewrite IH. destruct c as [c0 |]; [| now destruct (keep u)].
    destruct (keep u); cbn [negb andb orb]; [reflexivity |].
    now destruct (String.eqb c0 (versionId u)).
Qed.

Lemma stale_current_registry (keep : IAvailableUpdate -> bool) o c0 :
  registry_ok o ->
  existsb (fun u => negb (keep u) && String.eqb c0 (versionId u)) (map snd o)
  = match Obj.get o c0 with
    | Some u => negb (keep u)
    | None => false
    end.
Proof.
  intros [Hk Hnd].
  destruct (Obj.get o c0) as [u |] eqn:G.
  - pose proof (ObjFacts.get_In _ _ _ G) as Hin.
    destruct (keep u) eqn:K; cbn [negb].
    + apply not_true_iff_false. intros E. apply existsb_exists in E.
      destruct E as (u' & Hu' & E). apply andb_true_iff in E. destruct E as [E1 E2].
      apply in_map_iff in Hu'. destruct Hu' as (kv' & <- & Hin').
      apply String.eqb_eq in E2. rewrite (keyed_entry o kv' Hk Hin') in E2.
      assert (E : (c0, u) = kv') by (apply (same_key_same_entry o); auto).
      subst kv'. cbn [snd] in E1. rewrite K in E1. discriminate.
    + apply existsb_exists. exists u. split; [now apply (in_map snd) in Hin |].
      rewrite K. cbn [negb andb]. apply String.eqb_eq.
      symmetry. exact (keyed_entry o (c0, u) Hk Hin).
  - apply not_true_iff_false. intros E. apply existsb_exists in E.
    destruct E as (u' & Hu' & E). apply andb_true_iff in E. destruct E as [_ E2].
    apply in_map_iff in Hu'. destruct Hu' as ([k' v'] & <- & Hin').
    apply String.eqb_eq in E2. rewrite (keyed_entry o _ Hk Hin') in E2. cbn [fst] in E2.
    subst k'. rewrite (In_get o c0 v' Hnd Hin') in G. discriminate.
Qed.

Lemma fresh_or_served_ext p p' basePath u :
  prefs_binaryVersionName p' = prefs_binaryVersionName p ->
  prefs_binaryVersionCode p' = prefs_binaryVersionCode p ->
  fresh_or_served p' basePath u = fresh_or_served p basePath u.
Proof.
  intros H1 H2. unfold fresh_or_served, isUpdateForCurrentBinary. now rewrite H1, H2.
Qed.

Section Swept.

Variable env : Env.

(** What a [deleteVersionById] that returns has done to the preferences. *)
Lemma deleteVersionById_returned v w b w' :
  deleteVersionById env v w = (Returned b, w') ->
  prefs w' = with_updates (prefs w) (Obj.delete (updates (prefs w)) v)
  /\ serverBasePath w' = serverBasePath w.
Proof.
  rewrite deleteVersionById_run.
  destruct (native_setPreferences env _ _); [| discriminate].
  intros H. apply returned_inj in H. destruct H as [_ <-]. now split.
Qed.

(** One turn of the loop of [cleanupStaleVersions]. *)
Lemma stale_turn_returned update w w' :
  (p <- get_prefs ;;
   if negb (isUpdateForCurrentBinary p update) then
     running <- _isRunningVersion (versionId update) ;;
     if negb running then
       (if isUpdateCurrentlyInstalled p update
        then modify_prefs (fun p => with_current p None (currentBuildId p))
        else ret tt) ;;
       deleteVersionById env (versionId update) ;;
       ret tt
     else ret tt
   else ret tt) w = (Returned tt, w') ->
  let keep := fresh_or_served (prefs w) (serverBasePath w) update in
  updates (prefs w')
  = (if keep then updates (prefs w) else Obj.delete (updates (prefs w)) (versionId update))
  /\ currentVersionId (prefs w')
     = (if keep then currentVersionId (prefs w)
        else if match currentVersionId (prefs w) with
                | Some c0 => String.eqb c0 (versionId update)
                | None => false
                end
             then None else currentVersionId (prefs w))
  /\ prefs_binaryVersionName (prefs w') = prefs_binaryVersionName (prefs w)
  /\ prefs_binaryVersionCode (prefs w') = prefs_binaryVersionCode (prefs w)
  /\ maxVersions (prefs w') = maxVersions (prefs w)
  /\ serverBasePath w' = serverBasePath w.
Proof.
  cbv zeta. unfold fresh_or_served. rewrite bind_get_prefs.
  destruct (isUpdateForCurrentBinary (prefs w) update); cbn [negb orb].
  { intros H. apply returned_inj in H. destruct H as [_ <-]. repeat split. }
  rewrite bind__isRunningVersion.
  destruct (JS.includes (serverBasePath w) (versionId update)); cbn [negb].
  { intros H. apply returned_inj in H. destruct H as [_ <-]. repeat split. }
  fold (isUpdateCurrentlyInstalled (prefs w) update).
  destruct (isUpdateCurrentlyInstalled (prefs w) update).
  - rewrite bind_modify_prefs. intros H.
    apply bind_returned_inv in H. destruct H as (b & w1 & Hdel & H).
    apply returned_inj in H. destruct H as [_ <-].
    apply deleteVersionById_returned in Hdel. destruct Hdel as [-> ->].
    cbn. repeat split.
  - rewrite bind_ret. intros H.
    apply bind_returned_inv in H. destruct H as (b & w1 & Hdel & H).
    apply returned_inj in H. destruct H as [_ <-].
    apply deleteVersionById_returned in Hdel. destruct Hdel as [-> ->].
    cbn. repeat split.
Qed.

Lemma stale_loop_returned (keep : IAvailableUpdate -> bool) l : forall w w',
  (forall u, keep u = fresh_or_served (prefs w) (serverBasePath w) u) ->
  forM_ l (fun update =>
    p <- get_prefs ;;
    if negb (isUpdateForCurrentBinary p update) then
      running <- _isRunningVersion (versionId update) ;;
      if negb running then
        (if isUpdateCurrentlyInstalled p update
         then modify_prefs (fun p => with_current p None (currentBuildId p))
         else ret tt) ;;
        deleteVersionById env (versionId update) ;;
        ret tt
      else ret tt
    else ret tt) w = (Returned tt, w') ->
  updates (prefs w')
  = fold_left (fun o u => if keep u then o else Obj.delete o (versionId u)) l
              (updates (prefs w))
  /\ currentVersionId (prefs w')
     = fold_left (fun c u =>
                    if keep u then c
                    else if match c with
                            | Some c0 => String.eqb c0 (versionId u)
                            | None => false
                            end
                         then None else c) l (currentVersionId (prefs w))
  /\ maxVersions (prefs w') = maxVersions (prefs w)
  /\ serverBasePath w' = serverBasePath w.
Proof.
  induction l as [| u l IH]; intros w w' Hkeep H; cbn [forM_ fold_left] in *.
  - apply returned_inj in H. destruct H as [_ <-]. repeat split.
  - apply bind_returned_inv in H. destruct H as ([] & w1 & Hturn & H).
    apply stale_turn_returned in Hturn. cbv zeta in Hturn.
    destruct Hturn as (Hu & Hc & Hn & Hcode & Hmax & Hbase).
    rewrite <- Hkeep in Hu, Hc.
    apply IH in H.
    + destruct H as (Hu' & Hc' & Hmax' & Hbase').
      rewrite Hu', Hc', Hu, Hc. repeat split; congruence.
    + intros u'. rewrite Hkeep, Hbase. symmetry. now apply fresh_or_served_ext.
Qed.

(** X20: When [cleanupStaleVersions] returns on a well-formed registry, what is
    left of [updates] is exactly the versions built for the binary that
    runs together with the version the webview serves, in the order they
    had; and [currentVersionId] is cleared exactly when the version it
    names was registered and has been deleted. *)
Theorem cleanupStaleVersions_leaves_fresh_or_served w w' :
  registry_ok (updates (prefs w)) ->
  cleanupStaleVersions env w = (Returned tt, w') ->
  let keep := fresh_or_served (prefs w) (serverBasePath w) in
  updates (prefs w') = filter (fun kv => keep (snd kv)) (updates (prefs w))
  /\ (forall v u, Obj.get (updates (prefs w')) v = Some u -> keep u = true)
  /\ currentVersionId (prefs w')
     = match currentVersionId (prefs w) with
       | Some c => match Obj.get (updates (prefs w)) c with
                   | Some u => if keep u then Some c else None
                   | None => Some c
                   end
       | None => None
       end.
Proof.
  intros Hok H keep. unfold cleanupStaleVersions in H. rewrite bind_get_prefs in H.
  apply (stale_loop_returned keep) in H; [| reflexivity].
  destruct H as (Hu & Hc & _ & _).
  rewrite (getStoredUpdates_registry _ Hok) in Hu, Hc.
  rewrite (sweep_registry keep _ Hok) in Hu. rewrite sweep_current in Hc.
  split; [exact Hu |]. split.
  - intros v u G. rewrite Hu in G. apply ObjFacts.get_In in G.
    apply filter_In in G. now destruct G.
  - rewrite Hc. destruct (currentVersionId (prefs w)) as [c |]; [| reflexivity].
    rewrite (stale_current_registry keep _ c Hok).
    destruct (Obj.get (updates (prefs w)) c) as [u |]; [| reflexivity].
    now destruct (keep u).
Qed.

End Swept.

(** Two versions are installed for a binary that has since been replaced;
    the webview serves one of them. *)
Lemma cleanupStaleVersions_leaves_fresh_or_served_witness :
  let old := Sample.update_for "0.9" "v1" in
  let served := Sample.update_for "0.9" "v2" in
  let fresh := Sample.update "v3" "2020-01-03T00:00:00.000Z" Ready in
  let w := Sample.world (Sample.preferences (Some "v1") [old; served; fresh] None)
                        "/data/ionic_built_snapshots/v2" in
  let w' := snd (cleanupStaleVersions Sample.env w) in
  updates (prefs w') = [("v2", served); ("v3", fresh)]
  /\ currentVersionId (prefs w') = None.
Proof.
  intros old served fresh w w'.
  destruct (cleanupStaleVersions_leaves_fresh_or_served Sample.env w w') as (Hu & _ & Hc).
  - split; [reflexivity |]. repeat constructor; cbn; intuition discriminate.
  - reflexivity.
  - split; [exact Hu | exact Hc].
Defined.

(* ================================================================= *)
(** ** Eviction keeps the most recently used versions *)

Lemma In_insert_inv {A} (cmp : A -> A -> comparison) x a l :
  x = a \/ In x l -> In x (JS.insert cmp a l).
Proof.
  induction l as [| y l IH]; cbn [JS.insert].
  - intros [-> | []]. now left.
  - destruct (cmp a y); cbn [In]; intros [-> | [-> | H]]; auto.
Qed.

Lemma In_sort_inv {A} (cmp : A -> A -> comparison) x l : In x l -> In x (JS.sort cmp l).
Proof.
  induction l as [| a l IH]; [auto |]. unfold JS.sort. cbn [fold_right].
  intros [-> | H]; apply In_insert_inv; [now left | right; now apply IH].
Qed.

Lemma not_later_trans x y z :
  JS.localeCompare x y <> Gt -> JS.localeCompare y z <> Gt -> JS.localeCompare x z <> Gt.
Proof.
  unfold JS.localeCompare. intros Hxy Hyz.
  destruct (String.compare x y) eqn:Exy; [| | congruence].
  - apply String_as_OT.cmp_eq in Exy. now subst.
  - destruct (String.compare y z) eqn:Eyz; [| | congruence].
    + apply String_as_OT.cmp_eq in Eyz. subst. congruence.
    + pose proof (localeCompare_trans x y z Exy Eyz) as T.
      unfold JS.localeCompare in T. rewrite T. discriminate.
Qed.

Lemma sort_by_lastUsed_sorted (l : list IAvailableUpdate) :
  Sorted.StronglySorted
    (fun a b => JS.localeCompare (lastUsed a) (lastUsed b) <> Gt)
    (JS.sort (fun a b => JS.localeCompare (lastUsed a) (lastUsed b)) l).
Proof.
  induction l as [| x l IH]; [constructor |].
  unfold JS.sort in *. cbn [fold_right].
  induction IH as [| y r Hr IHr Hy]; cbn [JS.insert].
  - repeat constructor.
  - destruct (JS.localeCompare (lastUsed x) (lastUsed y)) eqn:E.
    + constructor; [now constructor |]. constructor; [congruence |].
      eapply Forall_impl; [| exact Hy]. intros z Hz. cbv beta in *.
      eapply not_later_trans; [| exact Hz]. congruence.
    + constructor; [now constructor |]. constructor; [congruence |].
      eapply Forall_impl; [| exact Hy]. intros z Hz. cbv beta in *.
      eapply not_later_trans; [| exact Hz]. congruence.
    + constructor; [exact IHr |]. apply Forall_forall. intros z Hz.
      apply In_insert in Hz. destruct Hz as [-> | Hz].
      * unfold JS.localeCompare in *. rewrite String.compare_antisym, E. discriminate.
      * rewrite Forall_forall in Hy. now apply Hy.
Qed.

Lemma sorted_app_order {A} (R : A -> A -> Prop) (a b : list A) :
  Sorted.StronglySorted R (a ++ b)%list -> forall x y, In x a -> In y b -> R x y.
Proof.
  induction a as [| h a IH]; intros H x y Hx Hy; [destruct Hx |].
  rewrite <- app_comm_cons in H. apply Sorted.StronglySorted_inv in H.
  destruct H as [Hs Hall]. destruct Hx as [-> | Hx].
  - rewrite Forall_forall in Hall. apply Hall. apply in_or_app. now right.
  - now apply IH.
Qed.

Section Eviction.

Variable env : Env.

Lemma cleanupStaleVersions_swept w w' :
  registry_ok (updates (prefs w)) ->
  cleanupStaleVersions env w = (Returned tt, w') ->
  updates (prefs w')
  = filter (fun kv => fresh_or_served (prefs w) (serverBasePath w) (snd kv))
           (updates (prefs w))
  /\ maxVersions (prefs w') = maxVersions (prefs w).
Proof.
  intros Hok H. unfold cleanupStaleVersions in H. rewrite bind_get_prefs in H.
  apply (stale_loop_returned env (fresh_or_served (prefs w) (serverBasePath w))) in H;
    [| reflexivity].
  destruct H as (Hu & _ & Hmax & _).
  rewrite (getStoredUpdates_registry _ Hok) in Hu.
  rewrite (sweep_registry _ _ Hok) in Hu. now split.
Qed.

Lemma evict_loop_returned l : forall w w',
  forM_ l (fun update => deleteVersionById env (versionId update) ;; ret tt) w
  = (Returned tt, w') ->
  updates (prefs w')
  = fold_left (fun o u => if false then o else Obj.delete o (versionId u)) l
              (updates (prefs w))
  /\ currentVersionId (prefs w') = currentVersionId (prefs w).
Proof.
  induction l as [| u l IH]; intros w w' H; cbn [forM_ fold_left] in *.
  - apply returned_inj in H. destruct H as [_ <-]. now split.
  - rewrite bind_bind in H. apply bind_returned_inv in H.
    destruct H as (b & w1 & Hdel & H). rewrite bind_ret in H.
    apply deleteVersionById_returned in Hdel. destruct Hdel as [Hp _].
    apply IH in H. destruct H as [Hu Hc]. rewrite Hu, Hc, Hp. now split.
Qed.

(** What a [cleanupVersions] that returns has done: the stale versions are
    gone, and of the others that are not the current version, ordered from
    the most to the least recently used, all but the first [maxVersions]
    are gone as well. *)
Lemma cleanupVersions_returned w w' :
  registry_ok (updates (prefs w)) ->
  (0 <= maxVersions (prefs w))%Z ->
  cleanupVersions env w = (Returned tt, w') ->
  exists w1,
    cleanupStaleVersions env w = (Returned tt, w1)
    /\ registry_ok (updates (prefs w1))
    /\ currentVersionId (prefs w') = currentVersionId (prefs w1)
    /\ let ranked :=
         rev (JS.sort (fun a b => JS.localeCompare (lastUsed a) (lastUsed b))
                      (filter (fun a => negb (isUpdateCurrentlyInstalled (prefs w1) a))
                              (map snd (updates (prefs w1))))) in
       let evicted := skipn (Z.to_nat (maxVersions (prefs w))) ranked in
       updates (prefs w')
       = filter (fun kv => negb (existsb (fun u => String.eqb (fst kv) (versionId u))
                                         evicted))
                (updates (prefs w1)).
Proof.
  intros Hok Hmax H. unfold cleanupVersions in H.
  apply bind_returned_inv in H. destruct H as ([] & w1 & Hstale & H).
  exists w1. split; [exact Hstale |].
  assert (Hok1 : registry_ok (updates (prefs w1))).
  { pose proof (keeps_registry_cleanupStaleVersions env w Hok) as K.
    now rewrite Hstale in K. }
  split; [exact Hok1 |].
  destruct (cleanupStaleVersions_swept w w1 Hok Hstale) as [_ Hmax1].
  rewrite bind_get_prefs, (getStoredUpdates_registry _ Hok1), Hmax1 in H.
  unfold JS.slice_from in H.
  destruct (Z.ltb_spec (maxVersions (prefs w)) 0) as [? | _]; [lia |].
  apply evict_loop_returned in H. destruct H as [Hu Hc].
  split; [exact Hc |]. cbv zeta. rewrite Hu.
  exact (sweep_filter (fun _ => false) _ _).
Qed.

(** X21: After a [cleanupVersions] that returns, on a well-formed registry and
    with [maxVersions] not negative, at most [maxVersions] versions are
    registered besides the current one. *)
Theorem cleanupVersions_bounds_the_registry w w' :
  registry_ok (updates (prefs w)) ->
  (0 <= maxVersions (prefs w))%Z ->
  cleanupVersions env w = (Returned tt, w') ->
  (Z.of_nat (List.length
               (filter (fun u => negb (isUpdateCurrentlyInstalled (prefs w') u))
                       (getStoredUpdates (prefs w'))))
   <= maxVersions (prefs w))%Z.
Proof.
  intros Hok Hmax H.
  destruct (cleanupVersions_returned w w' Hok Hmax H) as (w1 & _ & Hok1 & Hcur & Hu).
  cbv zeta in Hu.
  set (ranked := rev (JS.sort _ _)) in Hu.
  set (n := Z.to_nat (maxVersions (prefs w))) in Hu.
  assert (Hok' : registry_ok (updates (prefs w'))).
  { pose proof (keeps_registry_cleanupVersions env w Hok) as K. now rewrite H in K. }
  rewrite (getStoredUpdates_registry _ Hok').
  set (rest := filter _ (map snd (updates (prefs w')))).
  assert (Hincl : incl rest (firstn n ranked)).
  { intros u Hu'. subst rest. apply filter_In in Hu'. destruct Hu' as [Hin Hnot].
    apply in_map_iff in Hin. destruct Hin as (kv & <- & Hin).
    rewrite Hu in Hin. apply filter_In in Hin. destruct Hin as [Hin1 Hkept].
    assert (Hr : In (snd kv) ranked).
    { subst ranked. apply -> in_rev. apply In_sort_inv. apply filter_In. split.
      - now apply in_map.
      - unfold isUpdateCurrentlyInstalled in *. now rewrite <- Hcur. }
    rewrite <- (firstn_skipn n ranked) in Hr. apply in_app_or in Hr.
    destruct Hr as [Hr | Hr]; [exact Hr |]. exfalso.
    apply negb_true_iff in Hkept. apply not_true_iff_false in Hkept. apply Hkept.
    apply existsb_exists. exists (snd kv). split; [exact Hr |].
    apply String.eqb_eq. symmetry. apply (keyed_entry (updates (prefs w1))); [apply Hok1 | exact Hin1]. }
  assert (Hnd : NoDup rest).
  { subst rest. apply NoDup_filter. now apply NoDup_registered. }
  pose proof (NoDup_incl_length Hnd Hincl) as Hlen.
  pose proof (firstn_le_length n ranked). subst n. lia.
Qed.

(** X22: Of two versions that were registered and not stale, neither of them
    the current one afterwards, if [cleanupVersions] has evicted one and
    kept the other, the one evicted was not used more recently than the
    one kept. *)
Theorem cleanupVersions_evicts_the_least_recently_used w w' gone kept :
  registry_ok (updates (prefs w)) ->
  (0 <= maxVersions (prefs w))%Z ->
  cleanupVersions env w = (Returned tt, w') ->
  Obj.get (updates (prefs w)) (versionId gone) = Some gone ->
  fresh_or_served (prefs w) (serverBasePath w) gone = true ->
  Obj.get (updates (prefs w')) (versionId gone) = None ->
  Obj.get (updates (prefs w')) (versionId kept) = Some kept ->
  isUpdateCurrentlyInstalled (prefs w') kept = false ->
  JS.localeCompare (lastUsed gone) (lastUsed kept) = Lt
  \/ lastUsed gone = lastUsed kept.
Proof.
  intros Hok Hmax H Ggone Hfresh Ggone' Gkept Hnotcur.
  destruct (cleanupVersions_returned w w' Hok Hmax H) as (w1 & Hstale & Hok1 & Hcur & Hu).
  cbv zeta in Hu.
  set (ranked := rev (JS.sort _ _)) in Hu.
  set (n := Z.to_nat (maxVersions (prefs w))) in Hu.
  destruct (cleanupStaleVersions_swept w w1 Hok Hstale) as [Hu1 _].
  destruct Hok1 as [Hk1 Hnd1].
  (* the version kept is among the first of the ranking *)
  assert (Hkept : In kept (firstn n ranked)).
  { apply ObjFacts.get_In in Gkept. rewrite Hu in Gkept.
    apply filter_In in Gkept. destruct Gkept as [Hin1 Hkeep].
    assert (Hr : In kept ranked).
    { subst ranked. apply -> in_rev. apply In_sort_inv. apply filter_In. split.
      - now apply (in_map snd) in Hin1.
      - unfold isUpdateCurrentlyInstalled in *. now rewrite <- Hcur, Hnotcur. }
    rewrite <- (firstn_skipn n ranked) in Hr. apply in_app_or in Hr.
    destruct Hr as [Hr | Hr]; [exact Hr |]. exfalso.
    apply negb_true_iff in Hkeep. apply not_true_iff_false in Hkeep. apply Hkeep.
    apply existsb_exists. exists kept. split; [exact Hr | apply String.eqb_refl]. }
  (* the version gone is among the others *)
  assert (Hgone : In gone (skipn n ranked)).
  { assert (Hin1 : In (versionId gone, gone) (updates (prefs w1))).
    { rewrite Hu1. apply filter_In. split; [now apply ObjFacts.get_In | exact Hfresh]. }
    destruct (existsb (fun u => String.eqb (versionId gone) (versionId u)) (skipn n ranked))
      eqn:E.
    - apply existsb_exists in E. destruct E as (d & Hd & E). apply String.eqb_eq in E.
      assert (Hd1 : In d (map snd (updates (prefs w1)))).
      { apply In_skipn in Hd. subst ranked. apply in_rev in Hd. apply In_sort in Hd.
        apply filter_In in Hd. now destruct Hd. }
      apply in_map_iff in Hd1. destruct Hd1 as (kv & Ekv & Hkv).
      assert (Esame : (versionId gone, gone) = kv).
      { apply (same_key_same_entry (updates (prefs w1))); auto.
        cbn [fst]. rewrite E, <- Ekv. now apply (keyed_entry (updates (prefs w1))). }
      subst kv. cbn [snd] in Ekv. now subst d.
    - exfalso. assert (Hin' : In (versionId gone, gone) (updates (prefs w'))).
      { rewrite Hu. apply filter_In. split; [exact Hin1 |]. cbn [fst]. now rewrite E. }
      assert (Hnd' : NoDup (Obj.keys (updates (prefs w')))).
      { pose proof (keeps_registry_cleanupVersions env w Hok) as K. rewrite H in K.
        apply K. }
      rewrite (In_get _ _ _ Hnd' Hin') in Ggone'. discriminate. }
  (* and the ranking is by last use *)
  pose proof (sort_by_lastUsed_sorted
                (filter (fun a => negb (isUpdateCurrentlyInstalled (prefs w1) a))
                        (map snd (updates (prefs w1))))) as Hsorted.
  assert (Erank : JS.sort (fun a b => JS.localeCompare (lastUsed a) (lastUsed b))
                    (filter (fun a => negb (isUpdateCurrentlyInstalled (prefs w1) a))
                            (map snd (updates (prefs w1))))
                  = (rev (skipn n ranked) ++ rev (firstn n ranked))%list).
  { rewrite <- rev_app_distr, firstn_skipn. subst ranked. now rewrite rev_involutive. }
  rewrite Erank in Hsorted.
  pose proof (sorted_app_order _ _ _ Hsorted gone kept) as Hle.
  cbv beta in Hle. specialize (Hle (proj1 (in_rev _ _) Hgone) (proj1 (in_rev _ _) Hkept)).
  unfold JS.localeCompare in *.
  destruct (String.compare (lastUsed gone) (lastUsed kept)) eqn:E; [| now left | congruence].
  right. now apply String_as_OT.cmp_eq.
Qed.

End Eviction.

(** Four versions besides the current one, room for two. *)
Lemma cleanupVersions_bounds_the_registry_witness :
  let u n day := Sample.update n day Ready in
  let w := Sample.world
             (Sample.preferences (Some "v0")
                [u "v0" "2020-01-01T00:00:00.000Z"; u "v1" "2020-01-02T00:00:00.000Z";
                 u "v2" "2020-01-05T00:00:00.000Z"; u "v3" "2020-01-03T00:00:00.000Z";
                 u "v4" "2020-01-04T00:00:00.000Z"] None)
             "/data/ionic_built_snapshots/v0" in
  let w' := snd (cleanupVersions Sample.env w) in
  (Z.of_nat (List.length
               (filter (fun u => negb (isUpdateCurrentlyInstalled (prefs w') u))
                       (getStoredUpdates (prefs w'))))
   <= 2)%Z.
Proof.
  intros u w w'.
  apply (cleanupVersions_bounds_the_registry Sample.env w w').
  - split; [reflexivity |]. repeat constructor; cbn; intuition discriminate.
  - discriminate.
  - reflexivity.
Defined.

(** The version used on 2 January goes, the one used on 5 January stays. *)
Lemma cleanupVersions_evicts_the_least_recently_used_witness :
  JS.localeCompare "2020-01-02T00:00:00.000Z" "2020-01-05T00:00:00.000Z" = Lt
  \/ "2020-01-02T00:00:00.000Z" = "2020-01-05T00:00:00.000Z".
Proof.
  pose (u := fun n day => Sample.update n day Ready).
  pose (w := Sample.world
               (Sample.preferences (Some "v0")
                  [u "v0" "2020-01-01T00:00:00.000Z"; u "v1" "2020-01-02T00:00:00.000Z";
                   u "v2" "2020-01-05T00:00:00.000Z"; u "v3" "2020-01-03T00:00:00.000Z";
                   u "v4" "2020-01-04T00:00:00.000Z"] None)
               "/data/ionic_built_snapshots/v0").
  apply (cleanupVersions_evicts_the_least_recently_used Sample.env w
           (snd (cleanupVersions Sample.env w))
           (u "v1" "2020-01-02T00:00:00.000Z") (u "v2" "2020-01-05T00:00:00.000Z")).
  - split; [reflexivity |]. repeat constructor; cbn; intuition discriminate.
  - discriminate.
  - reflexivity.
  - reflexivity.
  - reflexivity.
  - reflexivity.
  - reflexivity.
  - reflexivity.
Defined.

(* ================================================================= *)
(** ** sync *)

Lemma in_background_refl w : in_background w w.
Proof.
  repeat (split; [reflexivity |]). exists []. split; [now rewrite app_nil_r | constructor].
Qed.

Lemma in_background_trans a b c :
  in_background a b -> in_background b c -> in_background a c.
Proof.
  intros (B1 & V1 & U1 & C1 & N1 & K1 & e1 & T1 & F1)
         (B2 & V2 & U2 & C2 & N2 & K2 & e2 & T2 & F2).
  repeat (split; [congruence |]).
  exists (e1 ++ e2)%list. split; [rewrite T2, T1; now rewrite app_assoc |].
  now apply Forall_app.
Qed.

#[local] Hint Resolve in_background_refl in_background_trans : core.
#[local] Hint Extern 1 (background_event _) => exact I : core.

Lemma transfer_event_background e : transfer_event e -> background_event e.
Proof. destruct e; cbn; tauto. Qed.

Lemma only_transfers_in_background w w' : only_transfers w w' -> in_background w w'.
Proof.
  intros (P & B & evs & T & F). unfold in_background. rewrite P.
  repeat (split; [reflexivity || exact B |]).
  exists evs. split; [exact T |].
  eapply Forall_impl; [| exact F]. apply transfer_event_background.
Qed.

Lemma in_background_io {A} (m : M A) :
  preserves only_transfers m -> preserves in_background m.
Proof. apply preserves_weaken. apply only_transfers_in_background. Qed.

Lemma in_background_emit e : background_event e -> preserves in_background (emit e).
Proof.
  intros He w. repeat (split; [reflexivity |]).
  exists [e]. split; [reflexivity | now constructor].
Qed.

Lemma in_background_call {X} e (f : list Event -> X) :
  background_event e -> preserves in_background (call e f).
Proof.
  intros He w. repeat (split; [reflexivity |]).
  exists [e]. split; [reflexivity | now constructor].
Qed.

Lemma in_background_frame f :
  (forall p, currentVersionId (f p) = currentVersionId p
             /\ currentBuildId (f p) = currentBuildId p
             /\ prefs_channel (f p) = prefs_channel p
             /\ prefs_binaryVersionName (f p) = prefs_binaryVersionName p
             /\ prefs_binaryVersionCode (f p) = prefs_binaryVersionCode p) ->
  preserves in_background (modify_prefs f).
Proof.
  intros H w. destruct (H (prefs w)) as (H1 & H2 & H3 & H4 & H5).
  unfold modify_prefs. cbn [snd prefs serverBasePath trace].
  repeat (split; [assumption || reflexivity |]).
  exists []. split; [now rewrite app_nil_r | constructor].
Qed.

#[local] Hint Resolve in_background_emit in_background_call : core.
#[local] Hint Extern 3 (preserves in_background (modify_prefs _)) =>
  apply in_background_frame;
  let p := fresh "p" in intros p; try destruct (availableUpdate p); repeat split : core.

(** A computation that starts with a step either stops there, without
    returning, or goes on from the world the step has left. *)
Lemma step_then {A B} (R : World -> World -> Prop)
      (R_trans : forall a b c, R a b -> R b c -> R a c)
      (m : M A) (k : A -> M B) w0 w :
  preserves R m ->
  R w0 w ->
  (R w0 (snd (bind m k w)) /\ forall b, fst (bind m k w) <> Returned b)
  \/ exists a w1, R w0 w1 /\ bind m k w = k a w1.
Proof.
  intros Hm H0. specialize (Hm w). unfold bind.
  destruct (m w) as [[a | e |] w1]; cbn [fst snd] in *.
  - right. exists a, w1. split; [eauto | reflexivity].
  - left. split; [eauto | discriminate].
  - left. split; [eauto | discriminate].
Qed.

Section Sync.

Variable env : Env.

Lemma in_background__savePrefs : preserves in_background (_savePrefs env).
Proof. unfold _savePrefs. preserves_auto. Qed.

#[local] Hint Resolve in_background__savePrefs : core.

Lemma in_background_checkForUpdate_answered raced :
  preserves in_background (checkForUpdate_answered env raced).
Proof. unfold checkForUpdate_answered. preserves_auto. Qed.

Lemma in_background_checkForUpdate : preserves in_background (checkForUpdate env).
Proof. unfold checkForUpdate, checkForUpdate_answered. preserves_auto. Qed.

Lemma in_background_downloadUpdate depth progress :
  preserves in_background (downloadUpdate env depth progress).
Proof.
  pose proof (fun u => in_background_io _ (only_transfers__fetchManifest env u)).
  pose proof (fun a b => in_background_io _ (only_transfers_fetch_currentManifest env a b)).
  pose proof (fun a b c d e f =>
                in_background_io _ (only_transfers__diffManifests env a b c d e f)).
  pose proof (fun a b c => in_background_io _ (only_transfers_report a b c)).
  pose proof (fun a b c d e f =>
                in_background_io _ (only_transfers_prepareUpdateDirectory env a b c d e f)).
  pose proof (fun a b c d e f =>
                in_background_io _ (only_transfers__downloadFilesFromManifest env a b c d e f)).
  unfold downloadUpdate. preserves_auto.
Qed.

Lemma in_background_extractUpdate progress :
  preserves in_background (extractUpdate env progress).
Proof. unfold extractUpdate. preserves_auto. Qed.

Lemma in_background_availableUpdate_state_is s :
  preserves in_background (availableUpdate_state_is s).
Proof. unfold availableUpdate_state_is. preserves_auto. Qed.

#[local] Hint Resolve in_background_checkForUpdate in_background_downloadUpdate
  in_background_extractUpdate in_background_availableUpdate_state_is : core.

(** The steps of [sync] between the check and the answer, when the update
    method is not AUTO. *)
Lemma in_background_sync_steps depth (updateMethod : UpdateMethod) progress
      (pending : option IAvailableUpdate) :
  updateMethod <> AUTO ->
  preserves in_background
    (match pending with
     | Some _ =>
         available <- availableUpdate_state_is Available ;;
         (if available then downloadUpdate env depth progress ;; ret tt else ret tt) ;;
         pending <- availableUpdate_state_is Pending ;;
         (if pending then extractUpdate env false ;; ret tt else ret tt) ;;
         ready <- availableUpdate_state_is Ready ;;
         (if ready && match updateMethod with AUTO => true | _ => false end
          then reloadApp env ;; ret tt
          else ret tt)
     | None => ret tt
     end).
Proof.
  intros Hne. destruct pending as [u |]; [| preserves_auto].
  apply preserves_bind; [eauto | eauto |]. intros available.
  apply preserves_bind; [eauto | preserves_auto |]. intros _.
  apply preserves_bind; [eauto | eauto |]. intros pending.
  apply preserves_bind; [eauto | preserves_auto |]. intros _.
  apply preserves_bind; [eauto | eauto |]. intros ready.
  destruct updateMethod; [| contradiction |]; rewrite andb_false_r; preserves_auto.
Qed.

(** X23: Offline, [sync] is rejected with the error of [checkForUpdate] before
    any call is made, whatever the update method, and the world is as it
    was. *)
Theorem sync_offline_is_rejected_at_once depth syncOptions_updateMethod progress w :
  navigator_onLine env (trace w) = false ->
  sync env depth syncOptions_updateMethod progress w
  = (Thrown "The device is offline.", w).
Proof.
  intros Hoff. unfold sync, sync_checked. rewrite bind_get_prefs. cbv zeta.
  apply bind_thrown. unfold checkForUpdate, checkForUpdate_answered. now rewrite bind_ask, Hoff.
Qed.

(** X24: With an update method other than AUTO, [sync] works in the background
    whatever its outcome: it checks, downloads and extracts, but removes
    nothing, fires no signal and leaves the webview and the current version
    alone.  What it returns describes the version that was current before
    the call, also when a newer one has just been made ready. *)
Theorem sync_stays_in_the_background depth syncOptions_updateMethod progress w :
  match syncOptions_updateMethod with
  | Some m => m
  | None => updateMethod (prefs w)
  end <> AUTO ->
  let r := fst (sync env depth syncOptions_updateMethod progress w) in
  let w' := snd (sync env depth syncOptions_updateMethod progress w) in
  in_background w w'
  /\ forall info, r = Returned info -> describes (prefs w) info.
Proof.
  intros Hne. cbv zeta.
  assert (Hstop : forall x : Res (option ISnapshotInfo) * World,
            in_background w (snd x) -> (forall b, fst x <> Returned b) ->
            in_background w (snd x)
            /\ forall info, fst x = Returned info -> describes (prefs w) info).
  { intros x Hx Hr. split; [exact Hx |]. intros info E. now apply Hr in E. }
  unfold sync, sync_checked. rewrite bind_get_prefs. cbv zeta.
  set (method := match syncOptions_updateMethod with
                 | Some m => m
                 | None => updateMethod (prefs w)
                 end) in *.
  match goal with
  | |- context [bind ?m ?k w] =>
      destruct (step_then in_background in_background_trans m k w w
                  in_background_checkForUpdate (in_background_refl w))
        as [[Hx Hr] | (resp & w1 & H1 & ->)]; [now apply Hstop |]
  end.
  rewrite bind_get_prefs.
  match goal with
  | |- context [bind ?m ?k w1] =>
      destruct (step_then in_background in_background_trans m k w w1
                  (in_background_sync_steps depth method progress
                     (availableUpdate (prefs w1)) Hne) H1)
        as [[Hx Hr] | ([] & w2 & H2 & ->)]; [now apply Hstop |]
  end.
  rewrite bind_get_prefs.
  pose proof H2 as B2.
  destruct H2 as (_ & Hv & Hb & Hc & Hn & Hk & _). rewrite Hv, Hb, Hc, Hn, Hk.
  destruct (currentVersionId (prefs w)) as [v |] eqn:Ev.
  2:{ split; [exact B2 |]. intros info E. unfold ret in E. cbn [fst] in E. injection E as <-.
      cbn. now rewrite Ev. }
  destruct (currentBuildId (prefs w)) as [b |] eqn:Eb.
  2:{ split; [exact B2 |]. intros info E. unfold ret in E. cbn [fst] in E. injection E as <-.
      cbn. rewrite Ev, Eb. cbn. apply andb_false_r. }
  destruct (JS.truthy v && JS.truthy b) eqn:Et.
  - split; [exact B2 |]. intros info E. unfold ret in E. cbn [fst] in E. injection E as <-.
    cbn. rewrite Ev, Eb. repeat split.
  - split; [exact B2 |]. intros info E. unfold ret in E. cbn [fst] in E. injection E as <-.
    cbn. rewrite Ev, Eb. exact Et.
Qed.

End Sync.

(** The service offers v2 to a device on background updates: the update is
    made ready, and the answer is that no version is current. *)
Lemma sync_stays_in_the_background_witness :
  let env := Sample.collaborators true (Some "v2") in
  let w := Sample.world (Sample.preferences None [] None) "/www" in
  let w' := snd (sync env 2 None false w) in
  in_background w w'
  /\ describes (prefs w) None
  /\ option_map state (availableUpdate (prefs w')) = Some Ready.
Proof.
  intros env w w'.
  destruct (sync_stays_in_the_background env 2 None false w) as [B D].
  - cbn. discriminate.
  - split; [exact B |]. split; [apply D; reflexivity | reflexivity].
Defined.

Lemma sync_offline_is_rejected_at_once_witness :
  let w := Sample.world (Sample.preferences None [] None) "/www" in
  sync (Scenario.offline Sample.env) 1 (Some AUTO) true w
  = (Thrown "The device is offline.", w).
Proof.
  intros w. apply (sync_offline_is_rejected_at_once (Scenario.offline Sample.env)).
  reflexivity.
Defined.

(* ================================================================= *)
(** ** sync with automatic updates, when nothing fails *)

Lemma returned_same_heap {A} (m : M A) w a w' :
  preserves same_heap m -> m w = (Returned a, w') ->
  prefs w' = prefs w /\ serverBasePath w' = serverBasePath w.
Proof. intros Hm H. specialize (Hm w). rewrite H in Hm. exact Hm. Qed.

Section SyncInstalls.

Variable env : Env.
Variable depth : nat.
Variables (offer_url offer_snapshot offer_build : string).

Hypothesis online : forall t, navigator_onLine env t = true.
Hypothesis saves : forall t p, native_setPreferences env t p = true.
Hypothesis offered :
  forall t endpoint,
  exists status r,
    fetch_check env t endpoint = Some (status, Some (Some r))
    /\ (200 <= status <= 299)%Z
    /\ available r = true
    /\ resp_url r = Some offer_url
    /\ snapshot r = Some offer_snapshot
    /\ build r = Some offer_build.
Hypothesis offer_named :
  JS.truthy offer_url && JS.truthy offer_snapshot && JS.truthy offer_build = true.
Hypothesis manifests : forall t u, fetch_manifest env t u <> None.
Hypothesis walk_ends :
  forall filePath w, fst (_recursiveFilesInPath env depth filePath "" "" w) <> Unfinished.
Hypothesis copies : forall t a b, native_copyFiles env t a b = true.
Hypothesis copies_app : forall t a b, native_copyTo env t a b = true.
Hypothesis resolves : forall b h, URL_resolve env b h <> None.
Hypothesis transfers_done : forall t flying,
  flying <> [] ->
  exists i, (i < List.length flying)%nat
            /\ native_downloadFile env t flying = Some (i, true).

Lemma checkForUpdate_offer w :
  exists r w1 now,
    checkForUpdate env w = (Returned r, w1)
    /\ serverBasePath w1 = serverBasePath w
    /\ prefs w1
       = with_availableUpdate (prefs w)
           (Some {| binaryVersionCode := prefs_binaryVersionCode (prefs w);
                    binaryVersionName := prefs_binaryVersionName (prefs w);
                    channel := prefs_channel (prefs w);
                    state := Available;
                    lastUsed := now;
                    url := offer_url;
                    versionId := offer_snapshot;
                    buildId := offer_build |}).
Proof.
  unfold checkForUpdate, checkForUpdate_answered. rewrite bind_ask, online. cbn [negb].
  rewrite bind_get_prefs, bind_call.
  destruct (offered (trace w)
              (host (prefs w) ++ "/apps/" ++ appId (prefs w) ++ "/channels/check-device"))
    as (status & r & -> & Hstatus & Ha & Hu & Hs & Hb).
  destruct (Z.ltb_spec status 500) as [_ | ?]; [| lia].
  rewrite bind_ret.
  destruct (Z.leb_spec 200 status) as [_ | ?]; [| lia].
  destruct (Z.leb_spec status 299) as [_ | ?]; [| lia].
  cbn [andb]. rewrite Ha, Hu, Hs, Hb, offer_named.
  rewrite bind_ask, bind_modify_prefs, bind__savePrefs, saves.
  do 3 eexists. split; [reflexivity |]. split; reflexivity.
Qed.

Lemma _diffManifests_returns newManifest oldManifest filePath total progress w :
  exists d w',
    _diffManifests env depth newManifest oldManifest filePath total progress w
    = (Returned d, w').
Proof.
  unfold _diffManifests.
  destruct (_diffManifests_try env depth newManifest oldManifest filePath total progress w)
    as [[d | e |] w1] eqn:E.
  - exists d, w1. now apply try_catch_returned.
  - rewrite (try_catch_thrown _ _ _ _ _ E). do 2 eexists. reflexivity.
  - exfalso. unfold _diffManifests_try in E. rewrite bind_call in E.
    destruct (fetch_bundledManifest env (trace w)) as [bundled |]; [| discriminate].
    rewrite bind_ret in E.
    pose proof (walk_ends filePath (logged w [Fetch_bundledManifest])) as Hw.
    destruct (_recursiveFilesInPath env depth filePath "" "" (logged w [Fetch_bundledManifest]))
      as [[files | e |] w2] eqn:W; cbn [fst] in Hw.
    + rewrite (bind_returned _ _ _ _ _ W) in E.
      match type of E with
      | bind (reconcile ?p ?t ?f ?rows ?d) _ _ = _ =>
          destruct (reconcile_run p t f rows d w2) as (evs1 & R1 & _)
      end.
      rewrite (bind_returned _ _ _ _ _ R1) in E. cbv beta iota in E.
      match type of E with
      | bind (reconcile ?p ?t ?f ?rows ?d) _ ?w0 = _ =>
          destruct (reconcile_run p t f rows d w0) as (evs2 & R2 & _)
      end.
      rewrite (bind_returned _ _ _ _ _ R2) in E. discriminate.
    + rewrite (bind_thrown _ _ _ _ _ W) in E. discriminate.
    + congruence.
Qed.

Lemma _copyCurrentAppDir_returns folder versionId total progress manifest : forall d w,
  exists d' w',
    _copyCurrentAppDir env folder versionId manifest d total progress w = (Returned d', w').
Proof.
  induction manifest as [| e rest IH]; intros d w; cbn [_copyCurrentAppDir].
  - now exists d, w.
  - unfold FileManager_copyFiles. rewrite bind_bind, bind_call, copies, bind_ret.
    destruct (report_trace progress total (d + size e)%Z
                (logged w [Exec_copyFiles
                             (URL_pathname env
                                (Path.join [dataDirectory env; SNAPSHOT_CACHE; folder])
                              ++ "/" ++ href e)
                             (getSnapshotCacheDir env versionId ++ "/" ++ href e)]))
      as (evs & Hrep & _).
    cbv zeta. rewrite (bind_returned _ _ _ _ _ Hrep). apply IH.
Qed.

Lemma prepareUpdateDirectory_returns versionId current manifest d total progress w :
  exists d' w',
    prepareUpdateDirectory env versionId current manifest d total progress w
    = (Returned d', w').
Proof.
  unfold prepareUpdateDirectory, _copyBaseAppDir, FileManager_copyTo, FileManager_copyFiles.
  rewrite bind_bind, bind_call, copies_app, bind_ret. cbv zeta.
  rewrite bind_bind, bind_call, copies, bind_ret.
  apply _copyCurrentAppDir_returns.
Qed.

Lemma fetch_currentManifest_returns update current w :
  exists r w', fetch_currentManifest env update current w = (Returned r, w').
Proof.
  unfold fetch_currentManifest, try_catch.
  match goal with
  | |- context [match ?m w with _ => _ end] => destruct (m w) as [[r | e |] w1] eqn:E
  end.
  - now exists r, w1.
  - now exists None, w1.
  - exfalso.
    destruct (negb (JS.replace (url update) (versionId update) current =? url update)%string);
      [| discriminate].
    unfold _fetchManifest in E. rewrite bind_bind, bind_call in E.
    destruct (fetch_manifest env (trace w) _); discriminate.
Qed.

(** [downloadUpdate] on an Available update, when nothing fails. *)
Lemma downloadUpdate_returns progress w u :
  availableUpdate (prefs w) = Some u ->
  state u = Available ->
  exists w',
    downloadUpdate env depth progress w = (Returned true, w')
    /\ serverBasePath w' = serverBasePath w
    /\ prefs w' = with_availableUpdate (prefs w) (Some (with_state u Pending)).
Proof.
  intros Ha Hs. unfold downloadUpdate. rewrite bind_get_prefs, Ha, Hs.
  cbn [UpdateState_eqb].
  (* the manifest *)
  assert (Hfetch : exists fetched w1, _fetchManifest env (url u) w = (Returned fetched, w1)).
  { unfold _fetchManifest. rewrite bind_call.
    destruct (fetch_manifest env (trace w) (url u)) as [resp |] eqn:F;
      [| now apply manifests in F].
    do 2 eexists. reflexivity. }
  destruct Hfetch as (fetched & w1 & H1).
  destruct (returned_same_heap _ _ _ _ (same_heap__fetchManifest env (url u)) H1) as [P1 B1].
  rewrite (bind_returned _ _ _ _ _ H1).
  (* the baseline *)
  assert (Hcur : exists cur w2,
            (match currentVersionId (prefs w) with
             | Some current =>
                 if JS.truthy current then fetch_currentManifest env u current
                 else ret None
             | None => ret None
             end) w1 = (Returned cur, w2)
            /\ prefs w2 = prefs w1 /\ serverBasePath w2 = serverBasePath w1).
  { destruct (currentVersionId (prefs w)) as [c |]; [| now exists None, w1].
    destruct (JS.truthy c); [| now exists None, w1].
    destruct (fetch_currentManifest_returns u c w1) as (r & w2 & H2).
    exists r, w2. split; [exact H2 |].
    exact (returned_same_heap _ _ _ _ (same_heap_fetch_currentManifest env u c) H2). }
  destruct Hcur as (cur & w2 & H2 & P2 & B2).
  rewrite (bind_returned _ _ _ _ _ H2). cbv zeta.
  (* the diff *)
  match goal with
  | |- context [bind (_diffManifests env depth ?n ?o ?f ?t ?p) _ w2] =>
      destruct (_diffManifests_returns n o f t p w2) as (d & w3 & H3);
      destruct (returned_same_heap _ _ _ _ (same_heap__diffManifests env depth n o f t p) H3)
        as [P3 B3]
  end.
  rewrite (bind_returned _ _ _ _ _ H3).
  match goal with
  | |- context [bind (report ?p ?x ?t) _ w3] =>
      destruct (report_trace p t x w3) as (evs4 & H4 & _)
  end.
  rewrite (bind_returned _ _ _ _ _ H4).
  (* the files *)
  match goal with
  | |- context [bind (prepareUpdateDirectory env ?v ?c ?m ?x ?t ?p) _ ?w0] =>
      destruct (prepareUpdateDirectory_returns v c m x t p w0) as (d5 & w5 & H5);
      destruct (returned_same_heap _ _ _ _
                  (same_heap_prepareUpdateDirectory env v c m x t p) H5) as [P5 B5]
  end.
  rewrite (bind_returned _ _ _ _ _ H5).
  match goal with
  | |- context [bind (_downloadFilesFromManifest env ?b ?m ?v ?x ?t ?p) _ w5] =>
      destruct (_downloadFilesFromManifest_returns env b v p t transfers_done m x w5)
        as (w6 & H6);
        [apply Forall_forall; intros e _; apply resolves |];
      destruct (returned_same_heap _ _ _ _
                  (same_heap__downloadFilesFromManifest env b m v x t p) H6) as [P6 B6]
  end.
  rewrite (bind_returned _ _ _ _ _ H6).
  (* the mark *)
  rewrite bind_modify_prefs, bind__savePrefs, saves. cbv beta.
  eexists. split; [reflexivity |].
  rewrite serverBasePath_logged, prefs_logged. cbn [prefs serverBasePath].
  rewrite prefs_logged in P5. rewrite serverBasePath_logged in B5.
  assert (E : prefs w6 = prefs w) by congruence.
  rewrite E, Ha. split; [congruence | reflexivity].
Qed.


End SyncInstalls.


(* ================================================================= *)
(** ** Start-up *)

Lemma stays_local_refl w : stays_local w w.
Proof. exists []. split; [now rewrite app_nil_r | constructor]. Qed.

Lemma stays_local_trans a b c : stays_local a b -> stays_local b c -> stays_local a c.
Proof.
  intros (e1 & T1 & F1) (e2 & T2 & F2). exists (e1 ++ e2)%list.
  split; [rewrite T2, T1; now rewrite app_assoc | now apply Forall_app].
Qed.

Lemma extends_refl w : extends w w.
Proof. exists []. now rewrite app_nil_r. Qed.

Lemma extends_trans a b c : extends a b -> extends b c -> extends a c.
Proof.
  intros (e1 & T1) (e2 & T2). exists (e1 ++ e2)%list. rewrite T2, T1. now rewrite app_assoc.
Qed.

#[local] Hint Resolve stays_local_refl stays_local_trans extends_refl extends_trans : core.
#[local] Hint Extern 1 (local_event _) => exact I : core.

Lemma housekeeping_event_local e : housekeeping_event e -> local_event e.
Proof. destruct e; cbn; tauto. Qed.

Lemma housekeeping_stays_local w w' : housekeeping w w' -> stays_local w w'.
Proof.
  intros (_ & _ & _ & _ & _ & _ & evs & T & F). exists evs. split; [exact T |].
  eapply Forall_impl; [| exact F]. apply housekeeping_event_local.
Qed.

Lemma stays_local_extends w w' : stays_local w w' -> extends w w'.
Proof. intros (evs & T & _). now exists evs. Qed.

Lemma in_background_extends w w' : in_background w w' -> extends w w'.
Proof. intros (_ & _ & _ & _ & _ & _ & evs & T & _). now exists evs. Qed.

Lemma stays_local_emit e : local_event e -> preserves stays_local (emit e).
Proof. intros He w. exists [e]. split; [reflexivity | now constructor]. Qed.

Lemma stays_local_modify_prefs f : preserves stays_local (modify_prefs f).
Proof. intros w. exists []. cbn. split; [now rewrite app_nil_r | constructor]. Qed.

Lemma stays_local__isRunningVersion v : preserves stays_local (_isRunningVersion v).
Proof. intros w. apply stays_local_refl. Qed.

Lemma stays_local_setServerBasePath path :
  preserves stays_local (WebView_setServerBasePath_call path).
Proof.
  intros w. exists [WebView_setServerBasePath path]. split; [reflexivity |].
  repeat constructor.
Qed.

#[local] Hint Resolve stays_local_emit stays_local_modify_prefs
  stays_local__isRunningVersion stays_local_setServerBasePath : core.

Section Startup.

Variable env : Env.

Lemma stays_local__savePrefs : preserves stays_local (_savePrefs env).
Proof.
  apply (preserves_weaken housekeeping); [apply housekeeping_stays_local |].
  apply housekeeping__savePrefs.
Qed.

Lemma stays_local_cleanupStaleVersions : preserves stays_local (cleanupStaleVersions env).
Proof.
  apply (preserves_weaken housekeeping); [apply housekeeping_stays_local |].
  apply housekeeping_cleanupStaleVersions.
Qed.

Lemma stays_local_cleanupVersions : preserves stays_local (cleanupVersions env).
Proof.
  apply (preserves_weaken housekeeping); [apply housekeeping_stays_local |].
  apply housekeeping_cleanupVersions.
Qed.

#[local] Hint Resolve stays_local__savePrefs stays_local_cleanupStaleVersions
  stays_local_cleanupVersions : core.

Lemma stays_local_reloadApp : preserves stays_local (reloadApp env).
Proof. unfold reloadApp. preserves_auto. Qed.

Lemma stays_local_reloadApp_begin : leaves stays_local (reloadApp_begin env).
Proof.
  assert (leaves stays_local (_savePrefs_begin env)).
  { unfold _savePrefs_begin, call. intros w. autorewrite with run.
    cbn [fst snd]. split.
    - exists [Exec_setPreferences (prefs w)]. split; [reflexivity |].
      repeat constructor.
    - intros rest E. injection E as <-.
      destruct (native_setPreferences env (trace w) (prefs w)); preserves_auto. }
  assert (leaves stays_local (reloadApp_deployed_begin env)).
  { unfold reloadApp_deployed_begin, reloadApp_answered. leaves_auto. }
  unfold reloadApp_begin. leaves_auto.
Qed.

(** What [reloadApp] does at once, and that what it leaves is the rest of
    [reloadApp]: the two parts, one after the other, are the awaited
    call. *)
Lemma reloadApp_begin_run w :
  exists rest w1 evs,
    reloadApp_begin env w = (Returned rest, w1)
    /\ trace w1 = (trace w ++ evs)%list
    /\ rest w1 = reloadApp env w
    /\ (Exists ready_or_redirect evs <-> reloadApp_waits (prefs w) = false).
Proof.
  assert (Hdeployed : forall w0,
            exists rest evs,
              reloadApp_deployed_begin env w0 = (Returned rest, logged w0 evs)
              /\ (Exists ready_or_redirect evs
                  <-> JS.truthy_opt (currentVersionId (prefs w0)) = false)
              /\ (rest0 <- reloadApp_deployed_begin env ;; rest0) w0
                 = (p <- get_prefs ;;
                    match currentVersionId p with
                    | Some current =>
                        if JS.truthy current then
                          running <- _isRunningVersion current ;;
                          if running then
                            _savePrefs env ;;
                            emit OnIonicProReady_fire ;;
                            emit WebView_persistServerBasePath ;;
                            cleanupVersions env ;;
                            ret false
                          else if negb (Obj.has (updates p) current) then
                            emit (Console_error_missing current) ;;
                            emit OnIonicProReady_fire ;;
                            ret false
                          else
                            let newLocation := getSnapshotCacheDir env current in
                            WebView_setServerBasePath_call newLocation ;;
                            ret true
                        else
                          emit OnIonicProReady_fire ;; ret false
                    | None =>
                        emit OnIonicProReady_fire ;; ret false
                    end) w0).
  { intros w0. unfold reloadApp_deployed_begin. rewrite bind_bind, !bind_get_prefs.
    unfold JS.truthy_opt.
    destruct (currentVersionId (prefs w0)) as [c |] eqn:Hc.
    - destruct (JS.truthy c) eqn:Ht.
      + exists (reloadApp_answered env c), []. rewrite logged_nil.
        split; [reflexivity |]. split.
        * split; [intros E; inversion E | discriminate].
        * rewrite bind_ret. unfold reloadApp_answered.
          rewrite !bind__isRunningVersion.
          destruct (JS.includes (serverBasePath w0) c); [reflexivity |].
          rewrite bind_get_prefs, Hc. reflexivity.
      + exists (ret false), [OnIonicProReady_fire].
        autorewrite with run. split; [reflexivity |]. split; [| reflexivity].
        split; [reflexivity | intros _; now constructor].
    - exists (ret false), [OnIonicProReady_fire].
      autorewrite with run. split; [reflexivity |]. split; [| reflexivity].
      split; [reflexivity | intros _; now constructor]. }
  assert (Hplain : forall w0,
            (match availableUpdate (prefs w0) with
             | Some u => UpdateState_eqb (state u) Ready
             | None => false
             end) = false ->
            reloadApp_waits (prefs w0) = JS.truthy_opt (currentVersionId (prefs w0))).
  { intros w0 H0. unfold reloadApp_waits.
    destruct (availableUpdate (prefs w0)) as [u |]; [now rewrite H0 | reflexivity]. }
  unfold reloadApp_begin, reloadApp. rewrite !bind_get_prefs.
  destruct (availableUpdate (prefs w)) as [u |] eqn:Ha;
    [destruct (UpdateState_eqb (state u) Ready) eqn:Hs |].
  - (* a Ready update: the first await is the one of the save *)
    unfold _savePrefs_begin, _savePrefs, call.
    autorewrite with run. do 3 eexists.
    split; [reflexivity |]. split; [rewrite trace_logged; reflexivity |]. split.
    + match goal with
      | |- context [native_setPreferences env ?t ?p] =>
          destruct (native_setPreferences env t p)
      end; autorewrite with run.
      * destruct (Hdeployed
          (logged {| prefs := with_availableUpdate
                                (with_current (prefs w) (Some (versionId u))
                                              (Some (buildId u))) None;
                     serverBasePath := serverBasePath w;
                     trace := trace w |}
                  [Exec_setPreferences
                     (with_availableUpdate
                        (with_current (prefs w) (Some (versionId u))
                                      (Some (buildId u))) None)]))
          as (_ & _ & _ & _ & E).
        exact E.
      * reflexivity.
    + unfold reloadApp_waits. rewrite Ha, Hs.
      split; [| discriminate]. intros E.
      inversion E as [? ? F | ? ? F]; [destruct F | inversion F].
  - destruct (Hdeployed w) as (rest & evs & E1 & E2 & E3).
    exists rest, (logged w evs), evs.
    split; [exact E1 |]. split; [reflexivity |]. split.
    + rewrite <- (bind_returned _ (fun rest0 => rest0) _ _ _ E1), E3.
      now autorewrite with run.
    + rewrite Hplain; [exact E2 | now rewrite Ha].
  - destruct (Hdeployed w) as (rest & evs & E1 & E2 & E3).
    exists rest, (logged w evs), evs.
    split; [exact E1 |]. split; [reflexivity |]. split.
    + rewrite <- (bind_returned _ (fun rest0 => rest0) _ _ _ E1), E3.
      now autorewrite with run.
    + rewrite Hplain; [exact E2 | now rewrite Ha].
Qed.

(** X26: Started while the device is offline, the engine asks nothing of the
    network: it cleans up the stale versions and reloads; and it returns as
    soon as the cleanup has come through, without waiting for the reload.
    Nothing is asked of the network before it returns, nor by the reload it
    has left running, whenever that one goes on. *)
Theorem startup_offline_asks_nothing_of_the_network depth w :
  navigator_onLine env (trace (snd (cleanupStaleVersions env w))) = false ->
  let r := _handleInitialPreferenceState env depth w in
  stays_local w (snd r)
  /\ stays_local w (left_to_itself r)
  /\ (forall rest, fst r = Returned rest -> preserves stays_local rest)
  /\ (fst (cleanupStaleVersions env w) = Returned tt ->
      exists rest, fst r = Returned rest).
Proof.
  intros Hoff r.
  pose proof (stays_local_cleanupStaleVersions w) as Hclean.
  subst r. unfold _handleInitialPreferenceState, left_to_itself.
  destruct (cleanupStaleVersions env w) as [[[] | e |] w1] eqn:H1; cbn [fst snd] in *.
  - rewrite (bind_returned _ _ _ _ _ H1), bind_ask, Hoff. cbn [negb].
    destruct (stays_local_reloadApp_begin w1) as [L1 L2].
    destruct (reloadApp_begin_run w1) as (rest & w2 & evs & E & _).
    rewrite E in L1, L2. cbn [fst snd] in L1, L2. specialize (L2 rest eq_refl).
    rewrite (bind_returned _ _ _ _ _ E).
    change (ret (rest ;; ret tt) w2) with (Returned (rest ;; ret tt), w2).
    cbn [fst snd].
    assert (Hrest : preserves stays_local (rest ;; ret tt)) by preserves_auto.
    split; [eapply stays_local_trans; [exact Hclean | exact L1] |].
    split; [| split].
    + eapply stays_local_trans; [exact Hclean |].
      eapply stays_local_trans; [exact L1 | apply Hrest].
    + intros rest0 E0. injection E0 as <-. exact Hrest.
    + intros _. eexists. reflexivity.
  - rewrite (bind_thrown _ _ _ _ _ H1). cbn [fst snd].
    repeat split; try exact Hclean; discriminate.
  - rewrite (bind_unfinished _ _ _ _ H1). cbn [fst snd].
    repeat split; try exact Hclean; discriminate.
Qed.

Lemma extends_checkForUpdate : preserves extends (checkForUpdate env).
Proof.
  apply (preserves_weaken in_background); [apply in_background_extends |].
  apply in_background_checkForUpdate.
Qed.

Lemma extends_downloadUpdate depth progress :
  preserves extends (downloadUpdate env depth progress).
Proof.
  apply (preserves_weaken in_background); [apply in_background_extends |].
  apply in_background_downloadUpdate.
Qed.

Lemma extends_extractUpdate progress : preserves extends (extractUpdate env progress).
Proof.
  apply (preserves_weaken in_background); [apply in_background_extends |].
  apply in_background_extractUpdate.
Qed.

Lemma extends_reloadApp : preserves extends (reloadApp env).
Proof.
  apply (preserves_weaken stays_local); [apply stays_local_extends |].
  apply stays_local_reloadApp.
Qed.

Lemma extends_availableUpdate_state_is s : preserves extends (availableUpdate_state_is s).
Proof.
  apply (preserves_weaken in_background); [apply in_background_extends |].
  apply in_background_availableUpdate_state_is.
Qed.

#[local] Hint Resolve extends_checkForUpdate extends_downloadUpdate extends_extractUpdate
  extends_reloadApp extends_availableUpdate_state_is : core.

Lemma extends_sync depth method progress : preserves extends (sync env depth method progress).
Proof. unfold sync, sync_checked. preserves_auto. Qed.

Hypothesis saves : forall t p, native_setPreferences env t p = true.

(** With a store that accepts every save, [reloadApp] returns, having
    fired the ready signal or sent the webview to a snapshot. *)
Lemma reloadApp_signals w :
  exists b w' evs,
    reloadApp env w = (Returned b, w')
    /\ trace w' = (trace w ++ evs)%list
    /\ Exists ready_or_redirect evs.
Proof.
  destruct (reloadApp_returns env saves w) as (b & w' & H).
  destruct (reloadApp_returned env w b w' H) as (evs & T & [L | R]).
  - destruct L as (_ & _ & _ & c & before & _ & _ & -> & _).
    exists b, w'. eexists. split; [exact H |]. split; [exact T |].
    apply Exists_app. right. now constructor.
  - destruct R as (_ & _ & _ & Hfire & _).
    exists b, w', evs. split; [exact H |]. split; [exact T |].
    apply Exists_exists. exists OnIonicProReady_fire. now split.
Qed.

Lemma extends_sync_begin depth method progress :
  leaves extends (sync_begin env depth method progress).
Proof.
  assert (forall raced, preserves extends (checkForUpdate_answered env raced)).
  { intros raced. apply (preserves_weaken in_background); [apply in_background_extends |].
    apply in_background_checkForUpdate_answered. }
  assert (forall m, preserves extends (sync_checked env depth m progress)).
  { intros m. unfold sync_checked. preserves_auto. }
  assert (forall X e (f : list Event -> X), preserves extends (call e f)).
  { intros X e f w. exists [e]. reflexivity. }
  assert (leaves extends (checkForUpdate_begin env)).
  { unfold checkForUpdate_begin. leaves_auto. }
  unfold sync_begin. leaves_auto.
Qed.

Lemma sync_begin_returns depth method progress w :
  exists rest w1, sync_begin env depth method progress w = (Returned rest, w1).
Proof.
  unfold sync_begin, checkForUpdate_begin. rewrite bind_get_prefs. cbv zeta.
  rewrite bind_bind, bind_ask.
  destruct (negb (navigator_onLine env (trace w))); autorewrite with run;
    do 2 eexists; reflexivity.
Qed.

Lemma housekeeping_fires_nothing evs :
  Forall housekeeping_event evs -> ~ Exists ready_or_redirect evs.
Proof.
  intros F E. apply Exists_exists in E as (e & Hin & He).
  rewrite Forall_forall in F. specialize (F e Hin). now destruct e.
Qed.


End Startup.


(** The installed version v1 is served while the device is offline. *)
Lemma startup_offline_asks_nothing_of_the_network_witness :
  let env := Scenario.offline Sample.env in
  let v1 := Sample.update "v1" "2020-01-01T00:00:00.000Z" Ready in
  let w := Sample.world (Sample.preferences (Some "v1") [v1] None) "/www" in
  let r := _handleInitialPreferenceState env 1 w in
  stays_local w (snd r)
  /\ stays_local w (left_to_itself r)
  /\ (forall rest, fst r = Returned rest -> preserves stays_local rest)
  /\ (exists rest, fst r = Returned rest)
  /\ serverBasePath (snd r) = "/www"
  /\ serverBasePath (left_to_itself r) = "/data/ionic_built_snapshots/v1".
Proof.
  intros env v1 w r.
  destruct (startup_offline_asks_nothing_of_the_network env 1 w eq_refl)
    as (L1 & L2 & L3 & L4).
  split; [exact L1 |]. split; [exact L2 |]. split; [exact L3 |].
  split; [apply L4; reflexivity |]. split; reflexivity.
Defined.
